(** * Transaction normalisation and analytics pipeline

    A shallow embedding of the pure core of the finance dashboard:
    [utils.ts] (date normaliser, categoriser, statement parser),
    [domain/transactions/dedupe.ts], [domain/analytics/summarize.ts],
    [domain/analytics/recurring.ts], [domain/analytics/anomalies.ts] and
    [domain/analytics/forecast.ts].

    Conventions of the embedding.
    - A JavaScript string is a [string] of ASCII code units; [trim],
      [toUpperCase], [toLowerCase] and the class [\s] act on the ASCII
      members of the ECMAScript definitions; characters beyond ASCII are
      not modelled.
    - The amount of a transaction is the exact rational value ([Q]) of its
      double; [NaN] is [None] where the code can produce it.  The
      arithmetic is embedded twice.  Where the signs, the zeros and the
      shape of a result are at stake (the parser, the keys, the totals by
      month and by category, what the detectors depend on) sums and
      comparisons are exact, and a quotient by [Math.sqrt] is kept as a
      numerator and a radicand.  Where rounding decides what is returned
      (the statistics of [detectRecurring] and [detectAnomalies], the means
      of [buildForecast]) the functions are embedded on binary64
      ([Binary64], [Recurring64], [Anomalies64], [Forecast64]) with the
      floating-point numbers of the kernel.
    - What ECMA-262 leaves to the implementation in that arithmetic (the
      collation of [localeCompare], the approximation of [Math.pow]) is an
      [Engine] record.
    - A [Date] is its time value in milliseconds ([None] is the invalid
      date), with the calendar arithmetic of ECMA-262 (Day, DayFromYear,
      YearFromTime, MonthFromTime, DateFromTime, MakeDay, TimeClip).
    - What ECMA-262 leaves to the host ([new Date(string)], the local time
      zone offset, [Date.prototype.toString]) is a [Host] record that the
      functions take as an argument.
    - A [Map] is an association list in insertion order, since iteration
      order reaches the output. *)

From Stdlib Require Import Reals Qreals Lra.
From Stdlib Require Import ZArith List Bool Ascii String QArith Qabs Qround Lia Lqa.
From Stdlib Require Import Permutation Sorted Setoid.
From Stdlib Require Floats.
Import ListNotations.

Local Open Scope string_scope.
Local Open Scope Z_scope.

(* ================================================================== *)
(** ** JavaScript strings *)

Module Js.

Definition code (c : ascii) : Z := Z.of_N (N_of_ascii c).

Definition isDigit (c : ascii) : bool := (48 <=? code c) && (code c <=? 57).
Definition isUpper (c : ascii) : bool := (65 <=? code c) && (code c <=? 90).
Definition isLower (c : ascii) : bool := (97 <=? code c) && (code c <=? 122).
Definition isAlpha (c : ascii) : bool := isUpper c || isLower c.

(** The ASCII members of WhiteSpace and LineTerminator: TAB, LF, VT, FF, CR, SP. *)
Definition isSpace (c : ascii) : bool :=
  ((9 <=? code c) && (code c <=? 13)) || (code c =? 32).

Definition toUpperChar (c : ascii) : ascii :=
  if isLower c then ascii_of_N (N_of_ascii c - 32) else c.
Definition toLowerChar (c : ascii) : ascii :=
  if isUpper c then ascii_of_N (N_of_ascii c + 32) else c.

Fixpoint mapChars (f : ascii -> ascii) (s : string) : string :=
  match s with
  | EmptyString => EmptyString
  | String c s' => String (f c) (mapChars f s')
  end.

Definition toUpperCase : string -> string := mapChars toUpperChar.
Definition toLowerCase : string -> string := mapChars toLowerChar.

Fixpoint allChars (p : ascii -> bool) (s : string) : bool :=
  match s with
  | EmptyString => true
  | String c s' => p c && allChars p s'
  end.

Fixpoint filterChars (p : ascii -> bool) (s : string) : string :=
  match s with
  | EmptyString => EmptyString
  | String c s' => if p c then String c (filterChars p s') else filterChars p s'
  end.

Fixpoint trimStart (s : string) : string :=
  match s with
  | EmptyString => EmptyString
  | String c s' => if isSpace c then trimStart s' else s
  end.

Fixpoint trimEnd (s : string) : string :=
  match s with
  | EmptyString => EmptyString
  | String c s' =>
      match trimEnd s' with
      | EmptyString => if isSpace c then EmptyString else String c EmptyString
      | r => String c r
      end
  end.

Definition trim (s : string) : string := trimEnd (trimStart s).

(** [s.startsWith(p)] *)
Fixpoint startsWith (p s : string) : bool :=
  match p with
  | EmptyString => true
  | String a p' =>
      match s with
      | EmptyString => false
      | String b s' => Ascii.eqb a b && startsWith p' s'
      end
  end.

(** [s.includes(sub)] *)
Fixpoint includes (s sub : string) : bool :=
  startsWith sub s ||
  match s with
  | EmptyString => false
  | String _ s' => includes s' sub
  end.

(** [s.split(sep)] for a one-character separator: never the empty list. *)
Fixpoint split (sep : ascii) (s : string) : list string :=
  match s with
  | EmptyString => [EmptyString]
  | String c s' =>
      if Ascii.eqb c sep then EmptyString :: split sep s'
      else match split sep s' with
           | [] => [String c EmptyString]
           | w :: ws => String c w :: ws
           end
  end.

(** [a.join(sep)] *)
Fixpoint join (sep : string) (l : list string) : string :=
  match l with
  | [] => EmptyString
  | [x] => x
  | x :: rest => x ++ sep ++ join sep rest
  end.

(** [s.slice(0, n)] and [s.substring(0, n)] for [n >= 0] *)
Fixpoint take (n : nat) (s : string) : string :=
  match n, s with
  | S n', String c s' => String c (take n' s')
  | _, _ => EmptyString
  end.

(** The stable sort behind [Array.prototype.sort(cmp)]: [gt a b] says that
    the comparator is positive on [(a, b)], so that [a] goes after [b].
    Elements that the comparator does not separate keep their order. *)
Section Sort.
Context {A : Type} (gt : A -> A -> bool).

Fixpoint insertSorted (x : A) (l : list A) : list A :=
  match l with
  | [] => [x]
  | y :: l' => if gt x y then y :: insertSorted x l' else x :: l
  end.

Definition sortBy (l : list A) : list A :=
  fold_right insertSorted [] l.

(** [a] may stand before [b]: the comparator does not put it after. *)
Definition before (a b : A) : Prop := gt a b = false.
End Sort.

(** [Array.prototype.sort()] on strings: code-unit order. *)
Definition sortStrings : list string -> list string :=
  sortBy (fun a b => String.ltb b a).

(** [a.localeCompare(b) > 0].  On the strings it is used for here (dates and
    month keys: digits and hyphens) every collation is the code-unit order. *)
Definition localeCompare_gt (a b : string) : bool := String.ltb b a.

(* ------------------------------------------------------------------ *)
(** ** JavaScript numbers and their text *)

Definition digitVal (c : ascii) : Z := code c - 48.
Definition digitChar (d : Z) : ascii := ascii_of_N (Z.to_N (48 + d)).

(** The value of a run of digits, most significant first. *)
Fixpoint digitsValAcc (acc : Z) (s : string) : Z :=
  match s with
  | EmptyString => acc
  | String c s' => digitsValAcc (10 * acc + digitVal c) s'
  end.
Definition digitsVal : string -> Z := digitsValAcc 0.

(** The longest prefix of digits and what follows it. *)
Fixpoint spanDigits (s : string) : string * string :=
  match s with
  | EmptyString => (EmptyString, EmptyString)
  | String c s' =>
      if isDigit c then let (d, r) := spanDigits s' in (String c d, r)
      else (EmptyString, s)
  end.

(** [parseInt(s, 10)]: leading white space, an optional sign, the longest
    run of digits; [None] is NaN. *)
Definition parseInt (s : string) : option Z :=
  let s1 := trimStart s in
  let (neg, s2) :=
    match s1 with
    | String c r =>
        if Ascii.eqb c "-" then (true, r)
        else if Ascii.eqb c "+" then (false, r)
        else (false, s1)
    | EmptyString => (false, s1)
    end in
  match fst (spanDigits s2) with
  | EmptyString => None
  | ds => Some (if neg then - digitsVal ds else digitsVal ds)
  end.

(** Decimal digits of a natural number; [fuel] bounds the number of digits. *)
Fixpoint decDigits (fuel : nat) (n : Z) (acc : string) : string :=
  match fuel with
  | O => acc
  | S f =>
      let acc' := String (digitChar (n mod 10)) acc in
      if n <? 10 then acc' else decDigits f (n / 10) acc'
  end.

(** [String(n)] for an integer [n]. *)
Definition decString (n : Z) : string :=
  let m := Z.abs n in
  let ds := decDigits (S (Z.to_nat (Z.log2 m))) m EmptyString in
  if n <? 0 then String "-" ds else ds.

Fixpoint repeatChar (c : ascii) (n : nat) : string :=
  match n with
  | O => EmptyString
  | S n' => String c (repeatChar c n')
  end.

(** [s.padStart(n, c)] for a one-character filler *)
Definition padStart (n : nat) (c : ascii) (s : string) : string :=
  repeatChar c (n - String.length s) ++ s.

(** [parseFloat] on a text over the alphabet [0-9], [.], [-] (what the
    statement parser leaves in an amount cell): an optional minus sign,
    digits, and an optional fraction, read as the exact decimal.  [None] is
    NaN: no digit where a number has to start. *)
Definition parseFloat (s : string) : option Q :=
  let (neg, s1) :=
    match s with
    | String c r => if Ascii.eqb c "-" then (true, r) else (false, s)
    | EmptyString => (false, s)
    end in
  let (ip, s2) := spanDigits s1 in
  let fp :=
    match s2 with
    | String c r => if Ascii.eqb c "." then fst (spanDigits r) else EmptyString
    | EmptyString => EmptyString
    end in
  match ip, fp with
  | EmptyString, EmptyString => None
  | _, _ =>
      let k := Z.of_nat (String.length fp) in
      let v := Qmake (digitsVal (ip ++ fp)) (Z.to_pos (10 ^ k)) in
      Some (if neg then Qopp v else v)
  end.

(** [x.toFixed(2)] (below 10^21): the integer [n] with [n / 100] nearest to
    [|x|], the larger one on a tie, written with two decimals after the sign. *)
Definition toFixed2 (x : Q) : string :=
  let neg := negb (Qle_bool 0 x) in
  let a := if neg then Qopp x else x in
  let n := Qfloor (a * 100 + (1 # 2))%Q in
  let m := padStart 3 "0" (decString n) in
  let k := (String.length m - 2)%nat in
  let body := take k m ++ "." ++ substring k 2 m in
  if neg then String "-" body else body.

(* ------------------------------------------------------------------ *)
(** ** Arrays of numbers *)

(** [l.reduce((a, b) => a + b, 0)] *)
Definition sumQ (l : list Q) : Q := fold_left Qplus l 0%Q.
(** [l.length] as a number *)
Definition lengthQ {A} (l : list A) : Q := inject_Z (Z.of_nat (List.length l)).

(** The mean and the population variance, as both analytics compute them *)
Definition mean (l : list Q) : Q := (sumQ l / lengthQ l)%Q.
Definition variance (l : list Q) : Q :=
  let avg := mean l in
  (fold_left (fun s v => s + (v - avg) * (v - avg)) l 0 / lengthQ l)%Q.

(** [l[l.length - 1]], or [d] for the [undefined] of an empty array *)
Fixpoint lastOr {A} (d : A) (l : list A) : A :=
  match l with
  | [] => d
  | [x] => x
  | _ :: l' => lastOr d l'
  end.

End Js.

(* ================================================================== *)
(** ** Dates: the time values of ECMA-262 and the host *)

Module JsDate.
Import Js.

(** The time value of a [Date]; [None] is NaN, the invalid date. *)
Definition JSDate := option Z.

Definition msPerDay : Z := 86400000.
Definition Day (t : Z) : Z := t / msPerDay.

Definition isLeapYear (y : Z) : bool :=
  (y mod 4 =? 0) && (negb (y mod 100 =? 0) || (y mod 400 =? 0)).
Definition DaysInYear (y : Z) : Z := if isLeapYear y then 366 else 365.

Definition DayFromYear (y : Z) : Z :=
  365 * (y - 1970) + (y - 1969) / 4 - (y - 1901) / 100 + (y - 1601) / 400.

(** The year [y] with [DayFromYear y <= d < DayFromYear (y + 1)]: an
    estimate from the mean length of a year, off by one at most. *)
Definition YearFromDay (d : Z) : Z :=
  let y0 := 1970 + (400 * d) / 146097 in
  if d <? DayFromYear y0 then y0 - 1
  else if DayFromYear (y0 + 1) <=? d then y0 + 1
  else y0.

Definition DayWithinYear (d : Z) : Z := d - DayFromYear (YearFromDay d).

(** The first day within a year of month [m] (0 to 11), and of "month 12". *)
Definition monthStart (leap : Z) (m : Z) : Z :=
  match m with
  | 0 => 0 | 1 => 31 | 2 => 59 + leap | 3 => 90 + leap
  | 4 => 120 + leap | 5 => 151 + leap | 6 => 181 + leap | 7 => 212 + leap
  | 8 => 243 + leap | 9 => 273 + leap | 10 => 304 + leap | 11 => 334 + leap
  | _ => 365 + leap
  end.

Definition leapDay (y : Z) : Z := if isLeapYear y then 1 else 0.

Definition MonthFromDay (d : Z) : Z :=
  let w := DayWithinYear d in
  let l := leapDay (YearFromDay d) in
  if w <? 31 then 0 else if w <? 59 + l then 1 else if w <? 90 + l then 2
  else if w <? 120 + l then 3 else if w <? 151 + l then 4
  else if w <? 181 + l then 5 else if w <? 212 + l then 6
  else if w <? 243 + l then 7 else if w <? 273 + l then 8
  else if w <? 304 + l then 9 else if w <? 334 + l then 10 else 11.

Definition DateFromDay (d : Z) : Z :=
  DayWithinYear d - monthStart (leapDay (YearFromDay d)) (MonthFromDay d) + 1.

(** MakeDay(year, month, date) on integers. *)
Definition MakeDay (year month date : Z) : Z :=
  let ym := year + month / 12 in
  let mn := month mod 12 in
  DayFromYear ym + monthStart (leapDay ym) mn + date - 1.

(** TimeClip *)
Definition TimeClip (t : Z) : JSDate :=
  if Z.abs t <=? 8640000000000000 then Some t else None.

(** [Date.UTC(year, month, date)]: a year from 0 to 99 means 1900 + year. *)
Definition Date_UTC (year month date : Z) : JSDate :=
  let yr := if (0 <=? year) && (year <=? 99) then 1900 + year else year in
  TimeClip (MakeDay yr month date * msPerDay).

Definition getTime (d : JSDate) : option Z := d.
Definition getUTCFullYear (d : JSDate) : option Z := option_map (fun t => YearFromDay (Day t)) d.
Definition getUTCMonth (d : JSDate) : option Z := option_map (fun t => MonthFromDay (Day t)) d.
Definition getUTCDate (d : JSDate) : option Z := option_map (fun t => DateFromDay (Day t)) d.

(** What the language leaves to the host. *)
Record Host := {
  (** the time value of [new Date(s)] for a string [s] *)
  date_parse : string -> JSDate;
  (** LocalTZA: the offset of local time at a UTC time value, in ms *)
  local_tza : Z -> Z;
  (** [String(d)] for a [Date] *)
  date_to_string : JSDate -> string
}.

Definition LocalTime (h : Host) (t : Z) : Z := t + local_tza h t.
Definition getFullYear (h : Host) (d : JSDate) : option Z :=
  option_map (fun t => YearFromDay (Day (LocalTime h t))) d.
Definition getMonth (h : Host) (d : JSDate) : option Z :=
  option_map (fun t => MonthFromDay (Day (LocalTime h t))) d.
Definition getDate (h : Host) (d : JSDate) : option Z :=
  option_map (fun t => DateFromDay (Day (LocalTime h t))) d.

(** [a === b] on numbers: NaN equals nothing. *)
Definition numEq (a b : option Z) : bool :=
  match a, b with
  | Some x, Some y => x =? y
  | _, _ => false
  end.

(** [String(x)] inside a template literal, for a number that may be NaN *)
Definition numString (x : option Z) : string :=
  match x with
  | Some n => decString n
  | None => "NaN"
  end.

End JsDate.

(* ================================================================== *)
(** ** The regular expressions of the sources

    Every pattern of the sources is a sequence of bounded repetitions of a
    character class; [rep] is the greedy, backtracking matcher of one
    repetition with the rest of the match as a continuation. *)

Module Regex.
Import Js.

Inductive CharClass := Digit | Letter | Lit (c : ascii).

Definition inClass (cl : CharClass) (c : ascii) : bool :=
  match cl with
  | Digit => isDigit c
  | Letter => isAlpha c
  | Lit a => Ascii.eqb a c
  end.

(** [cl{min, min + extra}], as a capture group or not *)
Record Item := { cls : CharClass; min : nat; extra : nat; captured : bool }.

Definition snoc (s : string) (c : ascii) : string := s ++ String c EmptyString.

Fixpoint rep (cl : CharClass) (mn ex : nat) (acc : string)
    (k : string -> string -> option (list string)) (s : string) {struct s}
    : option (list string) :=
  match mn with
  | S m =>
      match s with
      | String c s' => if inClass cl c then rep cl m ex (snoc acc c) k s' else None
      | EmptyString => None
      end
  | O =>
      match ex with
      | S e =>
          match s with
          | String c s' =>
              if inClass cl c then
                match rep cl O e (snoc acc c) k s' with
                | Some r => Some r
                | None => k acc s
                end
              else k acc s
          | EmptyString => k acc s
          end
      | O => k acc s
      end
  end.

(** A match of the items at the start of [s]; [toEnd] is a final [$]. *)
Fixpoint matchItems (toEnd : bool) (p : list Item) (s : string) : option (list string) :=
  match p with
  | [] =>
      match s with
      | EmptyString => Some []
      | _ => if toEnd then None else Some []
      end
  | it :: p' =>
      rep (cls it) (min it) (extra it) EmptyString
        (fun cap rest =>
           option_map (fun caps => if captured it then cap :: caps else caps)
                      (matchItems toEnd p' rest))
        s
  end.

(** [s.match(/^...$/)]: the capture groups *)
Definition matchWhole : list Item -> string -> option (list string) := matchItems true.

(** [/.../.test(s)] for a pattern without anchors *)
Fixpoint test (p : list Item) (s : string) : bool :=
  match matchItems false p s with
  | Some _ => true
  | None =>
      match s with
      | EmptyString => false
      | String _ s' => test p s'
      end
  end.

Definition digits (a b : nat) : Item :=
  {| cls := Digit; min := a; extra := b - a; captured := true |}.
Definition digits_ (a b : nat) : Item :=
  {| cls := Digit; min := a; extra := b - a; captured := false |}.
Definition letters (a : nat) : Item :=
  {| cls := Letter; min := a; extra := 0; captured := true |}.
Definition lit (c : ascii) : Item :=
  {| cls := Lit c; min := 1; extra := 0; captured := false |}.

End Regex.

(* ================================================================== *)
(** ** utils.ts *)

Module Utils.
Import Js JsDate Regex.

(** The values that reach the parser: a cell of the decoded sheet is absent,
    a formatted text or (with [cellDates]) a [Date]; [parseDate] also takes
    a number, here an integer. *)
Inductive JsVal :=
| VUndef
| VStr (s : string)
| VNum (n : Z)
| VDate (d : JSDate).

Definition truthy (v : JsVal) : bool :=
  match v with
  | VUndef => false
  | VStr s => negb (String.eqb s "")
  | VNum n => negb (n =? 0)
  | VDate _ => true
  end.

(** [String(v)] *)
Definition toStr (h : Host) (v : JsVal) : string :=
  match v with
  | VUndef => "undefined"
  | VStr s => s
  | VNum n => decString n
  | VDate d => date_to_string h d
  end.

(** [String(v || dflt)] for a text [dflt] *)
Definition strOr (h : Host) (v : JsVal) (dflt : string) : string :=
  if truthy v then toStr h v else dflt.

Definition orElse {A} (a b : option A) : option A :=
  match a with
  | Some _ => a
  | None => b
  end.

(** [Date.UTC] on arguments that may be NaN *)
Definition Date_UTC_of (y m d : option Z) : JSDate :=
  match y, m, d with
  | Some y, Some m, Some d => Date_UTC y m d
  | _, _, _ => None
  end.

(** [/^(\d{4})-(\d{1,2})-(\d{1,2})$/] *)
Definition pattern1 : list Item := [digits 4 4; lit "-"; digits 1 2; lit "-"; digits 1 2].
(** [/^(\d{1,2})\/(\d{1,2})\/(\d{2,4})$/] *)
Definition pattern2 : list Item := [digits 1 2; lit "/"; digits 1 2; lit "/"; digits 2 4].
(** [/^(\d{1,2})-([a-zA-Z]{3})-(\d{2,4})$/] *)
Definition pattern3 : list Item := [digits 1 2; lit "-"; letters 3; lit "-"; digits 2 4].

Definition monthMap : list (string * Z) :=
  [("jan", 0); ("feb", 1); ("mar", 2); ("apr", 3); ("may", 4); ("jun", 5);
   ("jul", 6); ("aug", 7); ("sep", 8); ("oct", 9); ("nov", 10); ("dec", 11)].

Definition lookup {V} (k : string) (m : list (string * V)) : option V :=
  option_map snd (find (fun e => String.eqb (fst e) k) m).

(** The check after each pattern: the date built from the fields has them. *)
Definition checked (year month day : Z) : option JSDate :=
  let date := Date_UTC year month day in
  if numEq (getUTCFullYear date) (Some year) && numEq (getUTCMonth date) (Some month)
     && numEq (getUTCDate date) (Some day)
  then Some date else None.

Definition century (year : Z) : Z := if year <? 100 then year + 2000 else year.

Definition tryPattern1 (dateStr : string) : option JSDate :=
  match matchWhole pattern1 dateStr with
  | Some [p1; p2; p3] =>
      match parseInt p1, parseInt p2, parseInt p3 with
      | Some year, Some m, Some day => checked year (m - 1) day
      | _, _, _ => None
      end
  | _ => None
  end.

Definition tryPattern2 (dateStr : string) : option JSDate :=
  match matchWhole pattern2 dateStr with
  | Some [p1; p2; p3] =>
      match parseInt p1, parseInt p2, parseInt p3 with
      | Some day, Some m, Some year => checked (century year) (m - 1) day
      | _, _, _ => None
      end
  | _ => None
  end.

Definition tryPattern3 (dateStr : string) : option JSDate :=
  match matchWhole pattern3 dateStr with
  | Some [p1; p2; p3] =>
      match parseInt p1, lookup (toLowerCase p2) monthMap, parseInt p3 with
      | Some day, Some month, Some year => checked (century year) month day
      | _, _, _ => None
      end
  | _ => None
  end.

(** The fallback: [new Date(dateStr)], rebuilt from its local fields. *)
Definition fallback (h : Host) (dateStr : string) : option JSDate :=
  let standardDate := date_parse h dateStr in
  match getTime standardDate with
  | Some _ =>
      Some (Date_UTC_of (getFullYear h standardDate) (getMonth h standardDate)
                        (getDate h standardDate))
  | None => None
  end.

Definition parseDateStr (h : Host) (s : string) : option JSDate :=
  let dateStr := trim s in
  if String.eqb dateStr "" then None
  else orElse (tryPattern1 dateStr)
      (orElse (tryPattern2 dateStr)
      (orElse (tryPattern3 dateStr)
              (fallback h dateStr))).

(** [parseDate]: [None] is [null]; [Some d] is a [Date], valid or not. *)
Definition parseDate (h : Host) (dateInput : JsVal) : option JSDate :=
  match dateInput with
  | VDate (Some t) =>
      let d := Some t in
      Some (Date_UTC_of (getFullYear h d) (getMonth h d) (getDate h d))
  | VDate None => None
  | VUndef => None
  | VStr _ | VNum _ => parseDateStr h (toStr h dateInput)
  end.

Definition formatDate (date : JSDate) : string :=
  let year := getUTCFullYear date in
  let month := padStart 2 "0" (numString (option_map (fun m => m + 1) (getUTCMonth date))) in
  let day := padStart 2 "0" (numString (getUTCDate date)) in
  numString year ++ "-" ++ month ++ "-" ++ day.

(** A [Set] of strings in insertion order *)
Definition setAdd (x : string) (l : list string) : list string :=
  if existsb (String.eqb x) l then l else (l ++ [x])%list.

(** [getCategory], with the keyword table (the entries of
    [categorizationMap], in their order) as an argument. *)
Definition getCategory (categorizationMap : list (string * string)) (description : string) : string :=
  let desc := toUpperCase description in
  let foundCategories :=
    fold_left (fun found e =>
                 if includes desc (toUpperCase (fst e)) then setAdd (snd e) found else found)
              categorizationMap [] in
  match foundCategories with
  | [] => "Other"
  | _ => join "-" (sortStrings foundCategories)
  end.

(** ['credit' | 'debit'] *)
Inductive TxType := Credit | Debit.

Record Transaction := {
  id : option Z;
  user_id : option string;
  date : string;
  description : string;
  amount : Q;
  type : TxType;
  category : string;
  recurring : option bool
}.

(** A promise that rejects with an [Error] or resolves to a value *)
Inductive Outcome (A : Type) :=
| Threw (message : string)
| Returned (value : A).
Arguments Threw {A} message.
Arguments Returned {A} value.

Definition Qgtb (x y : Q) : bool := negb (Qle_bool x y).

Definition numericChar (c : ascii) : bool :=
  isDigit c || Ascii.eqb c "." || Ascii.eqb c "-".

(** [parseFloat(String(v || '0').replace(/[^0-9.-]/g, '')) || 0] *)
Definition amountOf (h : Host) (v : JsVal) : Q :=
  match parseFloat (filterChars numericChar (strOr h v "0")) with
  | Some q => q
  | None => 0%Q
  end.

(** [row.map(cell => String(cell || '').trim().toLowerCase())] *)
Definition headerCells (h : Host) (row : list JsVal) : list string :=
  map (fun cell => toLowerCase (trim (strOr h cell ""))) row.

Definition memStr (x : string) (l : list string) : bool := existsb (String.eqb x) l.

(** [l.indexOf(x)]: [None] is -1 *)
Fixpoint indexOf (x : string) (l : list string) : option nat :=
  match l with
  | [] => None
  | y :: l' => if String.eqb y x then Some O else option_map S (indexOf x l')
  end.

(** The index of the first row that names both 'date' and 'narration' *)
Fixpoint findHeaderRow (h : Host) (aoa : list (list JsVal)) : option nat :=
  match aoa with
  | [] => None
  | r :: rest =>
      let row := headerCells h r in
      if memStr "date" row && memStr "narration" row then Some O
      else option_map S (findHeaderRow h rest)
  end.

Definition cell (row : list JsVal) (i : nat) : JsVal := nth i row VUndef.

Definition errNoHeader : string :=
  "Could not find transaction headers (e.g., 'Date', 'Narration') in the file. The parser looks for a row containing these keywords to identify where transactions begin.".
Definition errNoColumns : string :=
  "Could not find all required columns: 'Date', 'Narration', 'Withdrawal Amt.', and 'Deposit Amt.' in the header row. Please check the file.".
Definition errNoLibrary : string :=
  "SheetJS library (xlsx.full.min.js) is not loaded.".

(** The body of [dataRows.map]: [None] is the [null] that the filter drops. *)
Definition processRow (h : Host) (table : list (string * string))
    (dateIndex narrationIndex withdrawalIndex depositIndex : nat)
    (row : list JsVal) : option Transaction :=
  if match row with [] => true | _ => false end
     || startsWith "*" (trim (strOr h (cell row 0) ""))
  then None
  else
    let dateInput := cell row dateIndex in
    let description := cell row narrationIndex in
    let debitStr := cell row withdrawalIndex in
    let creditStr := cell row depositIndex in
    if negb (truthy dateInput) || negb (truthy description)
       || String.eqb (trim (toStr h description)) ""
    then None
    else
      match parseDate h dateInput with
      | None => None
      | Some parsedDate =>
          let debit := amountOf h debitStr in
          let credit := amountOf h creditStr in
          let mk (amount : Q) :=
            Some {| id := None; user_id := None;
                    date := formatDate parsedDate;
                    description := trim (toStr h description);
                    amount := amount;
                    type := if Qgtb amount 0 then Credit else Debit;
                    category := getCategory table (toStr h description);
                    recurring := None |} in
          if Qgtb credit 0 then mk credit
          else if Qgtb debit 0 then mk (Qopp debit)
          else None
      end.

Fixpoint filterMap {A B} (f : A -> option B) (l : list A) : list B :=
  match l with
  | [] => []
  | x :: l' =>
      match f x with
      | Some y => y :: filterMap f l'
      | None => filterMap f l'
      end
  end.

(** [processXlsData] from the decoded sheet on: [xlsxLoaded] says whether
    [window.XLSX] is there, [aoa] is what [sheet_to_json] returns. *)
Definition processXlsData (h : Host) (table : list (string * string))
    (xlsxLoaded : bool) (aoa : list (list JsVal)) : Outcome (list Transaction) :=
  if negb xlsxLoaded then Threw errNoLibrary
  else
    match aoa with
    | [] => Returned []
    | _ =>
        match findHeaderRow h aoa with
        | None => Threw errNoHeader
        | Some headerRowIndex =>
            let headerRow := headerCells h (nth headerRowIndex aoa []) in
            let dataRows := skipn (S headerRowIndex) aoa in
            match indexOf "date" headerRow, indexOf "narration" headerRow,
                  indexOf "withdrawal amt." headerRow, indexOf "deposit amt." headerRow with
            | Some dateIndex, Some narrationIndex, Some withdrawalIndex, Some depositIndex =>
                Returned (filterMap (processRow h table dateIndex narrationIndex
                                                withdrawalIndex depositIndex) dataRows)
            | _, _, _, _ => Threw errNoColumns
            end
        end
    end.

(** [formatDisplayDate] *)
Definition formatDisplayDate (dateStr : string) : string :=
  match split "-" dateStr with
  | [year; month; day] =>
      if negb (String.length year =? 4)%nat || negb (String.length month =? 2)%nat
         || negb (String.length day =? 2)%nat
      then dateStr
      else month ++ "/" ++ day ++ "/" ++ year
  | _ => dateStr
  end.

Record Summary := { totalIncome : Q; totalExpenses : Q; netSavings : Q }.

Record AnalysisResult := { summary : Summary; ar_transactions : list Transaction }.

Definition isCredit (t : Transaction) : bool :=
  match type t with Credit => true | Debit => false end.
Definition isDebit (t : Transaction) : bool :=
  match type t with Credit => false | Debit => true end.

(** [analyzeTransactions]: the expenses are the absolute value of the sum
    of the amounts of the debits. *)
Definition analyzeTransactions (transactions : list Transaction) : AnalysisResult :=
  let totalIncome :=
    fold_left (fun sum t => sum + amount t)%Q (filter isCredit transactions) 0%Q in
  let totalExpenses :=
    Qabs (fold_left (fun sum t => sum + amount t)%Q (filter isDebit transactions) 0%Q) in
  let netSavings := (totalIncome - totalExpenses)%Q in
  {| summary := {| totalIncome := totalIncome; totalExpenses := totalExpenses;
                   netSavings := netSavings |};
     ar_transactions := transactions |}.

End Utils.

(* ================================================================== *)
(** ** domain/transactions/dedupe.ts *)

Module Dedupe.
Import Js Utils.

Definition makeTransactionKey (t : Transaction) : string :=
  let date := trim (date t) in
  let desc := toLowerCase (trim (description t)) in
  let amt := toFixed2 (amount t) in
  date ++ "|" ++ desc ++ "|" ++ amt.

Record Filtered := { newOnes : list Transaction; duplicateCount : nat }.

(** [existingKeys] lists the members of the [Set]; [has] is [memStr]. *)
Definition filterDuplicateStaged (staged : list Transaction) (existingKeys : list string) : Filtered :=
  fold_left
    (fun acc t =>
       let key := makeTransactionKey t in
       if memStr key existingKeys
       then {| newOnes := newOnes acc; duplicateCount := S (duplicateCount acc) |}
       else {| newOnes := (newOnes acc ++ [t])%list; duplicateCount := duplicateCount acc |})
    staged {| newOnes := []; duplicateCount := O |}.

End Dedupe.

(* ================================================================== *)
(** ** domain/analytics/summarize.ts *)

Module Summarize.
Import Js Utils.

Record CategorySummary := { cs_category : string; expense : Q; income : Q }.

(** One pass of the inner loop on the [Map]: the entry of [c] is created at
    the end when it is missing, and gets the amount of [t]. *)
Definition addTo (t : Transaction) (e : CategorySummary) : CategorySummary :=
  match type t with
  | Credit => {| cs_category := cs_category e; expense := expense e;
                 income := income e + amount t |}
  | Debit => {| cs_category := cs_category e; expense := expense e + Qabs (amount t);
                income := income e |}
  end.

Fixpoint accumulate (t : Transaction) (c : string) (catMap : list CategorySummary)
    : list CategorySummary :=
  match catMap with
  | [] => [addTo t {| cs_category := c; expense := 0; income := 0 |}]
  | e :: rest =>
      if String.eqb (cs_category e) c then addTo t e :: rest
      else e :: accumulate t c rest
  end.

(** [(t.category || 'Other').split('-').filter(Boolean)], or ['Other'] *)
Definition labelsOf (t : Transaction) : list string :=
  let raw := if String.eqb (category t) "" then "Other" else category t in
  let categories := filter (fun w => negb (String.eqb w "")) (split "-" raw) in
  match categories with
  | [] => ["Other"]
  | _ => categories
  end.

Definition aggregateCategories (transactions : list Transaction) : list CategorySummary :=
  let catMap :=
    fold_left (fun m t => fold_left (fun m' c => accumulate t c m') (labelsOf t) m)
              transactions [] in
  sortBy (fun a b => Qgtb (expense b - expense a) 0) catMap.

(** [summarize]: the expenses are the sum of the absolute amounts of the
    debits. *)
Definition summarize (transactions : list Transaction) : Summary :=
  let totals :=
    fold_left (fun acc t =>
                 match type t with
                 | Credit => (fst acc + amount t, snd acc)%Q
                 | Debit => (fst acc, snd acc + Qabs (amount t))%Q
                 end)
              transactions (0, 0)%Q in
  {| totalIncome := fst totals; totalExpenses := snd totals;
     netSavings := (fst totals - snd totals)%Q |}.

Record MonthlyAggregate := {
  ma_monthKey : string;
  ma_income : Q;
  ma_expense : Q;
  ma_savings : Q
}.

(** [/^\d{4}-\d{2}-\d{2}$/] *)
Definition datePattern : list Regex.Item :=
  [Regex.digits_ 4 4; Regex.lit "-"; Regex.digits_ 2 2; Regex.lit "-"; Regex.digits_ 2 2].

Definition validDate (s : string) : bool :=
  match Regex.matchWhole datePattern s with
  | Some _ => true
  | None => false
  end.

Definition addToMonth (t : Transaction) (e : MonthlyAggregate) : MonthlyAggregate :=
  match type t with
  | Credit => {| ma_monthKey := ma_monthKey e; ma_income := ma_income e + amount t;
                 ma_expense := ma_expense e; ma_savings := ma_savings e |}
  | Debit => {| ma_monthKey := ma_monthKey e; ma_income := ma_income e;
                ma_expense := ma_expense e + Qabs (amount t); ma_savings := ma_savings e |}
  end.

(** One pass of the loop on the [Map]: the entry of [key] is created at the
    end when it is missing, and gets the amount of [t]. *)
Fixpoint accumulateMonth (t : Transaction) (key : string) (m : list MonthlyAggregate)
    : list MonthlyAggregate :=
  match m with
  | [] => [addToMonth t {| ma_monthKey := key; ma_income := 0; ma_expense := 0;
                           ma_savings := 0 |}]
  | e :: rest =>
      if String.eqb (ma_monthKey e) key then addToMonth t e :: rest
      else e :: accumulateMonth t key rest
  end.

(** [aggregateMonthly] of summarize.ts: by the type of the transaction, on
    the transactions with a date of the form [YYYY-MM-DD]. *)
Definition aggregateMonthly (transactions : list Transaction) : list MonthlyAggregate :=
  let m :=
    fold_left (fun m t => if validDate (date t) then accumulateMonth t (take 7 (date t)) m
                          else m)
              transactions [] in
  let arr := sortBy (fun a b => localeCompare_gt (ma_monthKey a) (ma_monthKey b)) m in
  map (fun e => {| ma_monthKey := ma_monthKey e; ma_income := ma_income e;
                   ma_expense := ma_expense e;
                   ma_savings := (ma_income e - ma_expense e)%Q |})
      arr.

End Summarize.

(* ================================================================== *)
(** ** Quotients by a square root, compared exactly *)

Module Surd.
Import Utils.

(** [Math.sqrt(r) < b], for [0 <= r] *)
Definition sqrt_ltb (r b : Q) : bool := Qgtb b 0 && Qgtb (b * b) r.

(** [num / Math.sqrt(rad)], for [0 < rad] *)
Record Quot := { num : Q; rad : Q }.

(** [x * |x|] for the quotient: it grows strictly with the quotient. *)
Definition signedSquare (z : Quot) : Q := num z * Qabs (num z) / rad z.

(** [z >= c] *)
Definition geb (z : Quot) (c : Q) : bool := Qle_bool (c * Qabs c) (signedSquare z).
(** [a > b] *)
Definition gtb (a b : Quot) : bool := Qgtb (signedSquare a) (signedSquare b).

End Surd.

(* ================================================================== *)
(** ** domain/analytics/recurring.ts *)

Module Recurring.
Import Js JsDate Utils.

Record RecurringPattern := {
  key : string;
  count : nat;
  avgIntervalDays : Q;
  lastDate : string
}.

Fixpoint collapseSpaces (inRun : bool) (s : string) : string :=
  match s with
  | EmptyString => EmptyString
  | String c s' =>
      if isSpace c
      then if inRun then collapseSpaces true s' else String " " (collapseSpaces true s')
      else String c (collapseSpaces false s')
  end.

Definition normalizeDescription (desc : string) : string :=
  trim (collapseSpaces false
          (mapChars (fun c => if isLower c || isDigit c || isSpace c then c else " "%char)
                    (toLowerCase desc))).

(** [groups.get(norm).push(t)], after [groups.set(norm, [])] for a new key *)
Fixpoint groupPush (norm : string) (t : Transaction)
    (groups : list (string * list Transaction)) : list (string * list Transaction) :=
  match groups with
  | [] => [(norm, [t])]
  | (k, l) :: rest =>
      if String.eqb k norm then (k, (l ++ [t])%list) :: rest
      else (k, l) :: groupPush norm t rest
  end.

Definition groupByDescription (transactions : list Transaction)
    : list (string * list Transaction) :=
  fold_left (fun groups t => groupPush (normalizeDescription (description t)) t groups)
            transactions [].

Definition sortByDate : list Transaction -> list Transaction :=
  sortBy (fun a b => localeCompare_gt (date a) (date b)).

(** [(curr.getTime() - prev.getTime()) / 86400000]; [None] is NaN *)
Definition dayDiff (h : Host) (prev curr : Transaction) : option Q :=
  match getTime (date_parse h (date prev)), getTime (date_parse h (date curr)) with
  | Some p, Some c => Some (inject_Z (c - p) / inject_Z msPerDay)%Q
  | _, _ => None
  end.

(** The loop over [i = 1 .. length - 1]: the positive gaps *)
Fixpoint intervalsOf (h : Host) (lst : list Transaction) : list Q :=
  match lst with
  | prev :: (curr :: _) as rest =>
      match dayDiff h prev curr with
      | Some diff => if Qgtb diff 0 then diff :: intervalsOf h rest else intervalsOf h rest
      | None => intervalsOf h rest
      end
  | _ => []
  end.

(** [cov < 0.5] for [cov = avg > 0 ? Math.sqrt(variance) / avg : Infinity],
    decided as [Math.sqrt(variance) < 0.5 * avg] *)
Definition covBelowHalf (avg variance : Q) : bool :=
  if Qgtb avg 0 then Surd.sqrt_ltb variance ((1 # 2) * avg) else false.

(** [Math.round(x)] *)
Definition round (x : Q) : Z := Qfloor (x + (1 # 2)).

Definition setAddZ (x : Z) (l : list Z) : list Z :=
  if existsb (Z.eqb x) l then l else (l ++ [x])%list.

(** The body of the loop over the groups: the pattern of a group, if any *)
Definition patternOf (h : Host) (key : string) (group : list Transaction)
    : option (RecurringPattern * list Transaction) :=
  if (List.length group <? 3)%nat then None
  else
    let lst := sortByDate group in
    let intervals := intervalsOf h lst in
    match intervals with
    | [] => None
    | _ =>
        let avg := mean intervals in
        if covBelowHalf avg (variance intervals)
        then Some ({| key := key;
                      count := List.length lst;
                      avgIntervalDays := (inject_Z (round (avg * 10)) / 10)%Q;
                      lastDate := lastOr "" (map date lst) |}, lst)
        else None
    end.

Record Detected := { patterns : list RecurringPattern; recurringIds : list Z }.

Definition detectRecurring (h : Host) (transactions : list Transaction) : Detected :=
  fold_left
    (fun acc g =>
       match patternOf h (fst g) (snd g) with
       | Some (p, lst) =>
           {| patterns := (patterns acc ++ [p])%list;
              recurringIds :=
                fold_left (fun ids tx => match id tx with
                                         | Some i => setAddZ i ids
                                         | None => ids
                                         end)
                          lst (recurringIds acc) |}
       | None => acc
       end)
    (groupByDescription transactions)
    {| patterns := []; recurringIds := [] |}.

End Recurring.

(* ================================================================== *)
(** ** domain/analytics/anomalies.ts *)

Module Anomalies.
Import Js Utils.

(** [std] is [Math.sqrt(variance)] *)
Record CategoryStats := { mean : Q; variance : Q }.

Definition computeStats (values : list Q) : option CategoryStats :=
  if (List.length values <? 5)%nat then None
  else
    let mean := Js.mean values in
    let variance := Js.variance values in
    if Qeq_bool variance 0 then None
    else Some {| mean := mean; variance := variance |}.

Inductive Severity := moderate | severe.

Record AnomalyResult := {
  transactionId : option Z;
  a_date : string;
  a_description : string;
  a_amount : Q;
  a_category : string;
  zScore : Surd.Quot;
  severity : Severity
}.

(** [list = get(c) || []; list.push(v); set(c, list)] *)
Fixpoint pushValue (c : string) (v : Q) (m : list (string * list Q)) : list (string * list Q) :=
  match m with
  | [] => [(c, [v])]
  | (k, l) :: rest =>
      if String.eqb k c then (k, (l ++ [v])%list) :: rest else (k, l) :: pushValue c v rest
  end.

Definition categoryValues (transactions : list Transaction) : list (string * list Q) :=
  fold_left (fun m t => if Qgtb 0 (amount t) then pushValue (category t) (Qabs (amount t)) m else m)
            transactions [].

(** Keys of [categoryValues] are distinct, so [set] always adds at the end. *)
Definition categoryStats (values : list (string * list Q)) : list (string * CategoryStats) :=
  fold_left (fun m e => match computeStats (snd e) with
                        | Some stats => (m ++ [(fst e, stats)])%list
                        | None => m
                        end)
            values [].

Definition flag (stats : list (string * CategoryStats)) (zThresholdModerate zThresholdSevere : Q)
    (t : Transaction) : option AnomalyResult :=
  if Qgtb 0 (amount t) then
    match lookup (category t) stats with
    | None => None
    | Some st =>
        let value := Qabs (amount t) in
        let z := {| Surd.num := value - mean st; Surd.rad := variance st |} in
        if Surd.geb z zThresholdModerate
        then Some {| transactionId := id t;
                     a_date := date t;
                     a_description := description t;
                     a_amount := amount t;
                     a_category := category t;
                     zScore := z;
                     severity := if Surd.geb z zThresholdSevere then severe else moderate |}
        else None
    end
  else None.

(** The defaults of [zThresholdModerate] and [zThresholdSevere] *)
Definition defaultModerate : Q := 2.
Definition defaultSevere : Q := 3.

Definition detectAnomalies (transactions : list Transaction)
    (zThresholdModerate zThresholdSevere : Q) : list AnomalyResult :=
  let stats := categoryStats (categoryValues transactions) in
  let anomalies := filterMap (flag stats zThresholdModerate zThresholdSevere) transactions in
  sortBy (fun a b => Surd.gtb (zScore b) (zScore a)) anomalies.

End Anomalies.

(* ================================================================== *)
(** ** domain/analytics/forecast.ts *)

Module Forecast.
Import Js Regex Utils.

Record MonthlyAggregate := { m_month : string; m_income : Q; m_expense : Q; m_savings : Q }.

(** [entry = map.get(month) || {income: 0, expense: 0}; ...; map.set(month, entry)] *)
Fixpoint addMonth (month : string) (amount : Q) (m : list (string * (Q * Q)))
    : list (string * (Q * Q)) :=
  let upd (e : Q * Q) :=
    if Qle_bool 0 amount then (fst e + amount, snd e)%Q else (fst e, snd e + Qabs amount)%Q in
  match m with
  | [] => [(month, upd (0, 0)%Q)]
  | (k, e) :: rest =>
      if String.eqb k month then (k, upd e) :: rest else (k, e) :: addMonth month amount rest
  end.

Definition aggregateMonthly (transactions : list Transaction) : list MonthlyAggregate :=
  let m := fold_left (fun m t => addMonth (take 7 (date t)) (amount t) m) transactions [] in
  map (fun e => {| m_month := fst e; m_income := fst (snd e); m_expense := snd (snd e);
                   m_savings := fst (snd e) - snd (snd e) |})
      (sortBy (fun a b => localeCompare_gt (fst a) (fst b)) m).

(** [values.slice(-window)] for an integer [window] *)
Definition sliceLast {A} (window : Z) (values : list A) : list A :=
  let len := Z.of_nat (List.length values) in
  let start := - window in
  let k := if start <? 0 then Z.max (len + start) 0 else Z.min start len in
  skipn (Z.to_nat k) values.

(** [/\d{4}-\d{2}/] *)
Definition monthPattern : list Item := [digits_ 4 4; lit "-"; digits_ 2 2].

End Forecast.

(* ================================================================== *)
(** ** domain/analytics/summarize.ts: buildAnalytics *)

Module BuildAnalytics.
Import Js JsDate Utils.

Record FullAnalyticsResult := {
  fa_summary : Summary;
  fa_monthly : list Summarize.MonthlyAggregate;
  fa_categories : list Summarize.CategorySummary;
  (** [recurring: { patterns, count }] *)
  fa_patterns : list Recurring.RecurringPattern;
  fa_count : nat
}.

(** [if (t.id != null && recurringIds.has(t.id)) t.recurring = true] *)
Definition annotate (recurringIds : list Z) (t : Transaction) : Transaction :=
  match id t with
  | Some i =>
      if existsb (Z.eqb i) recurringIds
      then {| id := id t; user_id := user_id t; date := date t;
              description := description t; amount := amount t; type := type t;
              category := category t; recurring := Some true |}
      else t
  | None => t
  end.

(** [buildAnalytics]: the transactions as the loop leaves them, and the
    result. *)
Definition buildAnalytics (h : Host) (transactions : list Transaction)
    : list Transaction * FullAnalyticsResult :=
  let detected := Recurring.detectRecurring h transactions in
  let patterns := Recurring.patterns detected in
  let annotated := map (annotate (Recurring.recurringIds detected)) transactions in
  (annotated,
   {| fa_summary := Summarize.summarize annotated;
      fa_monthly := Summarize.aggregateMonthly annotated;
      fa_categories := Summarize.aggregateCategories annotated;
      fa_patterns := patterns;
      fa_count := List.length patterns |}).

End BuildAnalytics.

(* ================================================================== *)
(** ** App.tsx: what handleConfirmStagedTransactions computes *)

Module App.
Import Js Utils Dedupe.

(** [new Set(ledger.map(t => makeTransactionKey({date, description, amount,
    category, type})))], the members in insertion order *)
Definition stagedInput (t : Transaction) : Transaction :=
  {| id := None; user_id := None; date := date t; description := description t;
     amount := amount t; type := type t; category := category t; recurring := None |}.

Definition existingKeySet (ledger : list Transaction) : list string :=
  fold_left (fun keys t => setAdd (makeTransactionKey (stagedInput t)) keys) ledger [].

(** The row that goes to [insert] *)
Record InsertRow := {
  r_user_id : string;
  r_date : string;
  r_description : string;
  r_amount : Q;
  r_category : string
}.

Inductive Confirmation :=
| Ignored
| AllDuplicates (error : string)
| Insert (rows : list InsertRow) (notice : option string).

(** The handler with a signed-in user, up to the call of [insert] and the
    message that follows its success. *)
Definition handleConfirmStagedTransactions (userId : string)
    (ledger stagedTransactions : list Transaction) : Confirmation :=
  match stagedTransactions with
  | [] => Ignored
  | _ =>
      let r := filterDuplicateStaged stagedTransactions (existingKeySet ledger) in
      match newOnes r with
      | [] =>
          AllDuplicates
            ("All " ++ decString (Z.of_nat (List.length stagedTransactions))
             ++ " staged transactions are duplicates of existing records. Nothing inserted.")
      | _ =>
          let transactionsToInsert :=
            map (fun t => {| r_user_id := userId; r_date := date t;
                             r_description := description t; r_amount := amount t;
                             r_category := category t |})
                (newOnes r) in
          Insert transactionsToInsert
                 (if (0 <? duplicateCount r)%nat
                  then Some ("Inserted "
                             ++ decString (Z.of_nat (List.length transactionsToInsert))
                             ++ " new transactions. Skipped "
                             ++ decString (Z.of_nat (duplicateCount r)) ++ " duplicates.")
                  else None)
      end
  end.

End App.

(* ================================================================== *)
(** ** Numbers as the engine holds them: binary64

    Where the rounding of the sums, quotients and square roots decides what
    a function returns, the function is embedded once more on the doubles
    of IEEE 754 ([float], with the operations of the kernel, which round to
    nearest, ties to even, as ECMA-262 asks of [+], [-], [*], [/] and
    [Math.sqrt]).  The amount of a transaction stays the exact value of its
    double. *)

Module Binary64.
Import PrimFloat FloatOps SpecFloat JsDate.

(** The double nearest to an integer: the integer itself up to [2^53] *)
Definition ofZ (n : Z) : float := SF2Prim (binary_normalize prec emax n 0 false).

(** [l.length] as a number *)
Definition ofNat (n : nat) : float := ofZ (Z.of_nat n).

(** The double of a rational [n / d]: the quotient of the doubles of [n] and
    [d].  For the value of a double it is that double, and for a decimal of
    up to fifteen digits the double that a source text denotes by it. *)
Definition double (q : Q) : float := (ofZ (Qnum q) / ofZ (Zpos (Qden q)))%float.

(** [Math.round(x)]: the integer nearest to [x], the greater one on a tie;
    [-0] for a negative [x] that rounds to zero.  A finite double is
    [v * 2^e] for its signed mantissa [v]. *)
Definition round (x : float) : float :=
  match Prim2SF x with
  | S754_finite s m e =>
      if 0 <=? e then x
      else
        let v := if s then Zneg m else Zpos m in
        let n := (2 * v + 2 ^ (- e)) / 2 ^ (1 - e) in
        if n =? 0 then (if s then neg_zero else zero) else ofZ n
  | _ => x
  end.

(** What the standards leave to the implementation, besides the [Host] of
    the dates. *)
Record Engine := {
  host : Host;
  (** [a.localeCompare(b)]: negative, zero or positive by the collation of
      the locale (ECMA-402), a consistent comparison *)
  localeCompare : string -> string -> Z;
  (** [Math.pow(x, 2)]: ECMA-262 asks for an approximation of the power and
      leaves its accuracy to the implementation *)
  pow2 : float -> float
}.

(** [l.reduce((a, b) => a + b, 0)] *)
Definition sum (l : list float) : float := fold_left add l zero.

(** The mean and the population variance, as both analytics compute them *)
Definition mean (l : list float) : float := (sum l / ofNat (List.length l))%float.
Definition variance (E : Engine) (l : list float) : float :=
  let avg := mean l in
  (fold_left (fun s v => s + pow2 E (v - avg)) l zero / ofNat (List.length l))%float.

End Binary64.

(* ================================================================== *)
(** ** domain/analytics/recurring.ts on binary64 *)

Module Recurring64.
Import PrimFloat Js JsDate Utils Binary64.

Record RecurringPattern := {
  key : string;
  count : nat;
  avgIntervalDays : float;
  lastDate : string
}.

(** [list.sort((a, b) => a.date.localeCompare(b.date))] *)
Definition sortByDate (E : Engine) : list Transaction -> list Transaction :=
  sortBy (fun a b => 0 <? localeCompare E (date a) (date b)).

(** [new Date(s).getTime()]: NaN for the invalid date *)
Definition timeOf (E : Engine) (s : string) : float :=
  match getTime (date_parse (host E) s) with
  | Some t => ofZ t
  | None => nan
  end.

(** [(curr.getTime() - prev.getTime()) / 86400000] *)
Definition dayDiff (E : Engine) (prev curr : Transaction) : float :=
  ((timeOf E (date curr) - timeOf E (date prev)) / 86400000)%float.

(** The loop over [i = 1 .. length - 1]: the positive gaps *)
Fixpoint intervalsOf (E : Engine) (lst : list Transaction) : list float :=
  match lst with
  | prev :: (curr :: _) as rest =>
      let diff := dayDiff E prev curr in
      if (0 <? diff)%float then diff :: intervalsOf E rest else intervalsOf E rest
  | _ => []
  end.

(** The body of the loop over the groups: the pattern of a group, if any *)
Definition patternOf (E : Engine) (key : string) (group : list Transaction)
    : option (RecurringPattern * list Transaction) :=
  if (List.length group <? 3)%nat then None
  else
    let lst := sortByDate E group in
    let intervals := intervalsOf E lst in
    match intervals with
    | [] => None
    | _ =>
        let avg := mean intervals in
        let variance := variance E intervals in
        let std := sqrt variance in
        let cov := if (0 <? avg)%float then (std / avg)%float else infinity in
        if (cov <? 0.5)%float
        then Some ({| key := key;
                      count := List.length lst;
                      avgIntervalDays := (round (avg * 10) / 10)%float;
                      lastDate := lastOr "" (map date lst) |}, lst)
        else None
    end.

Record Detected := { patterns : list RecurringPattern; recurringIds : list Z }.

Definition detectRecurring (E : Engine) (transactions : list Transaction) : Detected :=
  fold_left
    (fun acc g =>
       match patternOf E (fst g) (snd g) with
       | Some (p, lst) =>
           {| patterns := (patterns acc ++ [p])%list;
              recurringIds :=
                fold_left (fun ids tx => match id tx with
                                         | Some i => Recurring.setAddZ i ids
                                         | None => ids
                                         end)
                          lst (recurringIds acc) |}
       | None => acc
       end)
    (Recurring.groupByDescription transactions)
    {| patterns := []; recurringIds := [] |}.

End Recurring64.

(* ================================================================== *)
(** ** domain/analytics/anomalies.ts on binary64 *)

Module Anomalies64.
Import PrimFloat Js Utils Binary64.

Record CategoryStats := { mean : float; std : float }.

Definition computeStats (E : Engine) (values : list float) : option CategoryStats :=
  if (List.length values <? 5)%nat then None
  else
    let mean := Binary64.mean values in
    let variance := Binary64.variance E values in
    let std := sqrt variance in
    if (std =? 0)%float then None
    else Some {| mean := mean; std := std |}.

Inductive Severity := moderate | severe.

Record AnomalyResult := {
  transactionId : option Z;
  a_date : string;
  a_description : string;
  a_amount : Q;
  a_category : string;
  zScore : float;
  severity : Severity
}.

(** [list = get(c) || []; list.push(v); set(c, list)] *)
Fixpoint pushValue (c : string) (v : float) (m : list (string * list float))
    : list (string * list float) :=
  match m with
  | [] => [(c, [v])]
  | (k, l) :: rest =>
      if String.eqb k c then (k, (l ++ [v])%list) :: rest else (k, l) :: pushValue c v rest
  end.

Definition categoryValues (transactions : list Transaction) : list (string * list float) :=
  fold_left (fun m t => if (double (amount t) <? 0)%float
                        then pushValue (category t) (abs (double (amount t))) m
                        else m)
            transactions [].

(** Keys of [categoryValues] are distinct, so [set] always adds at the end. *)
Definition categoryStats (E : Engine) (values : list (string * list float))
    : list (string * CategoryStats) :=
  fold_left (fun m e => match computeStats E (snd e) with
                        | Some stats => (m ++ [(fst e, stats)])%list
                        | None => m
                        end)
            values [].

Definition flag (stats : list (string * CategoryStats)) (zThresholdModerate zThresholdSevere : float)
    (t : Transaction) : option AnomalyResult :=
  if (double (amount t) <? 0)%float then
    match lookup (category t) stats with
    | None => None
    | Some st =>
        let value := abs (double (amount t)) in
        let z := ((value - mean st) / std st)%float in
        if (zThresholdModerate <=? z)%float
        then Some {| transactionId := id t;
                     a_date := date t;
                     a_description := description t;
                     a_amount := amount t;
                     a_category := category t;
                     zScore := z;
                     severity := if (zThresholdSevere <=? z)%float then severe else moderate |}
        else None
    end
  else None.

(** The defaults of [zThresholdModerate] and [zThresholdSevere] *)
Definition defaultModerate : float := 2.
Definition defaultSevere : float := 3.

(** [anomalies.sort((a, b) => b.zScore - a.zScore)] *)
Definition detectAnomalies (E : Engine) (transactions : list Transaction)
    (zThresholdModerate zThresholdSevere : float) : list AnomalyResult :=
  let stats := categoryStats E (categoryValues transactions) in
  let anomalies := filterMap (flag stats zThresholdModerate zThresholdSevere) transactions in
  sortBy (fun a b => (0 <? zScore b - zScore a)%float) anomalies.

End Anomalies64.

(* ================================================================== *)
(** ** domain/analytics/forecast.ts on binary64 *)

Module Forecast64.
Import PrimFloat Js Regex Utils Binary64.

Record MonthlyAggregate := {
  m_month : string; m_income : float; m_expense : float; m_savings : float
}.

Record ForecastPoint := {
  month : string;
  projectedIncome : float;
  projectedExpense : float;
  projectedSavings : float;
  method : string
}.

Record ForecastResult := { points : list ForecastPoint; nextMonth : option ForecastPoint }.

(** [entry = map.get(month) || {income: 0, expense: 0}; ...; map.set(month, entry)] *)
Fixpoint addMonth (month : string) (amount : float) (m : list (string * (float * float)))
    : list (string * (float * float)) :=
  let upd (e : float * float) :=
    if (0 <=? amount)%float then ((fst e + amount)%float, snd e)
    else (fst e, (snd e + abs amount)%float) in
  match m with
  | [] => [(month, upd (zero, zero))]
  | (k, e) :: rest =>
      if String.eqb k month then (k, upd e) :: rest else (k, e) :: addMonth month amount rest
  end.

Definition aggregateMonthly (E : Engine) (transactions : list Transaction)
    : list MonthlyAggregate :=
  let m := fold_left (fun m t => addMonth (take 7 (date t)) (double (amount t)) m)
                     transactions [] in
  map (fun e => {| m_month := fst e; m_income := fst (snd e); m_expense := snd (snd e);
                   m_savings := (fst (snd e) - snd (snd e))%float |})
      (sortBy (fun a b => 0 <? localeCompare E (fst a) (fst b)) m).

Definition movingAverage (values : list float) (window : Z) : option float :=
  match values with
  | [] => None
  | _ =>
      match Forecast.sliceLast window values with
      | [] => None
      | slice => Some (sum slice / ofNat (List.length slice))%float
      end
  end.

(** [x ?? 0] *)
Definition orZero (x : option float) : float :=
  match x with
  | Some q => q
  | None => zero
  end.

Definition emptyForecast : ForecastResult := {| points := []; nextMonth := None |}.

(** The default of [window] *)
Definition defaultWindow : Z := 3.

Definition buildForecast (E : Engine) (transactions : list Transaction) (window : Z)
    : ForecastResult :=
  let monthly := aggregateMonthly E transactions in
  match monthly with
  | [] => emptyForecast
  | _ =>
      let projectedIncome := orZero (movingAverage (map m_income monthly) window) in
      let projectedExpense := orZero (movingAverage (map m_expense monthly) window) in
      let projectedSavings := (projectedIncome - projectedExpense)%float in
      let lastMonth := lastOr "" (map m_month monthly) in
      if String.eqb lastMonth "" || negb (test Forecast.monthPattern lastMonth)
      then emptyForecast
      else
        let parts := split "-" lastMonth in
        let year := parseInt (nth 0 parts "undefined") in
        let month := parseInt (nth 1 parts "undefined") in
        let nextDate :=
          if JsDate.numEq month (Some 12)
          then JsDate.numString (option_map (fun y => y + 1) year) ++ "-01"
          else JsDate.numString year ++ "-"
               ++ padStart 2 "0" (JsDate.numString (option_map (fun m => m + 1) month)) in
        let forecastPoint :=
          {| month := nextDate;
             projectedIncome := projectedIncome;
             projectedExpense := projectedExpense;
             projectedSavings := projectedSavings;
             method := "moving-average-" ++ decString window |} in
        {| points := [forecastPoint]; nextMonth := Some forecastPoint |}
  end.

End Forecast64.

(* ================================================================== *)
(** ** Concrete hosts and data for the examples *)

Module Examples.
Import Js JsDate Regex Utils.

(** An example host in the UTC time zone.  Its [new Date(s)] reads the ISO
    form [YYYY-MM-DD] of a calendar day as midnight UTC and the form
    [M/D/YYYY], month first, as local midnight, as V8 does; every other
    text is an invalid date for it. *)
Definition usOrder (s : string) : JSDate :=
  match matchWhole pattern2 s with
  | Some [p1; p2; p3] =>
      match parseInt p1, parseInt p2, parseInt p3 with
      | Some m, Some day, Some year =>
          match checked year (m - 1) day with
          | Some d => d
          | None => None
          end
      | _, _, _ => None
      end
  | _ => None
  end.

Definition isoDay (s : string) : JSDate :=
  match tryPattern1 s with
  | Some d => d
  | None => None
  end.

Definition utcHost : Host :=
  {| date_parse := fun s => match isoDay s with
                            | Some t => Some t
                            | None => usOrder s
                            end;
     local_tza := fun _ => 0;
     date_to_string := fun d => match d with
                                | Some t => "Date(" ++ decString t ++ ")"
                                | None => "Invalid Date"
                                end |}.

Definition mkTx (d s : string) (a : Q) (c : string) : Transaction :=
  {| id := None; user_id := None; date := d; description := s; amount := a;
     type := if Qgtb a 0 then Credit else Debit; category := c; recurring := None |}.

(** An example engine on that host.  Its collation is the order of the code
    units, which every collation agrees with on the texts of the examples
    (digits between the same separators), and it squares by one
    multiplication. *)
Definition engine : Binary64.Engine :=
  {| Binary64.host := utcHost;
     Binary64.localeCompare := fun a b => match String.compare a b with
                                          | Lt => -1
                                          | Eq => 0
                                          | Gt => 1
                                          end;
     Binary64.pow2 := fun x => PrimFloat.mul x x |}.

End Examples.

(* ================================================================== *)
(** ** The vocabulary of the statements

    What the theorems below speak of: the lookups that follow a fold
    through its steps, the texts of a calendar day, the sums that the
    aggregations are compared with, and the data of the examples. *)

Import Js JsDate Regex Utils.
Import Dedupe Summarize Forecast Recurring Anomalies.
Import Floats.PrimFloat.

(** ** The calendar *)

Definition daysInMonth (y m : Z) : Z :=
  monthStart (leapDay y) m - monthStart (leapDay y) (m - 1).

(** ** getCategory *)

Definition isSubstring (sub s : string) : Prop :=
  exists pre post, s = pre ++ sub ++ post.

(** The labels found, starting from a set [found]. *)
Definition collect (desc : string) (table : list (string * string)) (found : list string) :=
  fold_left (fun found e =>
               if includes desc (toUpperCase (fst e)) then setAdd (snd e) found else found)
            table found.

Definition leS (a b : string) : Prop := String.leb a b = true.

(** ** dedupe *)

Definition staged_base : Transaction :=
  {| id := None; user_id := None; date := "2025-03-01"; description := "Test Item";
     amount := 123456 # 1000; type := Debit; category := "OTHER"; recurring := None |}.

Definition staged_other : Transaction :=
  {| id := None; user_id := None; date := "2025-03-01"; description := "Test Item";
     amount := 50; type := Debit; category := "OTHER"; recurring := None |}.

(** ** aggregateCategories *)

Definition keysOf (m : list CategorySummary) : list string := map cs_category m.

Fixpoint expenseAt (c : string) (m : list CategorySummary) : Q :=
  match m with
  | [] => 0%Q
  | e :: rest => if String.eqb (cs_category e) c then expense e else expenseAt c rest
  end.

Fixpoint incomeAt (c : string) (m : list CategorySummary) : Q :=
  match m with
  | [] => 0%Q
  | e :: rest => if String.eqb (cs_category e) c then income e else incomeAt c rest
  end.

Definition expenseOf (t : Transaction) : Q :=
  match type t with Debit => Qabs (amount t) | Credit => 0%Q end.

Definition incomeOf (t : Transaction) : Q :=
  match type t with Credit => amount t | Debit => 0%Q end.

Definition occurrences (c : string) (labels : list string) : Q :=
  inject_Z (Z.of_nat (count_occ string_dec labels c)).

Definition addLabels (t : Transaction) (labels : list string) (m : list CategorySummary) :=
  fold_left (fun m' c => accumulate t c m') labels m.

Definition addAll (transactions : list Transaction) (m : list CategorySummary) :=
  fold_left (fun m t => addLabels t (labelsOf t) m) transactions m.

(** The sum of [f] over the transactions *)
Fixpoint total (f : Transaction -> Q) (transactions : list Transaction) : Q :=
  match transactions with
  | [] => 0%Q
  | t :: rest => (f t + total f rest)%Q
  end.

Definition combined : Transaction :=
  {| id := None; user_id := None; date := "2025-02-15"; description := "Combined Expense";
     amount := -1000; type := Debit; category := "FOOD-GROCERY SHOPPING"; recurring := None |}.

(** ** buildForecast *)

(** Four digits, a hyphen, two digits *)
Definition isMonthKey (s : string) : bool :=
  match s with
  | String a (String b (String c (String d (String e (String f (String g EmptyString)))))) =>
      isDigit a && isDigit b && isDigit c && isDigit d && Ascii.eqb "-" e
      && isDigit f && isDigit g
  | _ => false
  end.

(** ** aggregateMonthly *)

Definition monthsOf (transactions : list Transaction) (m : list (string * (Q * Q))) :=
  fold_left (fun m t => addMonth (take 7 (date t)) (amount t) m) transactions m.

(** The last [k] elements, all of them if there are fewer *)
Definition trailing {A} (k : nat) (l : list A) : list A := skipn (List.length l - k) l.

(** The month after month [m] of year [y] *)
Definition nextCalendarMonth (y m : Z) : Z * Z :=
  if m =? 12 then (y + 1, 1) else (y, m + 1).

Definition example_series : list Transaction :=
  [Examples.mkTx "2025-01-05" "Salary January" 100000 "SALARY";
   Examples.mkTx "2025-01-20" "Rent" (-50000) "RENT";
   Examples.mkTx "2025-02-05" "Salary February" 120000 "SALARY";
   Examples.mkTx "2025-02-20" "Rent" (-60000) "RENT"].

(** ** The matcher on a text of known shape *)

Definition startsIn (cl : CharClass) (s : string) : bool :=
  match s with
  | EmptyString => false
  | String c _ => inClass cl c
  end.

Definition twoDigits (n : Z) : string := padStart 2 "0" (decString n).

Definition optZ_eqb (a : option Z) (b : Z) : bool :=
  match a with Some x => x =? b | None => false end.

(** What the parser needs of a group of digits *)
Definition digitGroup (lo hi : nat) (n : Z) (s : string) : bool :=
  allChars isDigit s && (lo <=? String.length s)%nat && (String.length s <=? hi)%nat
  && optZ_eqb (parseInt s) n.

(** ** Trimming *)

Definition noSpace (c : ascii) : bool := negb (isSpace c).

(** ** The calendar days of the claim and their texts *)

Definition monthNames : list string :=
  ["jan"; "feb"; "mar"; "apr"; "may"; "jun"; "jul"; "aug"; "sep"; "oct"; "nov"; "dec"].

(** A day or month number as text: plain or padded to two digits *)
Definition numeral (n : Z) (s : string) : Prop := s = decString n \/ s = twoDigits n.

Definition fourDigits (n : Z) : string := padStart 4 "0" (decString n).

(** A year as text: four digits, or its last two digits for 2000 to 2099 *)
Definition yearText (y : Z) (s : string) : Prop :=
  s = fourDigits y \/ (2000 <= y <= 2099 /\ s = twoDigits (y - 2000)).

(** The English abbreviation of month [m], in any mix of cases *)
Definition monthAbbrev (m : Z) (s : string) : Prop :=
  toLowerCase s = nth (Z.to_nat (m - 1)) monthNames "".

Inductive represents (y m d : Z) : string -> Prop :=
| rep_iso ms ds :
    numeral m ms -> numeral d ds ->
    represents y m d (fourDigits y ++ "-" ++ ms ++ "-" ++ ds)
| rep_slash ds ms ys :
    numeral d ds -> numeral m ms -> yearText y ys ->
    represents y m d (ds ++ "/" ++ ms ++ "/" ++ ys)
| rep_named ds mon ys :
    numeral d ds -> monthAbbrev m mon -> yearText y ys ->
    represents y m d (ds ++ "-" ++ mon ++ "-" ++ ys).

(** The time value of midnight UTC of a calendar day *)
Definition midnightOf (y m d : Z) : JSDate := Some (MakeDay y (m - 1) d * msPerDay).

Definition validDay (y m d : Z) : Prop :=
  1 <= m <= 12 /\ 1 <= d <= daysInMonth y m.

(** The zero-padded [YYYY-MM-DD] *)
Definition canonical (y m d : Z) : string :=
  fourDigits y ++ "-" ++ twoDigits m ++ "-" ++ twoDigits d.

(** ** Quotients by a square root *)

(** The real number that a quotient stands for *)
Definition valueR (z : Surd.Quot) : R := (Q2R (Surd.num z) / R_sqrt.sqrt (Q2R (Surd.rad z)))%R.

(** ** detectRecurring *)

(** The transactions of a normalized description, in ledger order *)
Definition members (transactions : list Transaction) (k : string) : list Transaction :=
  filter (fun t => String.eqb (normalizeDescription (description t)) k) transactions.

Fixpoint groupAt (k : string) (groups : list (string * list Transaction)) : list Transaction :=
  match groups with
  | [] => []
  | (k0, l) :: rest => if String.eqb k0 k then l else groupAt k rest
  end.

Definition groupsFrom (transactions : list Transaction) (g : list (string * list Transaction)) :=
  fold_left (fun groups t => groupPush (normalizeDescription (description t)) t groups)
            transactions g.

(** ** detectAnomalies *)

(** The expense observations of a category: the absolute amounts of its
    transactions with a negative amount, in ledger order *)
Definition observations (transactions : list Transaction) (c : string) : list Q :=
  map (fun t => Qabs (amount t))
      (filter (fun t => Qgtb 0 (amount t) && String.eqb (category t) c) transactions).

Fixpoint valuesAt (c : string) (m : list (string * list Q)) : list Q :=
  match m with
  | [] => []
  | (k, l) :: rest => if String.eqb k c then l else valuesAt c rest
  end.

Definition valuesFrom (transactions : list Transaction) (m : list (string * list Q)) :=
  fold_left (fun m t => if Qgtb 0 (amount t) then pushValue (category t) (Qabs (amount t)) m else m)
            transactions m.

Definition statsFrom (values : list (string * list Q)) (m : list (string * CategoryStats)) :=
  fold_left (fun m e => match computeStats (snd e) with
                        | Some stats => (m ++ [(fst e, stats)])%list
                        | None => m
                        end)
            values m.

(** The z-score of a transaction within the expense observations of its category *)
Definition zOf (transactions : list Transaction) (t : Transaction) : Surd.Quot :=
  let obs := observations transactions (category t) in
  {| Surd.num := Qabs (amount t) - Js.mean obs; Surd.rad := Js.variance obs |}.

Definition anomalyOf (transactions : list Transaction) (zThresholdSevere : Q)
    (t : Transaction) : AnomalyResult :=
  {| transactionId := id t;
     a_date := date t;
     a_description := description t;
     a_amount := amount t;
     a_category := category t;
     zScore := zOf transactions t;
     severity := if Surd.geb (zOf transactions t) zThresholdSevere then severe else moderate |}.

(** A transaction that has to be flagged: an expense in a category with
    enough observations that are not all equal, at or above the threshold *)
Definition flagged (transactions : list Transaction) (zThresholdModerate : Q)
    (t : Transaction) : Prop :=
  (amount t < 0)%Q /\
  (5 <= List.length (observations transactions (category t)))%nat /\
  ~ (Js.variance (observations transactions (category t)) == 0)%Q /\
  (Q2R zThresholdModerate <= valueR (zOf transactions t))%R.

(** ** Two decimals *)

(** The integer that [toFixed(2)] prints: the nearest to [100 x], upwards on a tie *)
Definition cents (x : Q) : Z := Qfloor (x * 100 + (1 # 2)).

(** Texts of ASCII characters: the code units below 128, on which the case
    mappings and the white space of the embedding are those of ECMAScript *)
Definition isAscii (s : string) : bool := allChars (fun c => code c <? 128) s.

(** White space only *)
Definition blank (s : string) : bool := allChars isSpace s.

Fixpoint lastChar (c : ascii) (s : string) : ascii :=
  match s with
  | EmptyString => c
  | String c' r => lastChar c' r
  end.

(** No white space at the first and at the last character *)
Definition edged (s : string) : bool :=
  match s with
  | EmptyString => true
  | String c r => negb (isSpace c) && negb (isSpace (lastChar c r))
  end.

(** A staged transaction with white space around its date and description *)
Definition staged_padded : Transaction :=
  {| id := None; user_id := None; date := "  2025-03-01 ";
     description := String "009" " Test Item  ";
     amount := 123456 # 1000; type := Debit; category := "OTHER"; recurring := None |}.

(** ** The monthly totals of the forecast *)

Fixpoint monthAt (k : string) (m : list (string * (Q * Q))) : Q * Q :=
  match m with
  | [] => (0, 0)%Q
  | (k0, e) :: rest => if String.eqb k0 k then e else monthAt k rest
  end.

(** What a transaction adds to the income and to the expense of its month *)
Definition incomePart (t : Transaction) : Q :=
  if Qle_bool 0 (amount t) then amount t else 0%Q.

Definition expensePart (t : Transaction) : Q :=
  if Qle_bool 0 (amount t) then 0%Q else Qabs (amount t).

(** The sum of [f] over the transactions of month [k] *)
Definition monthTotal (f : Transaction -> Q) (k : string) (transactions : list Transaction) : Q :=
  total (fun t => if String.eqb (take 7 (date t)) k then f t else 0%Q) transactions.

(** ** The order of canonical dates *)

(** The order of the fields: year, then month, then day *)
Definition compareFields (a b : Z * Z * Z) : comparison :=
  match a, b with
  | (y1, m1, d1), (y2, m2, d2) =>
      match y1 ?= y2 with
      | Eq => match m1 ?= m2 with
              | Eq => d1 ?= d2
              | c => c
              end
      | c => c
      end
  end.

(** The day number of a calendar day *)
Definition dayNumber (ymd : Z * Z * Z) : Z :=
  match ymd with (y, m, d) => MakeDay y (m - 1) d end.

(** A canonical date and the number of its day *)
Definition civilDay (s : string) (n : Z) : Prop :=
  exists y m d, 1000 <= y <= 9999 /\ validDay y m d /\
                s = canonical y m d /\ n = dayNumber (y, m, d).

(** A host that reads a canonical date as midnight UTC of its day, as
    ECMA-262 prescribes for the date-only ISO form *)
Definition readsIsoDates (h : Host) : Prop :=
  forall s n, civilDay s n -> date_parse h s = Some (n * msPerDay).

(** ** Example data *)

Definition statement : list (list JsVal) :=
  [ [VStr "HDFC BANK Ltd."];
    [];
    [VStr "Statement of accounts"];
    [VStr "Date"; VStr "Narration"; VStr "Withdrawal Amt."; VStr "Deposit Amt."];
    [VStr "01/03/2025"; VStr "ATM WDL"; VStr "5000"; VStr ""] ].

Definition keywords : list (string * string) :=
  [("swiggy", "FOOD"); ("bigbasket", "GROCERY SHOPPING"); ("atm", "CASH")].

Definition withdrawal : Transaction :=
  {| id := None; user_id := None; date := "2025-03-01"; description := "ATM WDL";
     amount := -5000; type := Debit; category := "CASH"; recurring := None |}.

Definition subscription : list Transaction :=
  [Examples.mkTx "2025-01-05" "NETFLIX.COM" (-649) "ENTERTAINMENT";
   Examples.mkTx "2025-02-05" "Netflix.com" (-649) "ENTERTAINMENT";
   Examples.mkTx "2025-03-05" "netflix com" (-649) "ENTERTAINMENT";
   Examples.mkTx "2025-03-09" "Groceries" (-1200) "GROCERY SHOPPING"].

Definition foodTotal : Summarize.CategorySummary :=
  {| Summarize.cs_category := "FOOD"; Summarize.expense := 0 + Qabs (-1000);
     Summarize.income := 0 |}.

(** ** parseDate: what it returns *)

(** A time value that is midnight UTC of a day outside the years 0 to 99 *)
Definition utcMidnight (t : Z) : Prop :=
  exists n, t = n * msPerDay /\ Z.abs t <= 8640000000000000 /\
            ~ (0 <= YearFromDay n <= 99).

(** A host five and a half hours ahead of UTC *)
Definition istHost : Host :=
  {| date_parse := date_parse Examples.utcHost;
     local_tza := fun _ => 19800000;
     date_to_string := date_to_string Examples.utcHost |}.

(** ** processXlsData: the rows around the header *)

(** A row that names both the date and the narration *)
Definition isHeaderRow (h : Host) (r : list JsVal) : bool :=
  memStr "date" (headerCells h r) && memStr "narration" (headerCells h r).

Definition headerRow : list JsVal :=
  [VStr "Date"; VStr "Narration"; VStr "Withdrawal Amt."; VStr "Deposit Amt."].

Definition salary : Transaction :=
  {| id := None; user_id := None; date := "2025-03-02"; description := "Salary";
     amount := 100000; type := Credit; category := "Other"; recurring := None |}.

(** A refund booked as a debit with a positive amount: the two summaries
    part. *)
Definition refunded : list Transaction :=
  [ {| id := Some 1; user_id := None; date := "2025-04-01"; description := "Shoes";
       amount := -3000; type := Debit; category := "SHOPPING"; recurring := None |};
    {| id := Some 2; user_id := None; date := "2025-04-03"; description := "Shoes returned";
       amount := 3000; type := Debit; category := "SHOPPING"; recurring := None |} ].

(** ** aggregateMonthly of summarize.ts *)

(** Four digits, a hyphen, two digits, a hyphen, two digits *)
Definition isDateText (s : string) : bool :=
  match s with
  | String a (String b (String c (String d (String e (String f (String g
      (String i (String j (String k EmptyString))))))))) =>
      isDigit a && isDigit b && isDigit c && isDigit d && Ascii.eqb "-" e
      && isDigit f && isDigit g && Ascii.eqb "-" i && isDigit j && isDigit k
  | _ => false
  end.

(** The income and the expense of the entry of a month, zero without one *)
Fixpoint entryAt (k : string) (m : list Summarize.MonthlyAggregate) : Q * Q :=
  match m with
  | [] => (0, 0)%Q
  | e :: rest => if String.eqb (ma_monthKey e) k then (ma_income e, ma_expense e)
                 else entryAt k rest
  end.

Definition monthsFrom (transactions : list Transaction) (m : list Summarize.MonthlyAggregate) :=
  fold_left (fun m t => if validDate (date t) then accumulateMonth t (take 7 (date t)) m
                        else m)
            transactions m.

(** The sum of [f] over the transactions with a date of the form
    [YYYY-MM-DD] in month [k] *)
Definition datedTotal (f : Transaction -> Q) (k : string) (transactions : list Transaction) : Q :=
  total (fun t => if validDate (date t) && String.eqb (take 7 (date t)) k then f t else 0%Q)
        transactions.

(** The entries before the savings are filled in *)
Definition sortedMonths (transactions : list Transaction) : list Summarize.MonthlyAggregate :=
  sortBy (fun a b => localeCompare_gt (ma_monthKey a) (ma_monthKey b))
         (monthsFrom transactions []).

Definition fillSavings (e : Summarize.MonthlyAggregate) : Summarize.MonthlyAggregate :=
  {| ma_monthKey := ma_monthKey e; ma_income := ma_income e; ma_expense := ma_expense e;
     ma_savings := (ma_income e - ma_expense e)%Q |}.

(** The ledger of summarize.test.ts *)
Definition sample : list Transaction :=
  [ {| id := None; user_id := None; date := "2025-01-05"; description := "Salary January";
       amount := 100000; type := Credit; category := "SALARY"; recurring := None |};
    {| id := None; user_id := None; date := "2025-01-10"; description := "Groceries";
       amount := -3500; type := Debit; category := "GROCERY SHOPPING"; recurring := None |};
    {| id := None; user_id := None; date := "2025-02-02"; description := "Salary Feb";
       amount := 100000; type := Credit; category := "SALARY"; recurring := None |};
    {| id := None; user_id := None; date := "2025-02-11"; description := "Restaurant";
       amount := -4200; type := Debit; category := "FOOD"; recurring := None |};
    combined ].

(** The loop that adds the ids of a list to the set *)
Definition addIds (lst : list Transaction) (ids : list Z) : list Z :=
  fold_left (fun ids tx => match id tx with
                           | Some i => setAddZ i ids
                           | None => ids
                           end)
            lst ids.

(** ** normalizeDescription *)

(** A lower-case letter, a digit or the space *)
Definition plainChar (c : ascii) : bool := isLower c || isDigit c || Ascii.eqb c " ".

(** No space after a space, nor at the start when [prev] holds *)
Fixpoint spaced (prev : bool) (s : string) : bool :=
  match s with
  | EmptyString => true
  | String c s' => if isSpace c then negb prev && spaced true s' else spaced false s'
  end.

Definition keepPlain (c : ascii) : ascii :=
  if isLower c || isDigit c || isSpace c then c else " "%char.

(** ** detectAnomalies: what does not count *)

Definition isExpense (t : Transaction) : bool := Qgtb 0 (amount t).

(** ** Keys that are equal *)

Definition noBar (c : ascii) : bool := negb (Ascii.eqb c "|").

Definition toInsertRow (userId : string) (t : Transaction) : App.InsertRow :=
  {| App.r_user_id := userId; App.r_date := date t; App.r_description := description t;
     App.r_amount := amount t; App.r_category := category t |}.

(** The subscription of the ledger, as rows of the database with their ids *)
Definition billed : list Transaction :=
  [ {| id := Some 1; user_id := None; date := "2025-01-05"; description := "NETFLIX.COM";
       amount := -649; type := Debit; category := "ENTERTAINMENT"; recurring := None |};
    {| id := Some 2; user_id := None; date := "2025-02-05"; description := "Netflix.com";
       amount := -649; type := Debit; category := "ENTERTAINMENT"; recurring := None |};
    {| id := Some 3; user_id := None; date := "2025-03-05"; description := "netflix com";
       amount := -649; type := Debit; category := "ENTERTAINMENT"; recurring := None |};
    {| id := Some 4; user_id := None; date := "2025-03-09"; description := "Groceries";
       amount := -1200; type := Debit; category := "GROCERY SHOPPING"; recurring := None |} ].

(** ** detectAnomalies on binary64 *)

(** An expense: a transaction whose amount is negative *)
Definition isExpense64 (t : Transaction) : bool := (Binary64.double (amount t) <? 0)%float.

(** The expense observations of a category: the absolute amounts of its
    expenses, in ledger order *)
Definition observations64 (transactions : list Transaction) (c : string) : list float :=
  map (fun t => abs (Binary64.double (amount t)))
      (filter (fun t => isExpense64 t && String.eqb (category t) c) transactions).

(** The population standard deviation, in doubles *)
Definition std64 (E : Binary64.Engine) (values : list float) : float := sqrt (Binary64.variance E values).

(** The z-score of a transaction within the expense observations of its
    category: the absolute amount less the mean, over the standard deviation *)
Definition zOf64 (E : Binary64.Engine) (transactions : list Transaction) (t : Transaction) : float :=
  let obs := observations64 transactions (category t) in
  ((abs (Binary64.double (amount t)) - Binary64.mean obs) / std64 E obs)%float.

Definition anomalyOf64 (E : Binary64.Engine) (transactions : list Transaction) (zThresholdSevere : float)
    (t : Transaction) : Anomalies64.AnomalyResult :=
  {| Anomalies64.transactionId := id t;
     Anomalies64.a_date := date t;
     Anomalies64.a_description := description t;
     Anomalies64.a_amount := amount t;
     Anomalies64.a_category := category t;
     Anomalies64.zScore := zOf64 E transactions t;
     Anomalies64.severity :=
       if (zThresholdSevere <=? zOf64 E transactions t)%float
       then Anomalies64.severe else Anomalies64.moderate |}.

(** A transaction that is flagged: an expense in a category with five
    observations or more, whose standard deviation as computed is not zero,
    with a z-score at or above the threshold *)
Definition flagged64 (E : Binary64.Engine) (transactions : list Transaction)
    (zThresholdModerate : float) (t : Transaction) : Prop :=
  isExpense64 t = true /\
  (5 <= List.length (observations64 transactions (category t)))%nat /\
  (std64 E (observations64 transactions (category t)) =? 0)%float = false /\
  (zThresholdModerate <=? zOf64 E transactions t)%float = true.

Fixpoint valuesAt64 (c : string) (m : list (string * list float)) : list float :=
  match m with
  | [] => []
  | (k, l) :: rest => if String.eqb k c then l else valuesAt64 c rest
  end.

Definition valuesFrom64 (transactions : list Transaction) (m : list (string * list float)) :=
  fold_left (fun m t => if (Binary64.double (amount t) <? 0)%float
                        then Anomalies64.pushValue (category t) (abs (Binary64.double (amount t))) m
                        else m)
            transactions m.

Definition statsFrom64 (E : Binary64.Engine) (values : list (string * list float))
    (m : list (string * Anomalies64.CategoryStats)) :=
  fold_left (fun m e => match Anomalies64.computeStats E (snd e) with
                        | Some stats => (m ++ [(fst e, stats)])%list
                        | None => m
                        end)
            values m.

(** Ten expenses of 0.10 in one category *)
Definition tenths : list Transaction :=
  repeat (Examples.mkTx "2025-04-01" "Tea" (- (1 # 10)) "FOOD") 10.

(** Four expenses of 1 and one of 289 in one category *)
Definition oneFar : list Transaction :=
  map (fun a => Examples.mkTx "2025-04-01" "Dinner" a "FOOD") [-1; -1; -1; -1; -289]%Q.

(** ** detectRecurring on binary64 *)

(** Days in chronological order *)
Definition chronological (days : list Z) : list Z := sortBy (fun a b => b <? a) days.

(** The gap in days from day [a] to day [b]: the difference of their time
    values over the milliseconds of a day, in doubles *)
Definition dayGap (a b : Z) : float :=
  ((Binary64.ofZ (b * msPerDay) - Binary64.ofZ (a * msPerDay)) / 86400000)%float.

(** The positive gaps between successive days *)
Fixpoint positiveGaps (days : list Z) : list float :=
  match days with
  | a :: (b :: _) as rest =>
      if (0 <? dayGap a b)%float then dayGap a b :: positiveGaps rest else positiveGaps rest
  | _ => []
  end.

(** The coefficient of variation: the population standard deviation over
    the mean, infinite when the mean is not positive *)
Definition cov (E : Binary64.Engine) (gaps : list float) : float :=
  if (0 <? Binary64.mean gaps)%float then (sqrt (Binary64.variance E gaps) / Binary64.mean gaps)%float else infinity.

(** A collation under which canonical dates stand in chronological order *)
Definition collatesDates (E : Binary64.Engine) : Prop :=
  forall a b na nb, civilDay a na -> civilDay b nb ->
                    (0 <? Binary64.localeCompare E a b) = (nb <? na).

(** The dates of the transactions are canonical dates of the days *)
Definition datedOn (l : list Transaction) (days : list Z) : Prop :=
  Forall2 (fun t n => civilDay (date t) n) l days.

(** A group that the detector accepts *)
Definition regular (E : Binary64.Engine) (group : list Transaction) : bool :=
  negb (List.length group <? 3)%nat &&
  match Recurring64.intervalsOf E (Recurring64.sortByDate E group) with
  | [] => false
  | gaps => (cov E gaps <? 0.5)%float
  end.

(** The pattern of an accepted group *)
Definition patternFor (E : Binary64.Engine) (k : string) (group : list Transaction)
    : Recurring64.RecurringPattern :=
  let lst := Recurring64.sortByDate E group in
  {| Recurring64.key := k;
     Recurring64.count := List.length lst;
     Recurring64.avgIntervalDays :=
       (Binary64.round (Binary64.mean (Recurring64.intervalsOf E lst) * 10) / 10)%float;
     Recurring64.lastDate := lastOr "" (map date lst) |}.

Definition step64 (E : Binary64.Engine) (acc : Recurring64.Detected) (g : string * list Transaction)
    : Recurring64.Detected :=
  match Recurring64.patternOf E (fst g) (snd g) with
  | Some (p, lst) =>
      {| Recurring64.patterns := (Recurring64.patterns acc ++ [p])%list;
         Recurring64.recurringIds :=
           fold_left (fun ids tx => match id tx with
                                    | Some i => Recurring.setAddZ i ids
                                    | None => ids
                                    end)
                     lst (Recurring64.recurringIds acc) |}
  | None => acc
  end.

(** Six payments with gaps of 1, 8, 9, 13 and 13 days *)
Definition halfway : list Transaction :=
  [Examples.mkTx "2025-01-01" "Gym" (-500) "HEALTH";
   Examples.mkTx "2025-01-02" "Gym" (-500) "HEALTH";
   Examples.mkTx "2025-01-10" "Gym" (-500) "HEALTH";
   Examples.mkTx "2025-01-19" "Gym" (-500) "HEALTH";
   Examples.mkTx "2025-02-01" "Gym" (-500) "HEALTH";
   Examples.mkTx "2025-02-14" "Gym" (-500) "HEALTH"].

Definition halfwayGaps : list Q := [1; 8; 9; 13; 13]%Q.

(** Three payments dated month first, as no canonical date is: 1 September,
    1 October and 2 October 2025 *)
Definition slashDated : list Transaction :=
  [Examples.mkTx "9/1/2025" "Rent" (-9000) "HOUSING";
   Examples.mkTx "10/1/2025" "Rent" (-9000) "HOUSING";
   Examples.mkTx "10/2/2025" "Rent" (-9000) "HOUSING"].

(** The latest of the days *)
Definition latest (days : list Z) : Z := lastOr 0 (chronological days).

(** ** movingAverage and buildForecast on binary64 *)

(** The values of the window: the last [window] values, all of them when
    there are fewer or when [window] is 0; for a negative [window] the
    values left when [- window] are dropped from the start *)
Definition windowOf {A} (window : Z) (values : list A) : list A :=
  if 1 <=? window then trailing (Z.to_nat window) values
  else if window =? 0 then values
  else skipn (Z.to_nat (- window)) values.

(** The mean of the window, and zero for a window without values *)
Definition projection (window : Z) (values : list float) : float :=
  match windowOf window values with
  | [] => zero
  | slice => Binary64.mean slice
  end.

(** The month key of a date *)
Definition monthOf (t : Transaction) : string := take 7 (date t).

(** The latest observed month: a month key of the ledger that the collation
    puts after every other month key of the ledger *)
Definition isLatest64 (E : Binary64.Engine) (transactions : list Transaction) (k : string) : Prop :=
  (exists t, In t transactions /\ monthOf t = k) /\
  (forall t, In t transactions -> monthOf t <> k ->
             Binary64.localeCompare E (monthOf t) k <= 0 /\ 0 < Binary64.localeCompare E k (monthOf t)).

(** The key that [buildForecast] makes of year [y] and month [m] *)
Definition followingKey (y m : Z) : string :=
  if m =? 12 then decString (y + 1) ++ "-01"
  else decString y ++ "-" ++ padStart 2 "0" (decString (m + 1)).

(** The incomes and the expenses of a month, in ledger order *)
Definition incomesOf (k : string) (transactions : list Transaction) : list float :=
  map (fun t => Binary64.double (amount t))
      (filter (fun t => String.eqb (monthOf t) k && (0 <=? Binary64.double (amount t))%float)
              transactions).

Definition expensesOf (k : string) (transactions : list Transaction) : list float :=
  map (fun t => abs (Binary64.double (amount t)))
      (filter (fun t => String.eqb (monthOf t) k && negb (0 <=? Binary64.double (amount t))%float)
              transactions).

(** ** aggregateMonthly of forecast.ts on binary64 *)

Definition monthsOf64 (transactions : list Transaction) (m : list (string * (float * float))) :=
  fold_left (fun m t => Forecast64.addMonth (monthOf t) (Binary64.double (amount t)) m) transactions m.

Fixpoint monthAt64 (k : string) (m : list (string * (float * float))) : float * float :=
  match m with
  | [] => (zero, zero)
  | (k0, e) :: rest => if String.eqb k0 k then e else monthAt64 k rest
  end.

(** What [addMonth] does to the entry of a month *)
Definition upd64 (a : float) (e : float * float) : float * float :=
  if (0 <=? a)%float then ((fst e + a)%float, snd e) else (fst e, (snd e + abs a)%float).

(** One transaction, dated in a month 13 *)
Definition thirteenth : list Transaction :=
  [Examples.mkTx "2025-13-01" "Fee" (-10) "OTHER"].

(* ================================================================== *)
(** ** The calendar *)

Lemma DaysInYear_cases y : DaysInYear y = 365 \/ DaysInYear y = 366.
Proof. unfold DaysInYear. destruct (isLeapYear y); auto. Qed.

Lemma isLeapYear_true y :
  isLeapYear y = true <-> y mod 4 = 0 /\ (y mod 100 <> 0 \/ y mod 400 = 0).
Proof.
  unfold isLeapYear.
  rewrite andb_true_iff, orb_true_iff, negb_true_iff, !Z.eqb_eq, Z.eqb_neq. tauto.
Qed.

Lemma DayFromYear_succ y : DayFromYear (y + 1) = DayFromYear y + DaysInYear y.
Proof.
  unfold DayFromYear, DaysInYear.
  destruct (isLeapYear y) eqn:E.
  - apply isLeapYear_true in E.
    Z.div_mod_to_equations. lia.
  - assert (H : ~ (y mod 4 = 0 /\ (y mod 100 <> 0 \/ y mod 400 = 0))).
    { rewrite <- isLeapYear_true. congruence. }
    Z.div_mod_to_equations. lia.
Qed.

Lemma DayFromYear_mono a b : a <= b -> DayFromYear a <= DayFromYear b.
Proof.
  intros H. unfold DayFromYear. Z.div_mod_to_equations. lia.
Qed.

Lemma YearFromDay_unique y d :
  DayFromYear y <= d < DayFromYear (y + 1) -> YearFromDay d = y.
Proof.
  intros H. unfold YearFromDay.
  set (y0 := 1970 + 400 * d / 146097).
  assert (Hy : y - 1 <= y0 <= y + 1).
  { subst y0. pose proof (DayFromYear_succ y) as S1. pose proof (DaysInYear_cases y).
    unfold DayFromYear in *. Z.div_mod_to_equations. lia. }
  destruct (Z.ltb_spec d (DayFromYear y0)).
  - assert (y0 = y + 1).
    { destruct (Z.eq_dec y0 (y+1)); auto.
      assert (y0 <= y) by lia. pose proof (DayFromYear_mono y0 y). lia. }
    lia.
  - destruct (Z.leb_spec (DayFromYear (y0 + 1)) d).
    + assert (y0 = y - 1).
      { destruct (Z.eq_dec y0 (y-1)); auto.
        assert (y + 1 <= y0 + 1) by lia. pose proof (DayFromYear_mono (y+1) (y0+1)). lia. }
      lia.
    + destruct (Z.eq_dec y0 y); auto.
      assert (y0 = y - 1 \/ y0 = y + 1) as [E|E] by lia.
      * subst y0. rewrite E in *. replace (y - 1 + 1) with y in * by lia. lia.
      * rewrite E in *. lia.
Qed.

Lemma leapDay_cases y : leapDay y = 0 \/ leapDay y = 1.
Proof. unfold leapDay. destruct (isLeapYear y); auto. Qed.

Lemma DaysInYear_leapDay y : DaysInYear y = 365 + leapDay y.
Proof. unfold DaysInYear, leapDay. destruct (isLeapYear y); reflexivity. Qed.

Ltac month_cases m :=
  assert (m = 0 \/ m = 1 \/ m = 2 \/ m = 3 \/ m = 4 \/ m = 5 \/ m = 6 \/ m = 7
          \/ m = 8 \/ m = 9 \/ m = 10 \/ m = 11) as Hcases by lia;
  repeat (destruct Hcases as [Hcases | Hcases]); subst m.

Lemma MakeDay_fields y m d :
  0 <= m <= 11 -> 1 <= d <= daysInMonth y (m + 1) ->
  YearFromDay (MakeDay y m d) = y /\
  MonthFromDay (MakeDay y m d) = m /\
  DateFromDay (MakeDay y m d) = d.
Proof.
  intros Hm Hd.
  assert (Hdiv : m / 12 = 0) by (apply Z.div_small; lia).
  assert (Hmod : m mod 12 = m) by (apply Z.mod_small; lia).
  unfold daysInMonth in Hd. replace (m + 1 - 1) with m in Hd by lia.
  assert (HY : YearFromDay (MakeDay y m d) = y).
  { apply YearFromDay_unique. rewrite DayFromYear_succ, DaysInYear_leapDay.
    unfold MakeDay. rewrite Hdiv, Hmod, Z.add_0_r.
    destruct (leapDay_cases y) as [L|L]; rewrite L in *;
      month_cases m; cbn in Hd |- *; lia. }
  assert (HW : DayWithinYear (MakeDay y m d) = monthStart (leapDay y) m + d - 1).
  { unfold DayWithinYear. rewrite HY. unfold MakeDay. rewrite Hdiv, Hmod, Z.add_0_r. lia. }
  assert (HM : MonthFromDay (MakeDay y m d) = m).
  { unfold MonthFromDay. rewrite HW, HY.
    destruct (leapDay_cases y) as [L|L]; rewrite L in *;
      month_cases m; cbn in Hd; cbn [monthStart];
      repeat match goal with
             | |- context [?a <? ?b] => destruct (Z.ltb_spec a b); try lia
             end. }
  split; [exact HY|]. split; [exact HM|].
  unfold DateFromDay. rewrite HW, HY, HM. lia.
Qed.

Lemma Day_of_days n : Day (n * msPerDay) = n.
Proof. unfold Day, msPerDay. apply Z.div_mul. lia. Qed.

Lemma DayFromYear_bounds y :
  1000 <= y <= 9999 -> -354286 <= DayFromYear y /\ DayFromYear (y + 1) <= 2932897.
Proof.
  intros H. unfold DayFromYear. Z.div_mod_to_equations. lia.
Qed.

(** A calendar day that [checked] accepts: the year is not one that
    [Date.UTC] moves into the 1900s, and the time value is in range. *)
Lemma checked_valid y m d :
  1000 <= y <= 9999 -> 0 <= m <= 11 -> 1 <= d <= daysInMonth y (m + 1) ->
  checked y m d = Some (Some (MakeDay y m d * msPerDay)).
Proof.
  intros Hy Hm Hd.
  destruct (MakeDay_fields y m d Hm Hd) as (HY & HM & HD).
  unfold checked, Date_UTC.
  replace ((0 <=? y) && (y <=? 99)) with false by (symmetry; apply andb_false_iff; right; apply Z.leb_gt; lia).
  assert (HC : TimeClip (MakeDay y m d * msPerDay) = Some (MakeDay y m d * msPerDay)).
  { unfold TimeClip.
    assert (DayFromYear y <= MakeDay y m d < DayFromYear (y + 1)).
    { unfold MakeDay. rewrite (Z.div_small m 12), (Z.mod_small m 12), Z.add_0_r by lia.
      rewrite DayFromYear_succ, DaysInYear_leapDay.
      unfold daysInMonth in Hd. replace (m + 1 - 1) with m in Hd by lia.
      destruct (leapDay_cases y) as [L|L]; rewrite L in *;
        month_cases m; cbn in Hd |- *; lia. }
    pose proof (DayFromYear_bounds y Hy).
    destruct (Z.leb_spec (Z.abs (MakeDay y m d * msPerDay)) 8640000000000000); auto.
    unfold msPerDay in *. lia. }
  rewrite HC. unfold getUTCFullYear, getUTCMonth, getUTCDate, option_map, numEq.
  rewrite Day_of_days, HY, HM, HD, !Z.eqb_refl. reflexivity.
Qed.

(** ** Strings *)

Lemma append_nil_r s : s ++ "" = s.
Proof. induction s; simpl; congruence. Qed.

Lemma append_assoc (a b c : string) : (a ++ b) ++ c = a ++ (b ++ c).
Proof. induction a; simpl; congruence. Qed.

Lemma length_append (a b : string) :
  String.length (a ++ b) = (String.length a + String.length b)%nat.
Proof. induction a; simpl; congruence. Qed.

Lemma allChars_app p a b : allChars p (a ++ b) = allChars p a && allChars p b.
Proof. induction a; simpl; [reflexivity|]. rewrite IHa. apply andb_assoc. Qed.

Lemma allChars_impl (p q : ascii -> bool) s :
  (forall c, p c = true -> q c = true) -> allChars p s = true -> allChars q s = true.
Proof.
  intros H. induction s; simpl; [reflexivity|].
  rewrite !andb_true_iff. intros [H1 H2]. auto.
Qed.

(** Order on strings *)

Lemma ascii_compare_trans_lt a b c :
  Ascii.compare a b = Lt -> Ascii.compare b c = Lt -> Ascii.compare a c = Lt.
Proof. unfold Ascii.compare. rewrite !N.compare_lt_iff. lia. Qed.

Lemma string_compare_refl s : String.compare s s = Eq.
Proof.
  induction s; simpl; [reflexivity|].
  unfold Ascii.compare. rewrite N.compare_refl. exact IHs.
Qed.

Lemma string_lt_trans a : forall b c,
  String.compare a b = Lt -> String.compare b c = Lt -> String.compare a c = Lt.
Proof.
  induction a as [|x a IH]; intros [|y b] [|z c]; simpl; try congruence.
  destruct (Ascii.compare x y) eqn:Exy; try congruence;
    destruct (Ascii.compare y z) eqn:Eyz; try congruence; intros H1 H2.
  - apply Ascii.compare_eq_iff in Exy, Eyz. subst.
    unfold Ascii.compare. rewrite N.compare_refl. eauto.
  - apply Ascii.compare_eq_iff in Exy. subst. rewrite Eyz. reflexivity.
  - apply Ascii.compare_eq_iff in Eyz. subst. rewrite Exy. reflexivity.
  - rewrite (ascii_compare_trans_lt _ _ _ Exy Eyz). reflexivity.
Qed.

Lemma string_leb_trans a b c :
  String.leb a b = true -> String.leb b c = true -> String.leb a c = true.
Proof.
  unfold String.leb.
  destruct (String.compare a b) eqn:Eab; try discriminate;
    destruct (String.compare b c) eqn:Ebc; try discriminate; intros _ _.
  - apply String.compare_eq_iff in Eab, Ebc. subst. now rewrite string_compare_refl.
  - apply String.compare_eq_iff in Eab. subst. now rewrite Ebc.
  - apply String.compare_eq_iff in Ebc. subst. now rewrite Eab.
  - now rewrite (string_lt_trans _ _ _ Eab Ebc).
Qed.

Lemma string_ltb_leb a b : String.ltb b a = false <-> String.leb a b = true.
Proof.
  unfold String.ltb, String.leb. rewrite (String.compare_antisym a b).
  destruct (String.compare b a); simpl; split; congruence.
Qed.

(** ** The stable sort *)

Section SortFacts.

Context {A : Type} (gt : A -> A -> bool).

Lemma insertSorted_perm x l : Permutation (insertSorted gt x l) (x :: l).
Proof.
  induction l as [|y l IH]; simpl; [reflexivity|].
  destruct (gt x y); [|reflexivity].
  rewrite IH. apply perm_swap.
Qed.

Lemma sortBy_perm l : Permutation (sortBy gt l) l.
Proof.
  induction l as [|x l IH]; simpl; [reflexivity|].
  rewrite insertSorted_perm. now constructor.
Qed.

Lemma sortBy_In x l : In x (sortBy gt l) <-> In x l.
Proof.
  split; apply Permutation_in; [|symmetry]; apply sortBy_perm.
Qed.

Lemma sortBy_length l : List.length (sortBy gt l) = List.length l.
Proof. apply Permutation_length, sortBy_perm. Qed.

Hypothesis gt_asym : forall a b, gt a b = true -> gt b a = false.

Hypothesis before_trans : forall a b c, before gt a b -> before gt b c -> before gt a c.

Lemma insertSorted_sorted x l :
  StronglySorted (before gt) l -> StronglySorted (before gt) (insertSorted gt x l).
Proof.
  induction 1 as [|y l Hl IH Hy]; simpl.
  - repeat constructor.
  - destruct (gt x y) eqn:E.
    + constructor; [exact IH|].
      rewrite Forall_forall in *. intros z Hz.
      apply (Permutation_in _ (insertSorted_perm x l)) in Hz.
      destruct Hz as [<-|Hz]; [now apply gt_asym | auto].
    + constructor; [now constructor|].
      constructor; [exact E|].
      rewrite Forall_forall in *. intros z Hz.
      apply before_trans with y; [exact E | auto].
Qed.

Lemma sortBy_sorted l : StronglySorted (before gt) (sortBy gt l).
Proof.
  induction l; simpl; [constructor | now apply insertSorted_sorted].
Qed.

Hypothesis before_antisym : forall a b, before gt a b -> before gt b a -> a = b.

Lemma sorted_perm_eq l1 : forall l2,
  StronglySorted (before gt) l1 -> StronglySorted (before gt) l2 ->
  Permutation l1 l2 -> l1 = l2.
Proof.
  induction l1 as [|x l1 IH]; intros l2 S1 S2 P.
  - apply Permutation_nil in P. now subst.
  - destruct l2 as [|y l2]; [apply Permutation_sym, Permutation_nil in P; discriminate|].
    inversion S1 as [|? ? S1' F1]; inversion S2 as [|? ? S2' F2]; subst.
    rewrite Forall_forall in F1, F2.
    assert (x = y).
    { assert (Hx : In x (y :: l2)) by (eapply Permutation_in; [exact P | now left]).
      assert (Hy : In y (x :: l1)) by (eapply Permutation_in; [symmetry; exact P | now left]).
      destruct Hx as [->|Hx]; [reflexivity|].
      destruct Hy as [->|Hy]; [reflexivity|].
      apply before_antisym; auto. }
    subst y. f_equal. apply IH; auto.
    now apply Permutation_cons_inv in P.
Qed.

Lemma sortBy_permutation l1 l2 :
  Permutation l1 l2 -> sortBy gt l1 = sortBy gt l2.
Proof.
  intros P. apply sorted_perm_eq; try apply sortBy_sorted.
  rewrite !sortBy_perm. exact P.
Qed.

End SortFacts.

(** ** getCategory *)

Lemma startsWith_spec p : forall s,
  startsWith p s = true <-> exists post, s = p ++ post.
Proof.
  induction p as [|a p IH]; intros s; simpl.
  - split; [eauto | reflexivity].
  - destruct s as [|b s].
    + split; [discriminate | intros [post H]; discriminate].
    + rewrite andb_true_iff, IH. split.
      * intros [E [post ->]]. apply Ascii.eqb_eq in E. subst. eauto.
      * intros [post H]. injection H as -> ->. split; [apply Ascii.eqb_refl | eauto].
Qed.

Lemma includes_spec sub s : includes s sub = true <-> isSubstring sub s.
Proof.
  unfold isSubstring. induction s as [|c s IH].
  - simpl. rewrite orb_false_r, startsWith_spec. split.
    + intros [post H]. exists "", post. exact H.
    + intros [[|a pre] [post H]]; [eauto | discriminate].
  - cbn [includes]. rewrite orb_true_iff, startsWith_spec, IH. split.
    + intros [[post H] | [pre [post H]]].
      * exists "", post. exact H.
      * exists (String c pre), post. simpl. now rewrite H.
    + intros [[|a pre] [post H]].
      * left. eauto.
      * right. simpl in H. injection H as -> ->. eauto.
Qed.

Lemma memStr_In x l : memStr x l = true <-> In x l.
Proof.
  unfold memStr. rewrite existsb_exists. split.
  - intros [y [H E]]. apply String.eqb_eq in E. now subst.
  - intros H. exists x. split; [exact H | apply String.eqb_refl].
Qed.

Lemma setAdd_In x y l : In y (setAdd x l) <-> y = x \/ In y l.
Proof.
  unfold setAdd. fold (memStr x l).
  destruct (memStr x l) eqn:E.
  - apply memStr_In in E. split; [auto | intros [->|H]; auto].
  - rewrite in_app_iff. simpl. intuition.
Qed.

Lemma setAdd_NoDup x l : NoDup l -> NoDup (setAdd x l).
Proof.
  intros H. unfold setAdd. fold (memStr x l).
  destruct (memStr x l) eqn:E; [exact H|].
  apply NoDup_rev in H.
  rewrite <- (rev_involutive (l ++ [x])), rev_app_distr. apply NoDup_rev.
  simpl. constructor; [|exact H].
  rewrite <- in_rev. intros Hin. apply memStr_In in Hin. congruence.
Qed.

Lemma collect_In desc table : forall found l,
  In l (collect desc table found) <->
  In l found \/ exists k, In (k, l) table /\ includes desc (toUpperCase k) = true.
Proof.
  induction table as [|[k v] table IH]; intros found l; simpl.
  - split; [auto | intros [H|[k [[] _]]]; exact H].
  - fold (collect desc table). rewrite IH. destruct (includes desc (toUpperCase k)) eqn:E.
    + rewrite setAdd_In. split.
      * intros [[->|H]|[k' [H1 H2]]]; eauto 6.
      * intros [H|[k' [[H1|H1] H2]]]; eauto.
        injection H1 as -> ->. auto.
    + split.
      * intros [H|[k' [H1 H2]]]; eauto 6.
      * intros [H|[k' [[H1|H1] H2]]]; eauto.
        injection H1 as -> ->. congruence.
Qed.

Lemma collect_NoDup desc table : forall found,
  NoDup found -> NoDup (collect desc table found).
Proof.
  induction table as [|[k v] table IH]; intros found H; simpl; [exact H|].
  apply IH. destruct (includes desc (toUpperCase k)); [now apply setAdd_NoDup | exact H].
Qed.

Lemma sortStrings_sorted l : StronglySorted leS (sortStrings l).
Proof.
  unfold sortStrings.
  eapply StronglySorted_ind with (P := StronglySorted leS);
    [constructor | | apply (sortBy_sorted (fun a b => String.ltb b a))].
  - intros a l0 _ IH F. constructor; [exact IH|].
    eapply Forall_impl; [|exact F]. intros b Hb. apply string_ltb_leb, Hb.
  - intros a b H. unfold String.ltb in *. rewrite String.compare_antisym.
    destruct (String.compare b a); simpl; congruence.
  - unfold before. intros a b c H1 H2. apply string_ltb_leb.
    apply string_ltb_leb in H1, H2. eapply string_leb_trans; eauto.
Qed.

Lemma sortStrings_permutation l1 l2 :
  Permutation l1 l2 -> sortStrings l1 = sortStrings l2.
Proof.
  apply sortBy_permutation.
  - intros a b H. unfold String.ltb in *. rewrite String.compare_antisym.
    destruct (String.compare b a); simpl; congruence.
  - unfold before. intros a b c H1 H2. apply string_ltb_leb.
    apply string_ltb_leb in H1, H2. eapply string_leb_trans; eauto.
  - unfold before. intros a b H1 H2. apply string_ltb_leb in H1, H2.
    now apply String.leb_antisym.
Qed.

Lemma getCategory_unfold table d :
  getCategory table d =
  match collect (toUpperCase d) table [] with
  | [] => "Other"
  | _ => join "-" (sortStrings (collect (toUpperCase d) table []))
  end.
Proof. reflexivity. Qed.

(** Claim C5.  For every keyword table and description, [getCategory] gives
    the labels of the entries whose keyword occurs in the description, the
    case of letters set aside (the uppercased keyword is a substring of the
    uppercased description): each label once, in lexicographic order, joined
    with ["-"]; or the literal ["Other"] when no keyword occurs.  A
    permutation of the entries of the table does not change the result. *)
Theorem getCategory_sorted_labels_order_independent
    (table table' : list (string * string)) (description : string) :
  Permutation table table' ->
  (exists labels,
      (forall l, In l labels <->
                 exists k, In (k, l) table /\
                           isSubstring (toUpperCase k) (toUpperCase description)) /\
      NoDup labels /\ StronglySorted leS labels /\
      getCategory table description =
        match labels with
        | [] => "Other"
        | _ => join "-" labels
        end) /\
  getCategory table' description = getCategory table description.
Proof.
  intros P. split.
  - exists (sortStrings (collect (toUpperCase description) table [])).
    assert (HP := sortBy_perm (fun a b => String.ltb b a)
                              (collect (toUpperCase description) table [])).
    fold sortStrings in HP.
    split; [|split; [|split]].
    + intros l. split.
      * intros H. apply (Permutation_in _ HP) in H. apply collect_In in H.
        destruct H as [[]|[k [H1 H2]]]. exists k. split; [exact H1 | now apply includes_spec].
      * intros [k [H1 H2]]. apply (Permutation_in _ (Permutation_sym HP)).
        apply collect_In. right. exists k. split; [exact H1 | now apply includes_spec].
    + eapply Permutation_NoDup; [symmetry; exact HP|]. apply collect_NoDup. constructor.
    + apply sortStrings_sorted.
    + rewrite getCategory_unfold.
      destruct (collect (toUpperCase description) table []) eqn:E; [reflexivity|].
      destruct (sortStrings (s :: l)) eqn:E2; [|reflexivity].
      apply Permutation_nil in HP. discriminate.
  - rewrite !getCategory_unfold.
    assert (HP : Permutation (collect (toUpperCase description) table' [])
                             (collect (toUpperCase description) table [])).
    { apply NoDup_Permutation; try (apply collect_NoDup; constructor).
      intros l. rewrite !collect_In. split; intros [[]|[k [H1 H2]]]; right; exists k;
        (split; [|exact H2]).
      - apply (Permutation_in _ (Permutation_sym P)), H1.
      - apply (Permutation_in _ P), H1. }
    rewrite (sortStrings_permutation _ _ HP).
    destruct (collect (toUpperCase description) table' []) eqn:E1;
      destruct (collect (toUpperCase description) table []) eqn:E2; try reflexivity.
    + apply Permutation_nil in HP. discriminate.
    + apply Permutation_sym, Permutation_nil in HP. discriminate.
Qed.

(** The claim on a table of three entries and its reversal. *)
Lemma getCategory_sorted_labels_order_independent_witness :
  Permutation [("swiggy", "FOOD"); ("bigbasket", "GROCERY SHOPPING"); ("zomato", "FOOD")]
              [("zomato", "FOOD"); ("bigbasket", "GROCERY SHOPPING"); ("swiggy", "FOOD")] /\
  getCategory [("zomato", "FOOD"); ("bigbasket", "GROCERY SHOPPING"); ("swiggy", "FOOD")]
              "Swiggy order, BigBasket refill" = "FOOD-GROCERY SHOPPING".
Proof.
  assert (P : Permutation [("swiggy", "FOOD"); ("bigbasket", "GROCERY SHOPPING"); ("zomato", "FOOD")]
              [("zomato", "FOOD"); ("bigbasket", "GROCERY SHOPPING"); ("swiggy", "FOOD")]).
  { apply (perm_trans (perm_swap _ _ _)). apply (perm_trans (perm_skip _ (perm_swap _ _ _))).
    apply perm_swap. }
  split; [exact P|].
  exact (proj2 (getCategory_sorted_labels_order_independent _ _ "Swiggy order, BigBasket refill" P)).
Defined.

(** ** processXlsData *)

Lemma Qgtb_true x y : Qgtb x y = true <-> (y < x)%Q.
Proof.
  unfold Qgtb. rewrite negb_true_iff. split.
  - intros H. apply Qnot_le_lt. intros C. apply Qle_bool_iff in C. congruence.
  - intros H. destruct (Qle_bool x y) eqn:E; [|reflexivity].
    apply Qle_bool_iff in E. exfalso. apply (Qlt_not_le _ _ H E).
Qed.

Lemma Qgtb_false x y : Qgtb x y = false <-> (x <= y)%Q.
Proof.
  unfold Qgtb. rewrite negb_false_iff. apply Qle_bool_iff.
Qed.

Lemma filterMap_In {A B} (f : A -> option B) l y :
  In y (filterMap f l) <-> exists x, In x l /\ f x = Some y.
Proof.
  induction l as [|a l IH]; simpl.
  - split; [intros [] | intros [x [[] _]]].
  - destruct (f a) eqn:E; simpl; rewrite IH; split.
    + intros [<-|[x [H1 H2]]]; eauto.
    + intros [x [[<-|H1] H2]]; [left; congruence | eauto].
    + intros [x [H1 H2]]; eauto.
    + intros [x [[<-|H1] H2]]; [congruence | eauto].
Qed.

Lemma In_skipn {A} n (l : list A) x : In x (skipn n l) -> In x l.
Proof.
  revert l. induction n; intros [|a l]; simpl; auto.
Qed.

Lemma findHeaderRow_In h aoa i :
  findHeaderRow h aoa = Some i -> In (nth i aoa []) aoa.
Proof.
  revert i. induction aoa as [|r aoa IH]; intros i; simpl; [discriminate|].
  destruct (memStr "date" (headerCells h r) && memStr "narration" (headerCells h r)).
  - intros [= <-]. now left.
  - destruct (findHeaderRow h aoa) as [j|]; [|discriminate].
    intros [= <-]. right. now apply IH.
Qed.

(** Claim C1, as the code has it.  For a document with zero rows the
    statement parser, with the spreadsheet library loaded, returns the empty
    list of transactions, whatever the host and the keyword table.  Its
    errors are for documents that have a row: when no row names both the date
    and the narration, and when the header row lacks one of the four
    columns. *)
Theorem processXlsData_zero_rows_returns_empty h table :
  processXlsData h table true [] = Returned [] /\
  (forall aoa message,
      processXlsData h table true aoa = Threw message ->
      aoa <> [] /\
      ((findHeaderRow h aoa = None /\ message = errNoHeader) \/
       (exists i, findHeaderRow h aoa = Some i /\ message = errNoColumns /\
                  let headerRow := headerCells h (nth i aoa []) in
                  indexOf "date" headerRow = None \/
                  indexOf "narration" headerRow = None \/
                  indexOf "withdrawal amt." headerRow = None \/
                  indexOf "deposit amt." headerRow = None))) /\
  (forall aoa, aoa <> [] -> findHeaderRow h aoa = None ->
               processXlsData h table true aoa = Threw errNoHeader).
Proof.
  split; [reflexivity|]. split.
  - intros aoa message. unfold processXlsData. cbn [negb].
    destruct aoa as [|r rest]; [discriminate|].
    split; [discriminate|].
    destruct (findHeaderRow h (r :: rest)) as [i|]; [|left; split; congruence].
    right. exists i. cbv zeta in *.
    destruct (indexOf "date" _); [|split; [reflexivity|split; [congruence|now left]]].
    destruct (indexOf "narration" _);
      [|split; [reflexivity|split; [congruence|now (right; left)]]].
    destruct (indexOf "withdrawal amt." _);
      [|split; [reflexivity|split; [congruence|now (right; right; left)]]].
    destruct (indexOf "deposit amt." _);
      [discriminate|split; [reflexivity|split; [congruence|now (right; right; right)]]].
  - intros aoa Hne Hnone. unfold processXlsData. cbn [negb].
    destruct aoa as [|r rest]; [contradiction|]. now rewrite Hnone.
Qed.

(** A document of one row that is no header: the error is raised there. *)
Lemma processXlsData_zero_rows_returns_empty_witness :
  processXlsData Examples.utcHost [] true [[VStr "Closing balance"]] = Threw errNoHeader.
Proof.
  apply (proj2 (proj2 (processXlsData_zero_rows_returns_empty Examples.utcHost [])));
    [discriminate | reflexivity].
Defined.

(** Claim C1 as the specification words it fails: on the document with zero
    rows no error is raised. *)
Lemma processXlsData_zero_rows_not_an_error :
  ~ (exists message, processXlsData Examples.utcHost [] true [] = Threw message).
Proof. intro C. destruct C as [message H]. discriminate H. Qed.

Lemma processRow_amount h table di ni wi dpi row t :
  processRow h table di ni wi dpi row = Some t ->
  let deposit := amountOf h (cell row dpi) in
  let withdrawal := amountOf h (cell row wi) in
  ((0 < deposit)%Q -> amount t = deposit /\ type t = Credit) /\
  (~ (0 < deposit)%Q -> (0 < withdrawal)%Q /\ amount t = Qopp withdrawal /\ type t = Debit).
Proof.
  intros H deposit withdrawal. unfold processRow in H.
  destruct (_ || startsWith _ _); [discriminate|].
  destruct (_ || String.eqb _ ""); [discriminate|].
  destruct (parseDate h (cell row di)) as [parsedDate|]; [|discriminate].
  fold deposit withdrawal in H. revert H.
  destruct (Qgtb deposit 0) eqn:Ed; intros H.
  - injection H as <-. simpl. apply Qgtb_true in Ed.
    split; [auto | intros C; contradiction].
  - apply Qgtb_false in Ed.
    revert H. destruct (Qgtb withdrawal 0) eqn:Ew; intros H; [|discriminate].
    injection H as <-. simpl. apply Qgtb_true in Ew.
    split; [intros C; exfalso; apply (Qlt_not_le _ _ C Ed)|].
    intros _. split; [exact Ew|]. split; [reflexivity|].
    destruct (Qgtb (- withdrawal) 0) eqn:E; [|reflexivity].
    apply Qgtb_true in E. lra.
Qed.

(** Claim C4.  Every transaction that the statement parser returns has a
    nonzero amount, and its type agrees with the sign of the amount: credit
    exactly when the amount is at least zero, debit exactly when it is not.
    It is made from a row of the document, below a header row that names the
    withdrawal and deposit columns, in which the deposit or the withdrawal is
    above zero; the amount is the deposit when the deposit is above zero, and
    minus the withdrawal otherwise. *)
Theorem processXlsData_amount_and_type h table loaded aoa txs t :
  processXlsData h table loaded aoa = Returned txs ->
  In t txs ->
  (~ amount t == 0)%Q /\
  (type t = Credit <-> (0 <= amount t)%Q) /\
  (type t = Debit <-> ~ (0 <= amount t)%Q) /\
  exists header row dateIndex narrationIndex withdrawalIndex depositIndex,
    In header aoa /\ In row aoa /\
    indexOf "withdrawal amt." (headerCells h header) = Some withdrawalIndex /\
    indexOf "deposit amt." (headerCells h header) = Some depositIndex /\
    processRow h table dateIndex narrationIndex withdrawalIndex depositIndex row = Some t /\
    let deposit := amountOf h (cell row depositIndex) in
    let withdrawal := amountOf h (cell row withdrawalIndex) in
    ((0 < deposit)%Q \/ (0 < withdrawal)%Q) /\
    ((0 < deposit)%Q -> amount t = deposit) /\
    (~ (0 < deposit)%Q -> amount t = Qopp withdrawal).
Proof.
  unfold processXlsData. intros H Hin.
  destruct (negb loaded); [discriminate|].
  destruct aoa as [|r0 aoa0]; [injection H as <-; destruct Hin|].
  set (aoa := r0 :: aoa0) in *.
  destruct (findHeaderRow h aoa) as [i|] eqn:Ei; [|discriminate].
  pose proof (findHeaderRow_In _ _ _ Ei) as Hhdr.
  set (header := nth i aoa []) in *.
  destruct (indexOf "date" _) as [di|]; [|discriminate].
  destruct (indexOf "narration" _) as [ni|]; [|discriminate].
  destruct (indexOf "withdrawal amt." _) as [wi|] eqn:Ew; [|discriminate].
  destruct (indexOf "deposit amt." _) as [dpi|] eqn:Edp; [|discriminate].
  injection H as <-.
  apply filterMap_In in Hin. destruct Hin as [row [Hrow Hp]].
  apply In_skipn in Hrow.
  destruct (processRow_amount _ _ _ _ _ _ _ _ Hp) as [Hc Hd].
  cbv zeta in Hc, Hd.
  assert (Hs : (~ amount t == 0)%Q /\ (type t = Credit <-> (0 <= amount t)%Q)
               /\ (type t = Debit <-> ~ (0 <= amount t)%Q)).
  { destruct (Qlt_le_dec 0 (amountOf h (cell row dpi))) as [L|L].
    - destruct (Hc L) as [-> ->]. split; [lra|].
      split; split; intros; try lra; try reflexivity; try discriminate.
    - assert (N : ~ (0 < amountOf h (cell row dpi))%Q) by lra.
      destruct (Hd N) as (W & -> & ->). split; [lra|].
      split; split; intros; try lra; try reflexivity; try discriminate. }
  destruct Hs as (H1 & H2 & H3).
  split; [exact H1|]. split; [exact H2|]. split; [exact H3|].
  exists header, row, di, ni, wi, dpi. cbv zeta.
  split; [assumption|]. split; [right; assumption|].
  do 3 (split; [assumption|]).
  split; [|split].
  - destruct (Qlt_le_dec 0 (amountOf h (cell row dpi))) as [L|L]; [left; exact L|].
    assert (N : ~ (0 < amountOf h (cell row dpi))%Q) by lra.
    right. exact (proj1 (Hd N)).
  - intros L. exact (proj1 (Hc L)).
  - intros N. exact (proj1 (proj2 (Hd N))).
Qed.

(** ** filterDuplicateStaged *)

Lemma filterDuplicateStaged_fold keys staged : forall acc,
  let r := fold_left
    (fun acc t =>
       if memStr (makeTransactionKey t) keys
       then {| newOnes := newOnes acc; duplicateCount := S (duplicateCount acc) |}
       else {| newOnes := (newOnes acc ++ [t])%list; duplicateCount := duplicateCount acc |})
    staged acc in
  newOnes r = (newOnes acc ++ filter (fun t => negb (memStr (makeTransactionKey t) keys)) staged)%list /\
  duplicateCount r =
    (duplicateCount acc + List.length (filter (fun t => memStr (makeTransactionKey t) keys) staged))%nat.
Proof.
  induction staged as [|t staged IH]; intros acc; simpl.
  - now rewrite app_nil_r, Nat.add_0_r.
  - destruct (memStr (makeTransactionKey t) keys) eqn:E; simpl;
      destruct (IH (if memStr (makeTransactionKey t) keys
                    then {| newOnes := newOnes acc; duplicateCount := S (duplicateCount acc) |}
                    else {| newOnes := (newOnes acc ++ [t])%list; duplicateCount := duplicateCount acc |}))
        as [H1 H2]; rewrite E in H1, H2; cbv zeta in H1, H2; rewrite H1, H2; simpl.
    + split; [reflexivity | lia].
    + split; [now rewrite <- app_assoc | reflexivity].
Qed.

(** ** aggregateCategories *)

Lemma addTo_category t e : cs_category (addTo t e) = cs_category e.
Proof. unfold addTo. destruct (type t); reflexivity. Qed.

Lemma addTo_expense t e : (expense (addTo t e) == expense e + expenseOf t)%Q.
Proof. unfold addTo, expenseOf. destruct (type t); simpl; ring. Qed.

Lemma addTo_income t e : (income (addTo t e) == income e + incomeOf t)%Q.
Proof. unfold addTo, incomeOf. destruct (type t); simpl; ring. Qed.

Lemma accumulate_keys t c m :
  keysOf (accumulate t c m) = if memStr c (keysOf m) then keysOf m else (keysOf m ++ [c])%list.
Proof.
  induction m as [|e m IH]; simpl.
  - now rewrite addTo_category.
  - rewrite (String.eqb_sym c). destruct (String.eqb (cs_category e) c) eqn:E; simpl.
    + now rewrite addTo_category.
    + rewrite IH. unfold memStr. destruct (existsb (String.eqb c) (keysOf m)); reflexivity.
Qed.

Lemma accumulate_expenseAt t c m c' :
  (expenseAt c' (accumulate t c m) ==
   expenseAt c' m + (if String.eqb c c' then expenseOf t else 0))%Q.
Proof.
  induction m as [|e m IH]; simpl.
  - rewrite addTo_category. simpl. destruct (String.eqb c c');
      [rewrite addTo_expense; simpl; ring | ring].
  - destruct (String.eqb (cs_category e) c) eqn:E; simpl.
    + rewrite addTo_category. apply String.eqb_eq in E. subst c.
      destruct (String.eqb (cs_category e) c'); [apply addTo_expense | ring].
    + destruct (String.eqb (cs_category e) c') eqn:E'; [|exact IH].
      apply String.eqb_eq in E'. subst c'. rewrite String.eqb_sym, E. ring.
Qed.

Lemma accumulate_incomeAt t c m c' :
  (incomeAt c' (accumulate t c m) ==
   incomeAt c' m + (if String.eqb c c' then incomeOf t else 0))%Q.
Proof.
  induction m as [|e m IH]; simpl.
  - rewrite addTo_category. simpl. destruct (String.eqb c c');
      [rewrite addTo_income; simpl; ring | ring].
  - destruct (String.eqb (cs_category e) c) eqn:E; simpl.
    + rewrite addTo_category. apply String.eqb_eq in E. subst c.
      destruct (String.eqb (cs_category e) c'); [apply addTo_income | ring].
    + destruct (String.eqb (cs_category e) c') eqn:E'; [|exact IH].
      apply String.eqb_eq in E'. subst c'. rewrite String.eqb_sym, E. ring.
Qed.

Lemma occurrences_cons c c' labels :
  (occurrences c' (c :: labels) == (if String.eqb c c' then 1 else 0) + occurrences c' labels)%Q.
Proof.
  unfold occurrences. simpl. destruct (string_dec c c') as [->|N].
  - rewrite String.eqb_refl, Nat2Z.inj_succ. unfold Z.succ. rewrite inject_Z_plus. ring.
  - apply String.eqb_neq in N. rewrite N. ring.
Qed.

Lemma addLabels_expenseAt t labels c' : forall m,
  (expenseAt c' (addLabels t labels m) == expenseAt c' m + occurrences c' labels * expenseOf t)%Q.
Proof.
  induction labels as [|c labels IH]; intros m; simpl.
  - unfold occurrences. simpl. ring.
  - fold (addLabels t labels (accumulate t c m)).
    rewrite IH, accumulate_expenseAt, occurrences_cons.
    destruct (String.eqb c c'); ring.
Qed.

Lemma addLabels_incomeAt t labels c' : forall m,
  (incomeAt c' (addLabels t labels m) == incomeAt c' m + occurrences c' labels * incomeOf t)%Q.
Proof.
  induction labels as [|c labels IH]; intros m; simpl.
  - unfold occurrences. simpl. ring.
  - fold (addLabels t labels (accumulate t c m)).
    rewrite IH, accumulate_incomeAt, occurrences_cons.
    destruct (String.eqb c c'); ring.
Qed.

Lemma accumulate_keys_In t c m c' :
  In c' (keysOf (accumulate t c m)) <-> In c' (keysOf m) \/ c' = c.
Proof.
  rewrite accumulate_keys. destruct (memStr c (keysOf m)) eqn:E.
  - apply memStr_In in E. split; [auto | intros [H| ->]; auto].
  - rewrite in_app_iff. simpl. intuition.
Qed.

Lemma accumulate_keys_NoDup t c m : NoDup (keysOf m) -> NoDup (keysOf (accumulate t c m)).
Proof.
  intros H. rewrite accumulate_keys. destruct (memStr c (keysOf m)) eqn:E; [exact H|].
  apply NoDup_rev in H.
  rewrite <- (rev_involutive (keysOf m ++ [c])), rev_app_distr. apply NoDup_rev.
  simpl. constructor; [|exact H].
  rewrite <- in_rev. intros Hin. apply memStr_In in Hin. congruence.
Qed.

Lemma addLabels_keys t labels c' : forall m,
  In c' (keysOf (addLabels t labels m)) <-> In c' (keysOf m) \/ In c' labels.
Proof.
  induction labels as [|c labels IH]; intros m; simpl.
  - intuition.
  - fold (addLabels t labels (accumulate t c m)). rewrite IH, accumulate_keys_In. intuition.
Qed.

Lemma addLabels_NoDup t labels : forall m,
  NoDup (keysOf m) -> NoDup (keysOf (addLabels t labels m)).
Proof.
  induction labels as [|c labels IH]; intros m H; simpl; [exact H|].
  apply IH, accumulate_keys_NoDup, H.
Qed.

Lemma addAll_expenseAt c transactions : forall m,
  (expenseAt c (addAll transactions m) ==
   expenseAt c m + total (fun t => occurrences c (labelsOf t) * expenseOf t) transactions)%Q.
Proof.
  induction transactions as [|t ts IH]; intros m; simpl.
  - ring.
  - fold (addAll ts (addLabels t (labelsOf t) m)). rewrite IH, addLabels_expenseAt. ring.
Qed.

Lemma addAll_incomeAt c transactions : forall m,
  (incomeAt c (addAll transactions m) ==
   incomeAt c m + total (fun t => occurrences c (labelsOf t) * incomeOf t) transactions)%Q.
Proof.
  induction transactions as [|t ts IH]; intros m; simpl.
  - ring.
  - fold (addAll ts (addLabels t (labelsOf t) m)). rewrite IH, addLabels_incomeAt. ring.
Qed.

Lemma addAll_keys c transactions : forall m,
  In c (keysOf (addAll transactions m)) <->
  In c (keysOf m) \/ exists t, In t transactions /\ In c (labelsOf t).
Proof.
  induction transactions as [|t ts IH]; intros m; simpl.
  - split; [auto | intros [H|[t [[] _]]]; exact H].
  - fold (addAll ts (addLabels t (labelsOf t) m)). rewrite IH, addLabels_keys. split.
    + intros [[H|H]|[t' [H1 H2]]]; eauto 6.
    + intros [H|[t' [[<-|H1] H2]]]; eauto 6.
Qed.

Lemma addAll_NoDup transactions : forall m,
  NoDup (keysOf m) -> NoDup (keysOf (addAll transactions m)).
Proof.
  induction transactions as [|t ts IH]; intros m H; simpl; [exact H|].
  apply IH, addLabels_NoDup, H.
Qed.

Lemma expenseAt_In m e :
  NoDup (keysOf m) -> In e m -> expenseAt (cs_category e) m = expense e.
Proof.
  induction m as [|x m IH]; simpl; intros N H; [destruct H|].
  destruct H as [->|H].
  - now rewrite String.eqb_refl.
  - inversion N as [|? ? Hx N']; subst.
    destruct (String.eqb (cs_category x) (cs_category e)) eqn:E; [|auto].
    apply String.eqb_eq in E. exfalso. apply Hx. rewrite E. now apply in_map.
Qed.

Lemma incomeAt_In m e :
  NoDup (keysOf m) -> In e m -> incomeAt (cs_category e) m = income e.
Proof.
  induction m as [|x m IH]; simpl; intros N H; [destruct H|].
  destruct H as [->|H].
  - now rewrite String.eqb_refl.
  - inversion N as [|? ? Hx N']; subst.
    destruct (String.eqb (cs_category x) (cs_category e)) eqn:E; [|auto].
    apply String.eqb_eq in E. exfalso. apply Hx. rewrite E. now apply in_map.
Qed.

Lemma aggregateCategories_perm transactions :
  Permutation (aggregateCategories transactions) (addAll transactions []).
Proof. unfold aggregateCategories. apply sortBy_perm. Qed.

(** Claim C7.  [aggregateCategories] has one entry for each label of a
    transaction, and no other.  The expense of an entry is the sum, over the
    transactions, of the absolute amount of a debit, counted once for each
    occurrence of the label among the labels of the transaction; its income
    is the same sum of the amounts of the credits.  The amount is never
    divided among the labels.  The labels of a transaction are the nonempty
    pieces of its category split at ["-"], and ["Other"] alone if there is no
    such piece.  A debit of 1000 with category ["FOOD-GROCERY SHOPPING"] gives
    the two entries FOOD and GROCERY SHOPPING, each with expense 1000. *)
Theorem aggregateCategories_full_amount_per_label (transactions : list Transaction) :
  NoDup (map cs_category (aggregateCategories transactions)) /\
  (forall c, In c (map cs_category (aggregateCategories transactions)) <->
             exists t, In t transactions /\ In c (labelsOf t)) /\
  (forall e, In e (aggregateCategories transactions) ->
     (expense e ==
      total (fun t => occurrences (cs_category e) (labelsOf t) * expenseOf t) transactions)%Q /\
     (income e ==
      total (fun t => occurrences (cs_category e) (labelsOf t) * incomeOf t) transactions)%Q) /\
  (forall t, labelsOf t =
             match filter (fun w => negb (String.eqb w "")) (split "-" (category t)) with
             | [] => ["Other"]
             | labels => labels
             end) /\
  labelsOf combined = ["FOOD"; "GROCERY SHOPPING"] /\
  map cs_category (aggregateCategories [combined]) = ["FOOD"; "GROCERY SHOPPING"] /\
  Forall (fun e => expense e == 1000)%Q (aggregateCategories [combined]).
Proof.
  pose proof (aggregateCategories_perm transactions) as P.
  assert (N : NoDup (keysOf (addAll transactions []))) by (apply addAll_NoDup; constructor).
  split; [|split; [|split; [|split; [|split; [reflexivity|split; [reflexivity|]]]]]].
  - eapply Permutation_NoDup; [|exact N]. apply Permutation_map. now symmetry.
  - intros c. fold (keysOf (aggregateCategories transactions)).
    assert (Hk : In c (keysOf (aggregateCategories transactions)) <->
                 In c (keysOf (addAll transactions []))).
    { split; apply Permutation_in, Permutation_map; [exact P | now symmetry]. }
    rewrite Hk, addAll_keys. simpl. intuition.
  - intros e He. apply (Permutation_in _ P) in He. split.
    + rewrite <- (expenseAt_In _ _ N He), addAll_expenseAt. simpl. ring.
    + rewrite <- (incomeAt_In _ _ N He), addAll_incomeAt. simpl. ring.
  - intros t. unfold labelsOf.
    destruct (String.eqb_spec (category t) "") as [E|E]; [rewrite E; reflexivity|].
    cbv zeta. destruct (filter _ (split "-" (category t))); reflexivity.
  - repeat constructor.
Qed.

(** ** The month key *)

Lemma test_monthPattern s :
  (String.length s <= 7)%nat -> test monthPattern s = isMonthKey s.
Proof.
  intros Hlen.
  destruct s as [|a [|b [|c [|d [|e [|f [|g [|x s]]]]]]]]; try reflexivity;
    try (simpl in Hlen; lia); unfold monthPattern, test, isMonthKey;
    cbn [matchItems rep digits_ lit cls min extra captured Nat.sub inClass snoc option_map];
    repeat match goal with
           | |- context [isDigit ?c] => destruct (isDigit c)
           | |- context [Ascii.eqb ?x ?y] => destruct (Ascii.eqb x y)
           end; reflexivity.
Qed.

(** ** Digits *)

Lemma isDigit_not_space c : isDigit c = true -> isSpace c = false.
Proof.
  unfold isDigit, isSpace. intros H.
  apply andb_true_iff in H. destruct H as [H1 H2].
  apply Z.leb_le in H1. apply Z.leb_le in H2.
  apply orb_false_iff. split.
  - apply andb_false_iff. right. apply Z.leb_gt. lia.
  - apply Z.eqb_neq. lia.
Qed.

Lemma isDigit_not_eqb c x : isDigit x = false -> isDigit c = true -> Ascii.eqb c x = false.
Proof.
  intros Hx Hc. destruct (Ascii.eqb_spec c x); [subst; congruence | reflexivity].
Qed.

Lemma spanDigits_all ds : allChars isDigit ds = true -> spanDigits ds = (ds, "").
Proof.
  induction ds as [|c ds IH]; simpl; [reflexivity|].
  intros H. apply andb_true_iff in H. destruct H as [H1 H2].
  now rewrite H1, IH.
Qed.

Lemma parseInt_digits ds :
  ds <> "" -> allChars isDigit ds = true -> parseInt ds = Some (digitsVal ds).
Proof.
  destruct ds as [|c ds]; [congruence|]. intros _ H.
  pose proof H as H'. simpl in H'. apply andb_true_iff in H'. destruct H' as [Hc _].
  unfold parseInt. cbn [trimStart]. rewrite (isDigit_not_space c Hc).
  rewrite (isDigit_not_eqb c "-"), (isDigit_not_eqb c "+") by (reflexivity || exact Hc).
  rewrite (spanDigits_all _ H). reflexivity.
Qed.

Lemma split_no_sep sep s :
  allChars (fun c => negb (Ascii.eqb c sep)) s = true -> split sep s = [s].
Proof.
  induction s as [|c s IH]; simpl; [reflexivity|].
  intros H. apply andb_true_iff in H. destruct H as [H1 H2].
  apply negb_true_iff in H1. now rewrite H1, IH.
Qed.

Lemma split_app sep a b :
  allChars (fun c => negb (Ascii.eqb c sep)) a = true ->
  split sep (a ++ String sep b) = a :: split sep b.
Proof.
  induction a as [|c a IH]; simpl.
  - now rewrite Ascii.eqb_refl.
  - intros H. apply andb_true_iff in H. destruct H as [H1 H2].
    apply negb_true_iff in H1. now rewrite H1, IH.
Qed.

Lemma digits_no_hyphen ds :
  allChars isDigit ds = true -> allChars (fun c => negb (Ascii.eqb c "-")) ds = true.
Proof.
  apply allChars_impl. intros c H. apply negb_true_iff.
  now apply isDigit_not_eqb.
Qed.

(** ** aggregateMonthly *)

Lemma addMonth_keys k a m k' :
  In k' (map fst (addMonth k a m)) <-> In k' (map fst m) \/ k' = k.
Proof.
  induction m as [|[k0 e] m IH]; simpl.
  - intuition.
  - destruct (String.eqb k0 k) eqn:E; simpl.
    + apply String.eqb_eq in E. subst. intuition.
    + rewrite IH. intuition.
Qed.

Lemma monthsOf_keys k transactions : forall m,
  In k (map fst (monthsOf transactions m)) <->
  In k (map fst m) \/ exists t, In t transactions /\ take 7 (date t) = k.
Proof.
  induction transactions as [|t ts IH]; intros m; simpl.
  - split; [auto | intros [H|[t [[] _]]]; exact H].
  - fold (monthsOf ts (addMonth (take 7 (date t)) (amount t) m)).
    rewrite IH, addMonth_keys. split.
    + intros [[H|H]|[t' [H1 H2]]]; eauto 6.
    + intros [H|[t' [[<-|H1] H2]]]; eauto 6.
Qed.

Lemma aggregateMonthly_months transactions :
  map m_month (aggregateMonthly transactions) =
  map fst (sortBy (fun a b => localeCompare_gt (fst a) (fst b)) (monthsOf transactions [])).
Proof.
  unfold aggregateMonthly. rewrite map_map. reflexivity.
Qed.

Lemma aggregateMonthly_In_month k transactions :
  In k (map m_month (aggregateMonthly transactions)) <->
  exists t, In t transactions /\ take 7 (date t) = k.
Proof.
  rewrite aggregateMonthly_months.
  assert (H : In k (map fst (sortBy (fun a b => localeCompare_gt (fst a) (fst b))
                                    (monthsOf transactions []))) <->
              In k (map fst (monthsOf transactions []))).
  { split; apply Permutation_in, Permutation_map; [|symmetry]; apply sortBy_perm. }
  rewrite H, monthsOf_keys. simpl. intuition.
Qed.

Lemma lastOr_In {A} (d : A) l : l <> [] -> In (lastOr d l) l.
Proof.
  induction l as [|x [|y l] IH]; intros H; [congruence | now left |].
  right. apply IH. discriminate.
Qed.

Lemma lastOr_greatest {A} (R : A -> A -> Prop) (d : A) l :
  (forall x, R x x) -> StronglySorted R l -> forall x, In x l -> R x (lastOr d l).
Proof.
  intros Hrefl. induction 1 as [|a l S IH F]; intros x Hx; [destruct Hx|].
  destruct l as [|b l].
  - destruct Hx as [->|[]]. apply Hrefl.
  - change (lastOr d (a :: b :: l)) with (lastOr d (b :: l)).
    destruct Hx as [->|Hx]; [|now apply IH].
    rewrite Forall_forall in F. apply F, lastOr_In. discriminate.
Qed.

Lemma aggregateMonthly_sorted transactions :
  StronglySorted leS (map m_month (aggregateMonthly transactions)).
Proof.
  rewrite aggregateMonthly_months.
  set (gt := fun a b : string * (Q * Q) => localeCompare_gt (fst a) (fst b)).
  assert (S : StronglySorted (before gt) (sortBy gt (monthsOf transactions []))).
  { apply sortBy_sorted.
    - intros a b H. unfold gt, localeCompare_gt, String.ltb in *.
      rewrite String.compare_antisym. destruct (String.compare (fst b) (fst a)); simpl; congruence.
    - unfold before, gt, localeCompare_gt. intros a b c H1 H2. apply string_ltb_leb.
      apply string_ltb_leb in H1, H2. eapply string_leb_trans; eauto. }
  induction S as [|a l S IH F]; simpl; constructor; [exact IH|].
  rewrite Forall_forall in *. intros k Hk. apply in_map_iff in Hk.
  destruct Hk as [b [<- Hb]]. apply string_ltb_leb. apply (F b Hb).
Qed.

Lemma take_length n : forall s, (String.length (take n s) <= n)%nat.
Proof.
  induction n; intros [|c s]; simpl; try lia. specialize (IHn s). lia.
Qed.

Lemma sliceLast_trailing {A} (window : Z) (l : list A) :
  1 <= window -> sliceLast window l = trailing (Z.to_nat window) l.
Proof.
  intros H. unfold sliceLast, trailing. cbv zeta.
  destruct (Z.ltb_spec (- window) 0); [|lia].
  f_equal. lia.
Qed.

Lemma trailing_nonempty {A} k (l : list A) : (1 <= k)%nat -> l <> [] -> trailing k l <> [].
Proof.
  intros Hk Hl E. unfold trailing in E.
  assert (Hlen : List.length (skipn (List.length l - k) l) = O) by now rewrite E.
  rewrite length_skipn in Hlen.
  assert (1 <= List.length l)%nat by (destruct l; [congruence | simpl; lia]).
  lia.
Qed.

Lemma isMonthKey_true s :
  isMonthKey s = true <->
  exists ys ms, s = ys ++ "-" ++ ms /\
                String.length ys = 4%nat /\ allChars isDigit ys = true /\
                String.length ms = 2%nat /\ allChars isDigit ms = true.
Proof.
  split.
  - destruct s as [|a [|b [|c [|d [|e [|f [|g [|x s]]]]]]]]; try discriminate.
    unfold isMonthKey. rewrite !andb_true_iff. intros [[[[[[Ha Hb] Hc] Hd] He] Hf] Hg].
    apply Ascii.eqb_eq in He. subst e.
    exists (String a (String b (String c (String d "")))), (String f (String g "")).
    cbn [allChars String.length append]. rewrite Ha, Hb, Hc, Hd, Hf, Hg. auto.
  - intros (ys & ms & -> & Ly & Dy & Lm & Dm).
    destruct ys as [|a [|b [|c [|d [|x ys]]]]]; try discriminate.
    destruct ms as [|f [|g [|x ms]]]; try discriminate.
    cbn [allChars] in Dy, Dm. revert Dy Dm. rewrite !andb_true_iff.
    intros (Ha & Hb & Hc & Hd & _) (Hf & Hg & _).
    cbn [append isMonthKey]. now rewrite Ha, Hb, Hc, Hd, Hf, Hg.
Qed.

(** ** The matcher on a text of known shape *)

Lemma snoc_append acc c ds : snoc acc c ++ ds = acc ++ String c ds.
Proof. unfold snoc. now rewrite append_assoc. Qed.

(** A repetition takes a whole run [ds] of its class when it cannot take
    more and the rest of the pattern accepts what follows. *)
Lemma rep_greedy cl k r rest ds : forall mn ex acc,
  allChars (inClass cl) ds = true ->
  (mn <= String.length ds <= mn + ex)%nat ->
  String.length ds = (mn + ex)%nat \/ startsIn cl rest = false ->
  k (acc ++ ds) rest = Some r ->
  rep cl mn ex acc k (ds ++ rest) = Some r.
Proof.
  induction ds as [|c ds IH]; intros mn ex acc Hall Hlen Hstop Hk.
  - simpl in Hlen. assert (mn = O) by lia. subst mn.
    rewrite append_nil_r in Hk. cbn [append].
    destruct ex as [|e]; [destruct rest; exact Hk|].
    destruct Hstop as [Hstop|Hstop]; [simpl in Hstop; lia|].
    destruct rest as [|x rest]; [exact Hk|]. simpl in Hstop. cbn [rep]. now rewrite Hstop.
  - cbn [allChars] in Hall. apply andb_true_iff in Hall. destruct Hall as [Hc Hall].
    cbn [String.length] in Hlen, Hstop. cbn [append].
    destruct mn as [|m].
    + destruct ex as [|e]; [lia|]. cbn [rep]. rewrite Hc.
      rewrite (IH O e (snoc acc c)); auto; try lia.
      * destruct Hstop as [Hstop|Hstop]; [left; lia | now right].
      * now rewrite snoc_append.
    + cbn [rep]. rewrite Hc. apply IH; auto; try lia.
      * destruct Hstop as [Hstop|Hstop]; [left; lia | now right].
      * now rewrite snoc_append.
Qed.

Lemma rep_lit c acc k rest r :
  k (snoc acc c) rest = Some r -> rep (Lit c) 1 0 acc k (String c rest) = Some r.
Proof.
  intros H. cbn [rep inClass]. rewrite Ascii.eqb_refl. destruct rest; exact H.
Qed.

Ltac inner_is v :=
  match goal with
  | |- option_map ?f ?x = _ =>
      let E := fresh "E" in assert (E : x = Some v); [|rewrite E; reflexivity]
  end.

(** Three groups with two separators, as in all three date patterns *)
Lemma matchWhole_three cl1 a1 b1 c1 cl2 a2 b2 c2 cl3 a3 b3 g1 g2 g3 :
  allChars (inClass cl1) g1 = true -> (a1 <= String.length g1 <= b1)%nat ->
  inClass cl1 c1 = false ->
  allChars (inClass cl2) g2 = true -> (a2 <= String.length g2 <= b2)%nat ->
  inClass cl2 c2 = false ->
  allChars (inClass cl3) g3 = true -> (a3 <= String.length g3 <= b3)%nat ->
  matchWhole
    [ {| cls := cl1; min := a1; extra := b1 - a1; captured := true |}; lit c1;
      {| cls := cl2; min := a2; extra := b2 - a2; captured := true |}; lit c2;
      {| cls := cl3; min := a3; extra := b3 - a3; captured := true |} ]
    (g1 ++ String c1 (g2 ++ String c2 g3)) = Some [g1; g2; g3].
Proof.
  intros H1 L1 N1 H2 L2 N2 H3 L3.
  unfold matchWhole. cbn [matchItems cls min extra captured lit].
  apply rep_greedy; [exact H1 | lia | right; exact N1 |].
  rewrite (rep_lit c1 _ _ _ [g2; g3]); [reflexivity|].
  inner_is [g2; g3].
  apply rep_greedy; [exact H2 | lia | right; exact N2 |].
  rewrite (rep_lit c2 _ _ _ [g3]); [reflexivity|].
  inner_is [g3].
  rewrite <- (append_nil_r g3) at 1.
  apply rep_greedy; [exact H3 | lia | right; reflexivity |].
  reflexivity.
Qed.

(** ** Numerals *)

Lemma range_forallb (P : Z -> bool) lo n :
  forallb (fun k => P (lo + Z.of_nat k)) (seq 0 n) = true ->
  forall z, lo <= z < lo + Z.of_nat n -> P z = true.
Proof.
  intros H z Hz. rewrite forallb_forall in H.
  specialize (H (Z.to_nat (z - lo))).
  replace (lo + Z.of_nat (Z.to_nat (z - lo))) with z in H by lia.
  apply H. apply in_seq. lia.
Qed.

Lemma optZ_eqb_eq a b : optZ_eqb a b = true -> a = Some b.
Proof. destruct a; simpl; [intros H; apply Z.eqb_eq in H; now subst | discriminate]. Qed.

Lemma digitGroup_spec lo hi n s :
  digitGroup lo hi n s = true ->
  allChars isDigit s = true /\ (lo <= String.length s <= hi)%nat /\ parseInt s = Some n.
Proof.
  unfold digitGroup. rewrite !andb_true_iff.
  intros [[[H1 H2] H3] H4]. apply Nat.leb_le in H2, H3. apply optZ_eqb_eq in H4. auto.
Qed.

Lemma small_numerals n :
  1 <= n <= 31 ->
  digitGroup 1 2 n (decString n) = true /\ digitGroup 1 2 n (twoDigits n) = true.
Proof.
  intros H. apply andb_true_iff.
  apply (range_forallb
           (fun n => digitGroup 1 2 n (decString n) && digitGroup 1 2 n (twoDigits n)) 1 31);
    [vm_compute; reflexivity | lia].
Qed.

Lemma year_numerals y :
  1000 <= y <= 9999 ->
  digitGroup 4 4 y (decString y) = true.
Proof.
  intros H.
  apply (range_forallb (fun y => digitGroup 4 4 y (decString y)) 1000 (Z.to_nat 9000));
    [vm_compute; reflexivity | lia].
Qed.

Lemma short_year_numerals y :
  2000 <= y <= 2099 ->
  digitGroup 2 2 (y - 2000) (twoDigits (y - 2000)) = true.
Proof.
  intros H.
  apply (range_forallb (fun y => digitGroup 2 2 (y - 2000) (twoDigits (y - 2000))) 2000 100);
    [vm_compute; reflexivity | lia].
Qed.

(** ** Trimming *)

Lemma trimEnd_noSpace s : allChars noSpace s = true -> trimEnd s = s.
Proof.
  induction s as [|c s IH]; [reflexivity|].
  cbn [allChars trimEnd]. intros H. apply andb_true_iff in H. destruct H as [Hc Hs].
  rewrite (IH Hs). unfold noSpace in Hc. apply negb_true_iff in Hc.
  destruct s; [now rewrite Hc | reflexivity].
Qed.

Lemma trim_noSpace s : allChars noSpace s = true -> trim s = s.
Proof.
  intros H. unfold trim.
  assert (E : trimStart s = s).
  { destruct s as [|c s]; [reflexivity|]. cbn [allChars] in H.
    apply andb_true_iff in H. destruct H as [Hc _].
    unfold noSpace in Hc. apply negb_true_iff in Hc. cbn [trimStart]. now rewrite Hc. }
  rewrite E. now apply trimEnd_noSpace.
Qed.

Lemma digits_noSpace s : allChars isDigit s = true -> allChars noSpace s = true.
Proof.
  apply allChars_impl. intros c H. unfold noSpace. now rewrite isDigit_not_space.
Qed.

(** Letters *)

Lemma lower_letter c : isLower (toLowerChar c) = true -> isAlpha c = true.
Proof.
  unfold toLowerChar, isAlpha. destruct (isUpper c) eqn:E; [reflexivity|].
  intros ->. apply orb_true_r.
Qed.

Lemma isAlpha_code c : isAlpha c = true -> 65 <= code c <= 122.
Proof.
  unfold isAlpha, isUpper, isLower.
  rewrite orb_true_iff, !andb_true_iff, !Z.leb_le. lia.
Qed.

Lemma letters_noSpace s : allChars isAlpha s = true -> allChars noSpace s = true.
Proof.
  apply allChars_impl. intros c H. apply isAlpha_code in H.
  unfold noSpace, isSpace. apply negb_true_iff, orb_false_iff. split.
  - apply andb_false_iff. right. apply Z.leb_gt. lia.
  - apply Z.eqb_neq. lia.
Qed.

Lemma letters_of_lower s :
  allChars isLower (toLowerCase s) = true -> allChars isAlpha s = true.
Proof.
  induction s as [|c s IH]; [reflexivity|].
  cbn [toLowerCase mapChars allChars]. intros H.
  apply andb_true_iff in H. destruct H as [Hc Hs].
  rewrite (lower_letter c Hc). now apply IH.
Qed.

Lemma toLowerCase_length s : String.length (toLowerCase s) = String.length s.
Proof. unfold toLowerCase. induction s; simpl; congruence. Qed.

(** ** The calendar days and their texts *)

Lemma fourDigits_year y : 1000 <= y <= 9999 -> fourDigits y = decString y.
Proof.
  intros H. destruct (digitGroup_spec _ _ _ _ (year_numerals y H)) as (_ & L & _).
  unfold fourDigits, padStart. replace (String.length (decString y)) with 4%nat by lia.
  reflexivity.
Qed.

Lemma numeral_group n s :
  1 <= n <= 31 -> numeral n s ->
  allChars isDigit s = true /\ (1 <= String.length s <= 2)%nat /\ parseInt s = Some n.
Proof.
  intros H [->| ->]; apply digitGroup_spec; apply small_numerals; exact H.
Qed.

Lemma yearText_group y s :
  1000 <= y <= 9999 -> yearText y s ->
  allChars isDigit s = true /\ (2 <= String.length s <= 4)%nat /\
  option_map century (parseInt s) = Some y.
Proof.
  intros H [->|[H2 ->]].
  - rewrite (fourDigits_year y H).
    destruct (digitGroup_spec _ _ _ _ (year_numerals y H)) as (A & B & C).
    split; [exact A|]. split; [lia|]. rewrite C. simpl. unfold century.
    destruct (Z.ltb_spec y 100); [lia | reflexivity].
  - destruct (digitGroup_spec _ _ _ _ (short_year_numerals y H2)) as (A & B & C).
    split; [exact A|]. split; [lia|]. rewrite C. simpl. unfold century.
    destruct (Z.ltb_spec (y - 2000) 100); [f_equal; lia | lia].
Qed.

Lemma monthAbbrev_group m s :
  1 <= m <= 12 -> monthAbbrev m s ->
  allChars isAlpha s = true /\ String.length s = 3%nat /\
  lookup (toLowerCase s) monthMap = Some (m - 1).
Proof.
  intros H E. unfold monthAbbrev in E.
  assert (Hm : m = 1 \/ m = 2 \/ m = 3 \/ m = 4 \/ m = 5 \/ m = 6 \/ m = 7 \/ m = 8
               \/ m = 9 \/ m = 10 \/ m = 11 \/ m = 12) by lia.
  split; [|split].
  - apply letters_of_lower. rewrite E.
    repeat (destruct Hm as [Hm|Hm]); subst m; reflexivity.
  - rewrite <- toLowerCase_length, E.
    repeat (destruct Hm as [Hm|Hm]); subst m; reflexivity.
  - rewrite E.
    repeat (destruct Hm as [Hm|Hm]); subst m; reflexivity.
Qed.

(** ** The three patterns on the texts of a day *)

Lemma rep_too_short cl k c rest ds : forall mn ex acc,
  (String.length ds < mn)%nat -> inClass cl c = false ->
  rep cl mn ex acc k (ds ++ String c rest) = None.
Proof.
  induction ds as [|x ds IH]; intros mn ex acc Hlen Hc.
  - destruct mn as [|m]; [simpl in Hlen; lia|]. cbn [append rep]. now rewrite Hc.
  - destruct mn as [|m]; [simpl in Hlen; lia|]. cbn [append rep].
    destruct (inClass cl x); [|reflexivity].
    apply IH; [simpl in Hlen; lia | exact Hc].
Qed.

Lemma tryPattern1_not_iso ds c rest :
  (String.length ds <= 2)%nat -> isDigit c = false ->
  tryPattern1 (ds ++ String c rest) = None.
Proof.
  intros Hlen Hc. unfold tryPattern1, matchWhole, pattern1.
  cbn [matchItems digits cls min extra captured Nat.sub].
  rewrite rep_too_short; [reflexivity | lia | exact Hc].
Qed.

Lemma tryPattern2_not_slash ds rest :
  allChars isDigit ds = true -> (1 <= String.length ds <= 2)%nat ->
  tryPattern2 (ds ++ String "-" rest) = None.
Proof.
  intros Hd Hlen. unfold tryPattern2, matchWhole, pattern2.
  destruct ds as [|a [|b [|x ds]]]; try (simpl in Hlen; lia);
    cbn [allChars] in Hd; rewrite ?andb_true_iff in Hd.
  - destruct Hd as [Ha _].
    cbn [append matchItems digits lit cls min extra captured Nat.sub rep inClass snoc option_map].
    rewrite Ha. cbn. reflexivity.
  - destruct Hd as (Ha & Hb & _).
    cbn [append matchItems digits lit cls min extra captured Nat.sub rep inClass snoc option_map].
    rewrite Ha, Hb. cbn [append matchItems digits lit cls min extra captured Nat.sub rep inClass snoc option_map].
    replace (Ascii.eqb "/" b) with false
      by (symmetry; rewrite Ascii.eqb_sym; apply isDigit_not_eqb; [reflexivity | exact Hb]).
    cbn. reflexivity.
Qed.

Lemma formatDate_MakeDay y m d :
  1000 <= y <= 9999 ->
  0 <= m <= 11 -> 1 <= d <= daysInMonth y (m + 1) ->
  formatDate (Some (MakeDay y m d * msPerDay)) = canonical y (m + 1) d.
Proof.
  intros Hy Hm Hd. unfold canonical. rewrite (fourDigits_year y Hy). destruct (MakeDay_fields y m d Hm Hd) as (HY & HM & HD).
  unfold formatDate, getUTCFullYear, getUTCMonth, getUTCDate, option_map, numString.
  rewrite Day_of_days, HY, HM, HD. reflexivity.
Qed.

Section Roundtrip.

Variables (y m d : Z).

Hypothesis Hy : 1000 <= y <= 9999.

Hypothesis Hv : validDay y m d.

Let date : JSDate := midnightOf y m d.

Lemma checked_day : checked y (m - 1) d = Some date.
Proof.
  destruct Hv as [Hm Hd]. apply checked_valid; [exact Hy | lia |].
  now replace (m - 1 + 1) with m by lia.
Qed.

Lemma formatDate_day : formatDate date = canonical y m d.
Proof.
  destruct Hv as [Hm Hd]. unfold date, midnightOf.
  rewrite formatDate_MakeDay; [now replace (m - 1 + 1) with m by lia | exact Hy | lia |].
  now replace (m - 1 + 1) with m by lia.
Qed.

Lemma day_bounds : 1 <= d <= 31.
Proof.
  destruct Hv as [Hm Hd]. unfold daysInMonth in Hd.
  destruct (leapDay_cases y) as [L|L]; rewrite L in Hd;
    assert (Hc : m = 1 \/ m = 2 \/ m = 3 \/ m = 4 \/ m = 5 \/ m = 6 \/ m = 7 \/ m = 8
                 \/ m = 9 \/ m = 10 \/ m = 11 \/ m = 12) by lia;
    repeat (destruct Hc as [Hc|Hc]); subst m; cbn in Hd; lia.
Qed.

Lemma month_bounds : 1 <= m <= 31.
Proof. destruct Hv. lia. Qed.

Lemma tryPattern1_iso ms ds :
  numeral m ms -> numeral d ds ->
  tryPattern1 (fourDigits y ++ "-" ++ ms ++ "-" ++ ds) = Some date.
Proof.
  intros Nm Nd.
  destruct (digitGroup_spec _ _ _ _ (year_numerals y Hy)) as (Y1 & Y2 & Y3).
  destruct (numeral_group m ms month_bounds Nm) as (M1 & M2 & M3).
  destruct (numeral_group d ds day_bounds Nd) as (D1 & D2 & D3).
  unfold tryPattern1, pattern1, digits. rewrite (fourDigits_year y Hy).
  change (decString y ++ "-" ++ ms ++ "-" ++ ds)
    with (decString y ++ String "-" (ms ++ String "-" ds)).
  rewrite matchWhole_three; try assumption; try reflexivity.
  rewrite Y3, M3, D3. apply checked_day.
Qed.

Lemma tryPattern2_slash ds ms ys :
  numeral d ds -> numeral m ms -> yearText y ys ->
  tryPattern2 (ds ++ "/" ++ ms ++ "/" ++ ys) = Some date.
Proof.
  intros Nd Nm Ny.
  destruct (yearText_group y ys Hy Ny) as (Y1 & Y2 & Y3).
  destruct (numeral_group m ms month_bounds Nm) as (M1 & M2 & M3).
  destruct (numeral_group d ds day_bounds Nd) as (D1 & D2 & D3).
  unfold tryPattern2, pattern2, digits.
  change (ds ++ "/" ++ ms ++ "/" ++ ys) with (ds ++ String "/" (ms ++ String "/" ys)).
  rewrite matchWhole_three; try assumption; try reflexivity.
  rewrite M3, D3. destruct (parseInt ys) as [yr|]; [|discriminate].
  injection Y3 as ->. apply checked_day.
Qed.

Lemma tryPattern3_named ds mon ys :
  numeral d ds -> monthAbbrev m mon -> yearText y ys ->
  tryPattern3 (ds ++ "-" ++ mon ++ "-" ++ ys) = Some date.
Proof.
  intros Nd Nm Ny.
  destruct (yearText_group y ys Hy Ny) as (Y1 & Y2 & Y3).
  destruct (monthAbbrev_group m mon (proj1 Hv) Nm) as (M1 & M2 & M3).
  destruct (numeral_group d ds day_bounds Nd) as (D1 & D2 & D3).
  unfold tryPattern3, pattern3, digits, letters.
  change (ds ++ "-" ++ mon ++ "-" ++ ys) with (ds ++ String "-" (mon ++ String "-" ys)).
  rewrite (matchWhole_three Digit 1 2 "-" Letter 3 3 "-" Digit 2 4);
    try assumption; try reflexivity; try lia.
  rewrite M3, D3. destruct (parseInt ys) as [yr|]; [|discriminate].
  injection Y3 as ->. apply checked_day.
Qed.

Lemma parseDateStr_represents h s :
  represents y m d s -> parseDateStr h s = Some date.
Proof.
  intros R.
  assert (Hd := day_bounds). assert (Hm := month_bounds).
  destruct (digitGroup_spec _ _ _ _ (year_numerals y Hy)) as (Y1 & Y2 & Y3).
  unfold parseDateStr.
  destruct R as [ms ds Nm Nd | ds ms ys Nd Nm Ny | ds mon ys Nd Nm Ny].
  - destruct (numeral_group m ms Hm Nm) as (M1 & M2 & M3).
    destruct (numeral_group d ds Hd Nd) as (D1 & D2 & D3).
    rewrite trim_noSpace.
    + replace (String.eqb _ "") with false
        by (rewrite (fourDigits_year y Hy); destruct (decString y); [discriminate | reflexivity]).
      now rewrite tryPattern1_iso.
    + rewrite (fourDigits_year y Hy), !allChars_app, (digits_noSpace _ Y1), (digits_noSpace _ M1),
        (digits_noSpace _ D1). reflexivity.
  - destruct (yearText_group y ys Hy Ny) as (Z1 & Z2 & Z3).
    destruct (numeral_group m ms Hm Nm) as (M1 & M2 & M3).
    destruct (numeral_group d ds Hd Nd) as (D1 & D2 & D3).
    rewrite trim_noSpace.
    + replace (String.eqb _ "") with false
        by (destruct ds; [simpl in D2; lia | reflexivity]).
      change (ds ++ "/" ++ ms ++ "/" ++ ys) with (ds ++ String "/" (ms ++ "/" ++ ys)).
      rewrite tryPattern1_not_iso by (reflexivity || lia).
      cbn [orElse]. change (ds ++ String "/" (ms ++ "/" ++ ys)) with (ds ++ "/" ++ ms ++ "/" ++ ys).
      now rewrite tryPattern2_slash.
    + rewrite !allChars_app, (digits_noSpace _ Z1), (digits_noSpace _ M1),
        (digits_noSpace _ D1). reflexivity.
  - destruct (yearText_group y ys Hy Ny) as (Z1 & Z2 & Z3).
    destruct (monthAbbrev_group m mon (proj1 Hv) Nm) as (M1 & M2 & M3).
    destruct (numeral_group d ds Hd Nd) as (D1 & D2 & D3).
    rewrite trim_noSpace.
    + replace (String.eqb _ "") with false
        by (destruct ds; [simpl in D2; lia | reflexivity]).
      change (ds ++ "-" ++ mon ++ "-" ++ ys) with (ds ++ String "-" (mon ++ "-" ++ ys)).
      rewrite tryPattern1_not_iso by (reflexivity || lia).
      rewrite tryPattern2_not_slash by assumption.
      cbn [orElse]. change (ds ++ String "-" (mon ++ "-" ++ ys)) with (ds ++ "-" ++ mon ++ "-" ++ ys).
      now rewrite tryPattern3_named.
    + rewrite !allChars_app, (digits_noSpace _ Z1), (letters_noSpace _ M1),
        (digits_noSpace _ D1). reflexivity.
Qed.

End Roundtrip.

(** Claim C3, for the years 1000 to 9999.  Let [(y, m, d)] be a valid
    calendar day of these years and [s] any text that writes it in one of the
    supported forms: year-month-day with a four-digit year, day/month/year, or
    day-Mon-year with the English month abbreviation in any mix of cases; day
    and month plain or padded to two digits; in the last two forms the year
    with four digits or, for 2000 to 2099, with its last two.  Then
    [parseDate] gives midnight UTC of that day, whatever the host, and
    [formatDate] of the result is the zero-padded [YYYY-MM-DD] of the day.
    [formatDate] is the inverse of the parse of pattern 1: the text it gives
    for the day is read back by pattern 1 as the same date. *)
Theorem parseDate_formatDate_roundtrip (h : Host) (y m d : Z) (s : string) :
  1000 <= y <= 9999 -> validDay y m d -> represents y m d s ->
  parseDate h (VStr s) = Some (midnightOf y m d) /\
  option_map formatDate (parseDate h (VStr s)) = Some (canonical y m d) /\
  formatDate (midnightOf y m d) = canonical y m d /\
  tryPattern1 (canonical y m d) = Some (midnightOf y m d) /\
  parseDate h (VStr (formatDate (midnightOf y m d))) = Some (midnightOf y m d).
Proof.
  intros Hy Hv R.
  assert (P : forall s', represents y m d s' ->
                         parseDate h (VStr s') = Some (midnightOf y m d)).
  { intros s' R'. cbn [parseDate toStr]. exact (parseDateStr_represents y m d Hy Hv h s' R'). }
  assert (F : formatDate (midnightOf y m d) = canonical y m d)
    by exact (formatDate_day y m d Hy Hv).
  assert (I : represents y m d (canonical y m d))
    by (apply rep_iso; right; reflexivity).
  split; [exact (P s R)|]. split; [rewrite (P s R); cbn [option_map]; now rewrite F|].
  split; [exact F|]. split.
  - apply (tryPattern1_iso y m d Hy Hv); right; reflexivity.
  - rewrite F. exact (P _ I).
Qed.

(** The claim on ["08-Nov-25"], the eighth of November 2025. *)
Lemma parseDate_formatDate_roundtrip_witness :
  option_map formatDate (parseDate Examples.utcHost (VStr "08-Nov-25")) = Some "2025-11-08".
Proof.
  apply (parseDate_formatDate_roundtrip Examples.utcHost 2025 11 8 "08-Nov-25").
  - lia.
  - split; [lia | vm_compute; split; discriminate].
  - apply (rep_named 2025 11 8 "08" "Nov" "25").
    + right. reflexivity.
    + reflexivity.
    + right. split; [lia | reflexivity].
Defined.

(** C3 as stated fails for the years below 100: a year whose value is below
    100 is read as 2000 plus that value, however many digits write it.  The
    first of January of the year 50, written day/month/year with a four-digit
    year, comes back as the first of January 2050. *)
Lemma parseDate_formatDate_year_below_100 :
  validDay 50 1 1 /\ represents 50 1 1 "01/01/0050" /\
  canonical 50 1 1 = "0050-01-01" /\
  (forall h, option_map formatDate (parseDate h (VStr "01/01/0050")) = Some "2050-01-01") /\
  option_map formatDate (parseDate Examples.utcHost (VStr "01/01/0050"))
  <> Some (canonical 50 1 1).
Proof.
  split; [split; [lia | vm_compute; split; discriminate]|].
  split; [apply (rep_slash 50 1 1 "01" "01" "0050");
          [right; reflexivity | right; reflexivity | left; reflexivity]|].
  split; [reflexivity|].
  split; [intros h; reflexivity|].
  vm_compute. discriminate.
Qed.

(** The year is written without padding: below the year 1000 the text that
    [formatDate] gives has fewer than four year digits. *)
Lemma formatDate_year_999 :
  option_map formatDate (parseDate Examples.utcHost (VStr "0999-01-01")) = Some "999-01-01".
Proof. reflexivity. Qed.

(** ** The fields of a day number *)

Lemma YearFromDay_spec n :
  DayFromYear (YearFromDay n) <= n < DayFromYear (YearFromDay n + 1).
Proof.
  unfold YearFromDay.
  set (y0 := 1970 + 400 * n / 146097).
  assert (H0 : DayFromYear (y0 - 1) <= n < DayFromYear (y0 + 2)).
  { subst y0. unfold DayFromYear. Z.div_mod_to_equations. lia. }
  destruct (Z.ltb_spec n (DayFromYear y0)).
  - replace (y0 - 1 + 1) with y0 by lia. lia.
  - destruct (Z.leb_spec (DayFromYear (y0 + 1)) n).
    + replace (y0 + 1 + 1) with (y0 + 2) by lia. lia.
    + lia.
Qed.

Lemma fields_valid n :
  let y := YearFromDay n in
  let m := MonthFromDay n in
  let d := DateFromDay n in
  0 <= m <= 11 /\ 1 <= d <= daysInMonth y (m + 1) /\ MakeDay y m d = n.
Proof.
  intros y m d.
  pose proof (YearFromDay_spec n) as S. fold y in S.
  rewrite DayFromYear_succ, DaysInYear_leapDay in S.
  assert (W : 0 <= DayWithinYear n < 365 + leapDay y) by (unfold DayWithinYear; fold y; lia).
  assert (M : 0 <= m <= 11 /\
              monthStart (leapDay y) m <= DayWithinYear n < monthStart (leapDay y) (m + 1)).
  { unfold m, MonthFromDay. fold y.
    destruct (leapDay_cases y) as [L|L]; rewrite L in *;
      repeat match goal with
             | |- context [?a <? ?b] => destruct (Z.ltb_spec a b)
             end; cbn; lia. }
  destruct M as [M1 M2].
  assert (D : d = DayWithinYear n - monthStart (leapDay y) m + 1) by reflexivity.
  split; [exact M1|]. split.
  - unfold daysInMonth. replace (m + 1 - 1) with m by lia. lia.
  - unfold MakeDay. rewrite (Z.div_small m 12), (Z.mod_small m 12), Z.add_0_r by lia.
    unfold DayWithinYear in D. fold y in D. lia.
Qed.

(** [formatDate] undoes the parse of pattern 1, and the parse of pattern 1
    undoes [formatDate], on the midnights of the years 1000 to 9999. *)
Lemma parseDate_formatDate_inverse (h : Host) (n : Z) :
  1000 <= YearFromDay n <= 9999 ->
  parseDate h (VStr (formatDate (Some (n * msPerDay)))) = Some (Some (n * msPerDay)).
Proof.
  intros Hy. destruct (fields_valid n) as (Hm & Hd & Hn).
  set (y := YearFromDay n) in *. set (m := MonthFromDay n) in *. set (d := DateFromDay n) in *.
  assert (Hv : validDay y (m + 1) d) by (split; [lia | exact Hd]).
  rewrite <- Hn at 1. rewrite formatDate_MakeDay by assumption.
  cbn [parseDate toStr].
  rewrite (parseDateStr_represents y (m + 1) d Hy Hv h).
  - unfold midnightOf. replace (m + 1 - 1) with m by lia. now rewrite Hn.
  - apply rep_iso; right; reflexivity.
Qed.

(** ** parseDate and null *)

Lemma tryPattern1_no_match s : matchWhole pattern1 s = None -> tryPattern1 s = None.
Proof. unfold tryPattern1. now intros ->. Qed.

Lemma tryPattern2_no_match s : matchWhole pattern2 s = None -> tryPattern2 s = None.
Proof. unfold tryPattern2. now intros ->. Qed.

Lemma tryPattern3_no_match s : matchWhole pattern3 s = None -> tryPattern3 s = None.
Proof. unfold tryPattern3. now intros ->. Qed.

Lemma fallback_None h s : fallback h s = None <-> date_parse h s = None.
Proof.
  unfold fallback, getTime. destruct (date_parse h s); split; congruence.
Qed.

Lemma orElse_None {A} (a b : option A) : orElse a b = None <-> a = None /\ b = None.
Proof. destruct a; simpl; split; try tauto; try (intros [H _]; discriminate); discriminate. Qed.

(** Claim C2, as the code has it.  [parseDate] gives null for a string
    exactly when its trimmed text is empty, or none of the three patterns
    gives a date that round-trips and the parser of the host rejects the
    trimmed text as well.  In particular it gives null when no pattern matches
    and the parser of the host fails, and for ["invalid-date"] on every host
    whose parser rejects that text. *)
Theorem parseDate_null_iff (h : Host) (s : string) :
  (parseDate h (VStr s) = None <->
   trim s = "" \/
   (tryPattern1 (trim s) = None /\ tryPattern2 (trim s) = None /\
    tryPattern3 (trim s) = None /\ date_parse h (trim s) = None)) /\
  (matchWhole pattern1 (trim s) = None -> matchWhole pattern2 (trim s) = None ->
   matchWhole pattern3 (trim s) = None -> date_parse h (trim s) = None ->
   parseDate h (VStr s) = None) /\
  (date_parse h "invalid-date" = None -> parseDate h (VStr "invalid-date") = None).
Proof.
  assert (Hiff : forall s, parseDate h (VStr s) = None <->
             trim s = "" \/
             (tryPattern1 (trim s) = None /\ tryPattern2 (trim s) = None /\
              tryPattern3 (trim s) = None /\ date_parse h (trim s) = None)).
  { intros s0. cbn [parseDate toStr]. unfold parseDateStr.
    destruct (String.eqb_spec (trim s0) "") as [E|E].
    - split; [now left | reflexivity].
    - rewrite !orElse_None, fallback_None. split; [now right | intros [C|H]; [contradiction | exact H]]. }
  split; [apply Hiff|]. split.
  - intros H1 H2 H3 H4. apply Hiff. right.
    auto using tryPattern1_no_match, tryPattern2_no_match, tryPattern3_no_match.
  - intros H. apply Hiff. right. change (trim "invalid-date") with "invalid-date".
    repeat split; try reflexivity. exact H.
Qed.

(** The claim on ["invalid-date"] and on the 31st of April, which matches
    pattern 2, does not round-trip and is rejected by the parser of the
    example host. *)
Lemma parseDate_null_iff_witness :
  parseDate Examples.utcHost (VStr "invalid-date") = None /\
  parseDate Examples.utcHost (VStr "31/04/2025") = None.
Proof.
  split.
  - apply (proj2 (proj2 (parseDate_null_iff Examples.utcHost "invalid-date"))). reflexivity.
  - apply (proj1 (parseDate_null_iff Examples.utcHost "31/04/2025")). right.
    repeat split; reflexivity.
Defined.

(** Claim C2 as the specification words it fails: ["01/13/2025"] matches
    pattern 2, month 13 does not round-trip, and the result is not null: the
    fallback to the parser of the host, which reads month/day/year, gives the
    13th of January 2025. *)
Lemma parseDate_month_first_not_null :
  matchWhole pattern2 "01/13/2025" = Some ["01"; "13"; "2025"] /\
  checked 2025 (13 - 1) 1 = None /\
  parseDate Examples.utcHost (VStr "01/13/2025") = Some (Date_UTC 2025 0 13).
Proof. repeat split; reflexivity. Qed.

(** ** Square roots: the exact comparisons against the reals *)

Lemma Q2R_0 : Q2R 0 = 0%R.
Proof. unfold Q2R. simpl. Lra.lra. Qed.

Lemma Q2R_abs x : Q2R (Qabs x) = Rabs (Q2R x).
Proof.
  destruct (Qlt_le_dec x 0) as [H|H].
  - rewrite (Qeq_eqR _ _ (Qabs_neg x (Qlt_le_weak _ _ H))), Q2R_opp.
    apply Qlt_Rlt in H. rewrite Q2R_0 in H.
    rewrite Rabs_left; [reflexivity | exact H].
  - rewrite (Qeq_eqR _ _ (Qabs_pos x H)).
    apply Qle_Rle in H. rewrite Q2R_0 in H.
    rewrite Rabs_right; [reflexivity | now apply Rle_ge].
Qed.

Lemma signed_square_mono (x y : R) : (x <= y)%R <-> (x * Rabs x <= y * Rabs y)%R.
Proof.
  assert (M : forall a b : R, (a <= b)%R -> (a * Rabs a <= b * Rabs b)%R).
  { intros a b H.
    destruct (Rle_lt_dec 0 a) as [Ha|Ha]; destruct (Rle_lt_dec 0 b) as [Hb|Hb].
    - rewrite !Rabs_right by now apply Rle_ge. apply Rmult_le_compat; assumption.
    - Lra.lra.
    - rewrite (Rabs_left a Ha), (Rabs_right b) by now apply Rle_ge.
      assert (0 <= b * b)%R by now apply Rmult_le_pos.
      assert (0 <= a * a)%R by (apply Rle_0_sqr).
      Lra.lra.
    - rewrite !Rabs_left by assumption.
      assert ((- b) * (- b) <= (- a) * (- a))%R by (apply Rmult_le_compat; Lra.lra).
      Lra.lra. }
  split; [apply M|].
  intros H. destruct (Rle_lt_dec x y) as [L|L]; [exact L|].
  assert (Hyx := M y x (Rlt_le _ _ L)).
  assert (E : (x * Rabs x = y * Rabs y)%R) by Lra.lra.
  exfalso.
  destruct (Rle_lt_dec 0 y) as [Hy|Hy].
  - rewrite (Rabs_right x), (Rabs_right y) in E by (apply Rle_ge; Lra.lra).
    assert (y * y < x * x)%R by (apply Rmult_le_0_lt_compat; Lra.lra). Lra.lra.
  - destruct (Rle_lt_dec 0 x) as [Hx|Hx].
    + rewrite (Rabs_right x), (Rabs_left y) in E by (try apply Rle_ge; Lra.lra).
      assert (0 <= x * x)%R by (apply Rle_0_sqr).
      assert (0 < y * y)%R by (apply Rsqr_pos_lt; Lra.lra). Lra.lra.
    + rewrite (Rabs_left x), (Rabs_left y) in E by Lra.lra.
      assert ((- x) * (- x) < (- y) * (- y))%R by (apply Rmult_le_0_lt_compat; Lra.lra).
      Lra.lra.
Qed.

Lemma signedSquare_value (z : Surd.Quot) :
  (0 < Surd.rad z)%Q ->
  Q2R (Surd.signedSquare z) = (valueR z * Rabs (valueR z))%R.
Proof.
  intros Hr. unfold Surd.signedSquare, valueR.
  assert (Hr' : (0 < Q2R (Surd.rad z))%R) by (rewrite <- Q2R_0; now apply Qlt_Rlt).
  assert (Hs : (0 < R_sqrt.sqrt (Q2R (Surd.rad z)))%R) by now apply sqrt_lt_R0.
  rewrite Q2R_div, Q2R_mult, Q2R_abs by (intros C; rewrite C in Hr; discriminate).
  unfold Rdiv. rewrite Rabs_mult, (Rabs_right (/ _)) by (apply Rle_ge, Rlt_le, Rinv_0_lt_compat, Hs).
  rewrite <- (sqrt_sqrt (Q2R (Surd.rad z))) at 1 by Lra.lra.
  field. Lra.lra.
Qed.

Lemma signedSquare_const (c : Q) : Q2R (c * Qabs c) = (Q2R c * Rabs (Q2R c))%R.
Proof. now rewrite Q2R_mult, Q2R_abs. Qed.

Lemma geb_spec (z : Surd.Quot) (c : Q) :
  (0 < Surd.rad z)%Q -> (Surd.geb z c = true <-> (Q2R c <= valueR z)%R).
Proof.
  intros Hr. unfold Surd.geb.
  rewrite Qle_bool_iff, signed_square_mono, <- signedSquare_value, <- signedSquare_const by exact Hr.
  split; [apply Qle_Rle | apply Rle_Qle].
Qed.

(** ** Sums, means and variances *)

Lemma fold_plus_shift {A} (f : A -> Q) l : forall a,
  (fold_left (fun s v => s + f v) l a == a + fold_left (fun s v => s + f v) l 0)%Q.
Proof.
  induction l as [|x l IH]; intros a; simpl.
  - ring.
  - rewrite IH, (IH (0 + f x)%Q). ring.
Qed.

Lemma fold_plus_nonneg {A} (f : A -> Q) l :
  (forall x, In x l -> 0 <= f x)%Q -> (0 <= fold_left (fun s v => s + f v) l 0)%Q.
Proof.
  induction l as [|x l IH]; intros H; simpl; [apply Qle_refl|].
  rewrite fold_plus_shift.
  assert (0 <= f x)%Q by (apply H; now left).
  assert (0 <= fold_left (fun s v => s + f v) l 0)%Q by (apply IH; intros; apply H; now right).
  lra.
Qed.

Lemma lengthQ_nonneg {A} (l : list A) : (0 <= lengthQ l)%Q.
Proof.
  unfold lengthQ. change 0%Q with (inject_Z 0). rewrite <- Zle_Qle. lia.
Qed.

Lemma Qdiv_nonneg a b : (0 <= a -> 0 <= b -> 0 <= a / b)%Q.
Proof.
  intros Ha Hb. destruct (Qeq_dec b 0) as [E|E].
  - unfold Qdiv. rewrite E. unfold Qinv. simpl. lra.
  - assert (0 < b)%Q.
    { destruct (Qlt_le_dec 0 b); [assumption|]. exfalso. apply E. lra. }
    apply Qle_shift_div_l; [assumption | lra].
Qed.

Lemma variance_nonneg l : (0 <= Js.variance l)%Q.
Proof.
  unfold Js.variance. apply Qdiv_nonneg; [|apply lengthQ_nonneg].
  apply (fold_plus_nonneg (fun v => (v - Js.mean l) * (v - Js.mean l))%Q).
  intros x _. cbv beta. generalize (x - Js.mean l)%Q. intros q. nra.
Qed.

(** ** detectRecurring *)

Lemma groupPush_at k t g k' :
  groupAt k' (groupPush k t g) =
  if String.eqb k k' then (groupAt k' g ++ [t])%list else groupAt k' g.
Proof.
  induction g as [|[k0 l] g IH]; simpl.
  - destruct (String.eqb k k'); reflexivity.
  - destruct (String.eqb k0 k) eqn:E; simpl.
    + apply String.eqb_eq in E. subst k0.
      destruct (String.eqb k k'); reflexivity.
    + destruct (String.eqb k0 k') eqn:E'; [|exact IH].
      apply String.eqb_eq in E'. subst k'. rewrite String.eqb_sym, E. reflexivity.
Qed.

Lemma groupPush_keys k t g :
  map fst (groupPush k t g) =
  if memStr k (map fst g) then map fst g else (map fst g ++ [k])%list.
Proof.
  induction g as [|[k0 l] g IH]; simpl; [reflexivity|].
  rewrite (String.eqb_sym k). destruct (String.eqb k0 k) eqn:E; simpl; [reflexivity|].
  rewrite IH. unfold memStr. destruct (existsb (String.eqb k) (map fst g)); reflexivity.
Qed.

Lemma groupPush_nonempty k t g :
  (forall e, In e g -> snd e <> []) -> forall e, In e (groupPush k t g) -> snd e <> [].
Proof.
  induction g as [|[k0 l] g IH]; simpl; intros H e He.
  - destruct He as [<-|[]]. discriminate.
  - destruct (String.eqb k0 k).
    + destruct He as [<-|He]; [simpl; now destruct l | apply H; now right].
    + destruct He as [<-|He]; [apply (H (k0, l)); now left|].
      apply IH; [|exact He]. intros e' He'. apply H. now right.
Qed.

Lemma groupsFrom_at k transactions : forall g,
  groupAt k (groupsFrom transactions g) = (groupAt k g ++ members transactions k)%list.
Proof.
  induction transactions as [|t ts IH]; intros g; simpl.
  - now rewrite app_nil_r.
  - fold (groupsFrom ts (groupPush (normalizeDescription (description t)) t g)).
    rewrite IH, groupPush_at.
    destruct (String.eqb (normalizeDescription (description t)) k);
      [now rewrite <- app_assoc | reflexivity].
Qed.

Lemma groupsFrom_NoDup transactions : forall g,
  NoDup (map fst g) -> NoDup (map fst (groupsFrom transactions g)).
Proof.
  induction transactions as [|t ts IH]; intros g H; simpl; [exact H|].
  apply IH. rewrite groupPush_keys.
  destruct (memStr _ (map fst g)) eqn:E; [exact H|].
  apply NoDup_rev in H.
  rewrite <- (rev_involutive (map fst g ++ [_])), rev_app_distr. apply NoDup_rev.
  simpl. constructor; [|exact H].
  rewrite <- in_rev. intros Hin. apply memStr_In in Hin. congruence.
Qed.

Lemma groupsFrom_nonempty transactions : forall g,
  (forall e, In e g -> snd e <> []) ->
  forall e, In e (groupsFrom transactions g) -> snd e <> [].
Proof.
  induction transactions as [|t ts IH]; intros g H; simpl; [exact H|].
  apply IH. now apply groupPush_nonempty.
Qed.

Lemma groupAt_In k l g : NoDup (map fst g) -> In (k, l) g -> groupAt k g = l.
Proof.
  induction g as [|[k0 l0] g IH]; simpl; intros N H; [destruct H|].
  inversion N as [|? ? Hk N']; subst.
  destruct H as [H|H].
  - injection H as -> ->. now rewrite String.eqb_refl.
  - destruct (String.eqb_spec k0 k) as [->|_]; [|now apply IH].
    exfalso. apply Hk. change k with (fst (k, l)). now apply in_map.
Qed.

Lemma groupAt_nonempty_In k g : groupAt k g <> [] -> In (k, groupAt k g) g.
Proof.
  induction g as [|[k0 l0] g IH]; simpl; [congruence|].
  destruct (String.eqb_spec k0 k) as [->|_]; [now left | right; now apply IH].
Qed.

Lemma groupByDescription_spec transactions k l :
  In (k, l) (groupByDescription transactions) <-> l = members transactions k /\ l <> [].
Proof.
  unfold groupByDescription. fold (groupsFrom transactions []).
  assert (N : NoDup (map fst (groupsFrom transactions []))) by (apply groupsFrom_NoDup; constructor).
  assert (A := groupsFrom_at k transactions []). simpl in A.
  split.
  - intros H. split.
    + rewrite <- A. symmetry. now apply groupAt_In.
    + apply (groupsFrom_nonempty transactions [] (fun e (H : In e []) => match H with end) _ H).
  - intros [-> Hne]. rewrite <- A in *. now apply groupAt_nonempty_In.
Qed.

(** ** detectAnomalies *)

Lemma pushValue_at c v m c' :
  valuesAt c' (pushValue c v m) =
  if String.eqb c c' then (valuesAt c' m ++ [v])%list else valuesAt c' m.
Proof.
  induction m as [|[k l] m IH]; simpl.
  - destruct (String.eqb c c'); reflexivity.
  - destruct (String.eqb k c) eqn:E; simpl.
    + apply String.eqb_eq in E. subst k. destruct (String.eqb c c'); reflexivity.
    + destruct (String.eqb k c') eqn:E'; [|exact IH].
      apply String.eqb_eq in E'. subst c'. rewrite String.eqb_sym, E. reflexivity.
Qed.

Lemma pushValue_keys c v m :
  map fst (pushValue c v m) =
  if memStr c (map fst m) then map fst m else (map fst m ++ [c])%list.
Proof.
  induction m as [|[k l] m IH]; simpl; [reflexivity|].
  rewrite (String.eqb_sym c). destruct (String.eqb k c) eqn:E; simpl; [reflexivity|].
  rewrite IH. unfold memStr. destruct (existsb (String.eqb c) (map fst m)); reflexivity.
Qed.

Lemma valuesFrom_at c transactions : forall m,
  valuesAt c (valuesFrom transactions m) = (valuesAt c m ++ observations transactions c)%list.
Proof.
  unfold observations.
  induction transactions as [|t ts IH]; intros m; simpl.
  - now rewrite app_nil_r.
  - fold (valuesFrom ts (if Qgtb 0 (amount t)
                         then pushValue (category t) (Qabs (amount t)) m else m)).
    rewrite IH. destruct (Qgtb 0 (amount t)); simpl; [|reflexivity].
    rewrite pushValue_at. destruct (String.eqb (category t) c); simpl;
      [now rewrite <- app_assoc | reflexivity].
Qed.

Lemma valuesFrom_NoDup transactions : forall m,
  NoDup (map fst m) -> NoDup (map fst (valuesFrom transactions m)).
Proof.
  induction transactions as [|t ts IH]; intros m H; simpl; [exact H|].
  apply IH. destruct (Qgtb 0 (amount t)); [|exact H].
  rewrite pushValue_keys. destruct (memStr _ (map fst m)) eqn:E; [exact H|].
  apply NoDup_rev in H.
  rewrite <- (rev_involutive (map fst m ++ [_])), rev_app_distr. apply NoDup_rev.
  simpl. constructor; [|exact H].
  rewrite <- in_rev. intros Hin. apply memStr_In in Hin. congruence.
Qed.

Lemma lookup_app_l {V} k (a b : list (string * V)) v :
  lookup k a = Some v -> lookup k (a ++ b)%list = Some v.
Proof.
  unfold lookup. induction a as [|[k0 v0] a IH]; simpl; [discriminate|].
  destruct (String.eqb k0 k); [auto | exact IH].
Qed.

Lemma lookup_app_r {V} k (a b : list (string * V)) :
  lookup k a = None -> lookup k (a ++ b)%list = lookup k b.
Proof.
  unfold lookup. induction a as [|[k0 v0] a IH]; simpl; [reflexivity|].
  destruct (String.eqb k0 k); [discriminate | exact IH].
Qed.

Lemma valuesAt_notin c (m : list (string * list Q)) :
  ~ In c (map fst m) -> valuesAt c m = [].
Proof.
  induction m as [|[k l] m IH]; simpl; [reflexivity|].
  intros H. destruct (String.eqb_spec k c) as [->|_]; [exfalso; auto | apply IH; auto].
Qed.

Lemma statsFrom_lookup values c : forall m,
  NoDup (map fst values) ->
  (forall k, In k (map fst values) -> lookup k m = None) ->
  lookup c (statsFrom values m) =
  match lookup c m with
  | Some s => Some s
  | None => computeStats (valuesAt c values)
  end.
Proof.
  induction values as [|[k l] values IH]; intros m N F.
  - simpl. destruct (lookup c m); [reflexivity|]. reflexivity.
  - inversion N as [|? ? Hk N']; subst. cbn [statsFrom fold_left fst snd].
    fold (statsFrom values (match computeStats l with
                            | Some stats => (m ++ [(k, stats)])%list
                            | None => m
                            end)).
    rewrite IH; [|exact N'|].
    + cbn [valuesAt]. destruct (String.eqb_spec k c) as [->|Hne].
      * rewrite (F c (or_introl eq_refl)).
        destruct (computeStats l) as [st|] eqn:E.
        -- rewrite lookup_app_r by (apply F; now left).
           unfold lookup. simpl. now rewrite String.eqb_refl.
        -- rewrite (F c (or_introl eq_refl)).
           now rewrite (valuesAt_notin _ _ Hk).
      * destruct (computeStats l) as [st|]; [|reflexivity].
        destruct (lookup c m) eqn:E.
        -- now rewrite (lookup_app_l _ _ _ _ E).
        -- rewrite (lookup_app_r _ _ _ E). unfold lookup. simpl.
           apply String.eqb_neq in Hne. now rewrite Hne.
    + intros k' Hk'. destruct (computeStats l); [|apply F; now right].
      rewrite lookup_app_r by (apply F; now right).
      unfold lookup. simpl. destruct (String.eqb_spec k k') as [->|_]; [contradiction | reflexivity].
Qed.

Lemma categoryStats_lookup transactions c :
  lookup c (categoryStats (categoryValues transactions)) =
  computeStats (observations transactions c).
Proof.
  unfold categoryStats, categoryValues.
  fold (valuesFrom transactions []). fold (statsFrom (valuesFrom transactions []) []).
  rewrite statsFrom_lookup.
  - simpl. now rewrite valuesFrom_at.
  - apply valuesFrom_NoDup. constructor.
  - reflexivity.
Qed.

Lemma Qeq_bool_false x y : Qeq_bool x y = false <-> ~ (x == y)%Q.
Proof.
  split.
  - intros H C. apply Qeq_bool_iff in C. congruence.
  - intros H. destruct (Qeq_bool x y) eqn:E; [|reflexivity].
    apply Qeq_bool_iff in E. contradiction.
Qed.

Lemma computeStats_spec values st :
  computeStats values = Some st <->
  (5 <= List.length values)%nat /\ ~ (Js.variance values == 0)%Q /\
  st = {| mean := Js.mean values; variance := Js.variance values |}.
Proof.
  unfold computeStats.
  destruct (Nat.ltb_spec (List.length values) 5).
  - split; [discriminate | intros [H1 _]; lia].
  - destruct (Qeq_bool (Js.variance values) 0) eqn:E.
    + apply Qeq_bool_iff in E. split; [discriminate | intros (_ & C & _); contradiction].
    + apply Qeq_bool_false in E. split.
      * intros [= <-]. auto.
      * intros (_ & _ & ->). reflexivity.
Qed.

Lemma variance_pos l : ~ (Js.variance l == 0)%Q -> (0 < Js.variance l)%Q.
Proof.
  intros H. pose proof (variance_nonneg l) as N.
  destruct (Qlt_le_dec 0 (Js.variance l)); [assumption|].
  exfalso. apply H. lra.
Qed.

Lemma flag_spec transactions zM zS t r :
  flag (categoryStats (categoryValues transactions)) zM zS t = Some r <->
  flagged transactions zM t /\ r = anomalyOf transactions zS t.
Proof.
  unfold flag, flagged. rewrite categoryStats_lookup.
  destruct (Qgtb 0 (amount t)) eqn:Ea.
  - apply Qgtb_true in Ea.
    destruct (computeStats (observations transactions (category t))) as [st|] eqn:Es.
    + apply computeStats_spec in Es. destruct Es as (H5 & Hv & ->). cbn [mean variance].
      fold (zOf transactions t).
      assert (Hr : (0 < Surd.rad (zOf transactions t))%Q) by (apply variance_pos, Hv).
      destruct (Surd.geb (zOf transactions t) zM) eqn:Eg.
      * apply (geb_spec _ _ Hr) in Eg. split.
        -- intros [= <-]. split; [auto | reflexivity].
        -- intros [_ ->]. reflexivity.
      * split; [discriminate|]. intros [(_ & _ & _ & C) _].
        apply (geb_spec _ _ Hr) in C. congruence.
    + split; [discriminate|]. intros [(_ & H5 & Hv & _) _].
      assert (C : computeStats (observations transactions (category t)) =
                  Some {| mean := Js.mean (observations transactions (category t));
                          variance := Js.variance (observations transactions (category t)) |})
        by (apply computeStats_spec; auto).
      congruence.
  - apply Qgtb_false in Ea. split; [discriminate|]. intros [(C & _) _]. lra.
Qed.

Lemma detectAnomalies_In transactions zM zS r :
  In r (detectAnomalies transactions zM zS) <->
  exists t, In t transactions /\ flagged transactions zM t /\ r = anomalyOf transactions zS t.
Proof.
  unfold detectAnomalies. rewrite sortBy_In, filterMap_In.
  split; intros [t [Ht H]]; exists t; (split; [exact Ht|]); now apply flag_spec.
Qed.

Lemma StronglySorted_weaken {A} (R1 R2 : A -> A -> Prop) l :
  (forall a b, In a l -> In b l -> R1 a b -> R2 a b) ->
  StronglySorted R1 l -> StronglySorted R2 l.
Proof.
  intros H S. induction S as [|a l S IH F]; constructor.
  - apply IH. intros x y Hx Hy. apply H; now right.
  - rewrite Forall_forall in *. intros b Hb. apply H; [now left | now right | auto].
Qed.

(** ** Decimal text *)

Lemma decDigits_acc f : forall n acc, decDigits f n acc = decDigits f n "" ++ acc.
Proof.
  induction f as [|f IH]; intros n acc; [reflexivity|].
  cbn [decDigits]. destruct (n <? 10); [reflexivity|].
  rewrite IH, (IH _ (String _ "")), append_assoc. reflexivity.
Qed.

Lemma decDigits_fuel f1 : forall f2 n acc,
  0 <= n -> n < 2 ^ Z.of_nat (S f1) -> n < 2 ^ Z.of_nat (S f2) ->
  decDigits (S f1) n acc = decDigits (S f2) n acc.
Proof.
  induction f1 as [|f1 IH]; intros f2 n acc H0 H1 H2.
  - change (2 ^ Z.of_nat 1) with 2 in H1.
    cbn [decDigits]. destruct (Z.ltb_spec n 10); [reflexivity | lia].
  - cbn [decDigits]. destruct (Z.ltb_spec n 10) as [|H10]; [reflexivity|].
    destruct f2 as [|f2].
    + change (2 ^ Z.of_nat 1) with 2 in H2. lia.
    + apply IH.
      * apply Z.div_pos; lia.
      * rewrite Nat2Z.inj_succ, Z.pow_succ_r in H1 by lia.
        apply Z.div_lt_upper_bound; lia.
      * rewrite Nat2Z.inj_succ, Z.pow_succ_r in H2 by lia.
        apply Z.div_lt_upper_bound; lia.
Qed.

Lemma log2_fuel n : 0 <= n -> n < 2 ^ Z.of_nat (S (Z.to_nat (Z.log2 n))).
Proof.
  intros H. rewrite Nat2Z.inj_succ, Z2Nat.id by apply Z.log2_nonneg.
  destruct (Z.eq_dec n 0) as [->|N]; [reflexivity|].
  apply Z.log2_spec. lia.
Qed.

Lemma decString_nonneg n :
  0 <= n -> decString n = decDigits (S (Z.to_nat (Z.log2 n))) n "".
Proof.
  intros H. unfold decString. rewrite Z.abs_eq by exact H.
  destruct (Z.ltb_spec n 0); [lia | reflexivity].
Qed.

Lemma decString_digit n : 0 <= n < 10 -> decString n = String (digitChar n) "".
Proof.
  intros H. rewrite decString_nonneg by lia. cbn [decDigits].
  destruct (Z.ltb_spec n 10); [|lia]. now rewrite Z.mod_small by lia.
Qed.

Lemma decString_step n :
  10 <= n -> decString n = decString (n / 10) ++ String (digitChar (n mod 10)) "".
Proof.
  intros H. assert (H0 : 0 <= n / 10) by (apply Z.div_pos; lia).
  rewrite !decString_nonneg by lia.
  cbn [decDigits]. destruct (Z.ltb_spec n 10); [lia|].
  rewrite decDigits_acc. f_equal.
  assert (L : 1 <= Z.log2 n) by (apply Z.log2_le_pow2; lia).
  destruct (Z.to_nat (Z.log2 n)) as [|f] eqn:E; [lia|].
  apply decDigits_fuel; [exact H0 | | apply log2_fuel; exact H0].
  pose proof (log2_fuel n ltac:(lia)) as B. rewrite E in B.
  rewrite (Nat2Z.inj_succ (S f)), Z.pow_succ_r in B by lia.
  apply Z.div_lt_upper_bound; lia.
Qed.

Lemma decString_length n : 0 <= n -> (1 <= String.length (decString n))%nat.
Proof.
  intros H. destruct (Z.lt_ge_cases n 10).
  - rewrite decString_digit by lia. simpl. lia.
  - rewrite decString_step, length_append by lia. simpl. lia.
Qed.

Lemma twoDigits_digits m :
  0 <= m < 100 ->
  twoDigits m = String (digitChar (m / 10)) (String (digitChar (m mod 10)) "").
Proof.
  intros H. unfold twoDigits. destruct (Z.lt_ge_cases m 10).
  - rewrite decString_digit, Z.div_small, Z.mod_small by lia. reflexivity.
  - rewrite decString_step by lia.
    rewrite (decString_digit (m / 10))
      by (split; [apply Z.div_pos; lia | apply Z.div_lt_upper_bound; lia]).
    reflexivity.
Qed.

Lemma take_app a b : take (String.length a) (a ++ b) = a.
Proof. induction a; simpl; [now destruct b | congruence]. Qed.

Lemma substring_app a b : substring (String.length a) (String.length b) (a ++ b) = b.
Proof.
  induction a as [|c a IH]; simpl; [|exact IH].
  induction b as [|c b IHb]; simpl; [reflexivity | congruence].
Qed.

Lemma toFixed2_digits n :
  0 <= n ->
  let m := padStart 3 "0" (decString n) in
  take (String.length m - 2) m ++ "." ++ substring (String.length m - 2) 2 m
  = decString (n / 100) ++ "." ++ twoDigits (n mod 100).
Proof.
  intros H m. subst m.
  assert (Hm : 0 <= n mod 100 < 100) by (apply Z.mod_pos_bound; lia).
  rewrite (twoDigits_digits _ Hm).
  destruct (Z.lt_ge_cases n 10) as [A|A]; [|destruct (Z.lt_ge_cases n 100) as [B|B]].
  - rewrite (Z.div_small n 100), (Z.mod_small n 100), (Z.div_small n 10), (Z.mod_small n 10) by lia.
    rewrite decString_digit by lia. reflexivity.
  - rewrite (Z.div_small n 100), (Z.mod_small n 100) by lia.
    rewrite decString_step by lia.
    rewrite (decString_digit (n / 10))
      by (split; [apply Z.div_pos; lia | apply Z.div_lt_upper_bound; lia]).
    reflexivity.
  - assert (E : decString n = decString (n / 100)
                  ++ String (digitChar (n mod 100 / 10)) (String (digitChar (n mod 100 mod 10)) "")).
    { rewrite (decString_step n) by lia.
      assert (10 <= n / 10) by (apply Z.div_le_lower_bound; lia).
      rewrite (decString_step (n / 10)) by lia.
      rewrite Z.div_div by lia. change (10 * 10) with 100.
      rewrite append_assoc. cbn [append].
      replace (n mod 100 / 10) with ((n / 10) mod 10)
        by (Z.div_mod_to_equations; lia).
      replace (n mod 100 mod 10) with (n mod 10)
        by (Z.div_mod_to_equations; lia).
      reflexivity. }
    rewrite E.
    set (A0 := decString (n / 100)).
    set (tail := String (digitChar (n mod 100 / 10)) (String (digitChar (n mod 100 mod 10)) "")).
    assert (La : (1 <= String.length A0)%nat)
      by (apply decString_length, Z.div_pos; lia).
    assert (Lt : String.length tail = 2%nat) by reflexivity.
    unfold padStart. rewrite (length_append A0 tail), Lt.
    replace (3 - (String.length A0 + 2))%nat with O by lia.
    cbn [repeatChar append]. rewrite (length_append A0 tail), Lt.
    replace (String.length A0 + 2 - 2)%nat with (String.length A0) by lia.
    rewrite take_app, <- Lt. now rewrite substring_app.
Qed.

Lemma toFixed2_nonneg x :
  (0 <= x)%Q ->
  toFixed2 x = decString (cents x / 100) ++ "." ++ twoDigits (cents x mod 100).
Proof.
  intros H. unfold toFixed2.
  assert (E : Qle_bool 0 x = true) by now apply Qle_bool_iff.
  rewrite E. cbn [negb]. fold (cents x).
  apply toFixed2_digits. unfold cents.
  change 0 with (Qfloor 0). apply Qfloor_resp_le. nra.
Qed.

Lemma toFixed2_neg x :
  (x < 0)%Q -> toFixed2 x = String "-" (toFixed2 (- x)).
Proof.
  intros H. unfold toFixed2 at 1.
  assert (E : Qle_bool 0 x = false).
  { destruct (Qle_bool 0 x) eqn:E; [|reflexivity]. apply Qle_bool_iff in E. lra. }
  rewrite E. cbn [negb]. f_equal.
  unfold toFixed2.
  assert (E' : Qle_bool 0 (- x) = true) by (apply Qle_bool_iff; lra).
  rewrite E'. reflexivity.
Qed.

Lemma trimStart_blank pre s : blank pre = true -> trimStart (pre ++ s) = trimStart s.
Proof.
  unfold blank. induction pre as [|c pre IH]; [reflexivity|].
  cbn [allChars append trimStart]. intros H. apply andb_true_iff in H.
  destruct H as [Hc Hp]. rewrite Hc. now apply IH.
Qed.

Lemma trimEnd_blank post : blank post = true -> trimEnd post = "".
Proof.
  unfold blank. induction post as [|c post IH]; [reflexivity|].
  cbn [allChars trimEnd]. intros H. apply andb_true_iff in H. destruct H as [Hc Hp].
  now rewrite (IH Hp), Hc.
Qed.

Lemma trimEnd_app_blank s post : blank post = true -> trimEnd (s ++ post) = trimEnd s.
Proof.
  intros H. induction s as [|c s IH]; [now apply trimEnd_blank|].
  cbn [append trimEnd]. now rewrite IH.
Qed.

Lemma trimEnd_lastChar c s : isSpace (lastChar c s) = false -> trimEnd (String c s) = String c s.
Proof.
  revert c. induction s as [|c' s IH]; intros c H.
  - cbn [lastChar] in H. cbn [trimEnd]. now rewrite H.
  - cbn [lastChar] in H. specialize (IH c' H).
    change (match trimEnd (String c' s) with
            | EmptyString => if isSpace c then EmptyString else String c EmptyString
            | String a r => String c (String a r)
            end = String c (String c' s)).
    rewrite IH. reflexivity.
Qed.

Lemma trim_padded pre s post :
  blank pre = true -> blank post = true -> edged s = true -> trim (pre ++ s ++ post) = s.
Proof.
  intros Hpre Hpost He. unfold trim. rewrite (trimStart_blank _ _ Hpre).
  destruct s as [|c s].
  - cbn [append].
    assert (E : trimStart post = "").
    { clear - Hpost. unfold blank in Hpost. induction post as [|c post IH]; [reflexivity|].
      cbn [allChars trimStart] in *. apply andb_true_iff in Hpost. destruct Hpost as [Hc Hp].
      rewrite Hc. now apply IH. }
    now rewrite E.
  - cbn [edged] in He. apply andb_true_iff in He. destruct He as [H1 H2].
    apply negb_true_iff in H1, H2.
    cbn [append trimStart]. rewrite H1.
    change (String c (s ++ post)) with (String c s ++ post).
    rewrite (trimEnd_app_blank _ _ Hpost). now apply trimEnd_lastChar.
Qed.

(** ** makeTransactionKey and filterDuplicateStaged *)

(** Claim C6.  The key of a transaction is its trimmed date, ["|"], its
    trimmed description in lower case, ["|"], and its amount with two
    decimals: for an amount that is not negative, the hundredths nearest to
    it written as integer part, point and two digits, and for a negative
    amount a minus sign before the text of its opposite.  Trimming takes
    the white space away at both ends: for a date and a description of ASCII
    characters that are white space, a text without white space at its ends,
    and white space again, the key is made of the two texts in the middle.
    [filterDuplicateStaged] partitions the staged transactions by membership
    of their key in the set of keys: [newOnes] is the sublist of those whose
    key is not in the set, in the order of the input, and [duplicateCount] the
    number of those whose key is in it.  With one staged transaction whose key
    is in the set and one whose key is not, [duplicateCount] is 1 and
    [newOnes] holds the second only; white space around the date and the
    description of the first does not change its key. *)
Theorem makeTransactionKey_filterDuplicateStaged_partition :
  (forall t, makeTransactionKey t =
             trim (date t) ++ "|" ++ toLowerCase (trim (description t)) ++ "|"
             ++ toFixed2 (amount t)) /\
  (forall x, (0 <= x)%Q ->
             toFixed2 x = decString (cents x / 100) ++ "." ++ twoDigits (cents x mod 100)) /\
  (forall x, (x < 0)%Q -> toFixed2 x = String "-" (toFixed2 (- x))) /\
  (forall t pre d post pre' s post',
      blank pre = true -> blank post = true -> edged d = true -> isAscii d = true ->
      blank pre' = true -> blank post' = true -> edged s = true -> isAscii s = true ->
      date t = pre ++ d ++ post -> description t = pre' ++ s ++ post' ->
      makeTransactionKey t = d ++ "|" ++ toLowerCase s ++ "|" ++ toFixed2 (amount t)) /\
  (forall staged existingKeys,
      let r := filterDuplicateStaged staged existingKeys in
      newOnes r = filter (fun t => negb (memStr (makeTransactionKey t) existingKeys)) staged /\
      duplicateCount r =
        List.length (filter (fun t => memStr (makeTransactionKey t) existingKeys) staged) /\
      (forall t, In t (newOnes r) <-> In t staged /\ ~ In (makeTransactionKey t) existingKeys) /\
      (duplicateCount r + List.length (newOnes r) = List.length staged)%nat) /\
  makeTransactionKey staged_base = "2025-03-01|test item|123.46" /\
  makeTransactionKey staged_padded = "2025-03-01|test item|123.46" /\
  filterDuplicateStaged [staged_base; staged_other] [makeTransactionKey staged_base]
  = {| newOnes := [staged_other]; duplicateCount := 1 |}.
Proof.
  split; [reflexivity|]. split; [exact toFixed2_nonneg|]. split; [exact toFixed2_neg|].
  split.
  { intros t pre d post pre' s post' B1 B2 E1 _ B3 B4 E2 _ Hd Hs.
    unfold makeTransactionKey. cbv zeta.
    now rewrite Hd, Hs, (trim_padded _ _ _ B1 B2 E1), (trim_padded _ _ _ B3 B4 E2). }
  split; [|split; [reflexivity | split; reflexivity]].
  intros staged keys r.
  destruct (filterDuplicateStaged_fold keys staged {| newOnes := []; duplicateCount := O |})
    as [H1 H2].
  cbv zeta in H1, H2. fold (filterDuplicateStaged staged keys) in H1, H2. fold r in H1, H2.
  simpl in H1, H2.
  split; [exact H1|]. split; [exact H2|]. split.
  - intros t. rewrite H1, filter_In, negb_true_iff. split; intros [Ha Hb]; split; auto.
    + intros C. apply memStr_In in C. congruence.
    + destruct (memStr (makeTransactionKey t) keys) eqn:E; [|reflexivity].
      apply memStr_In in E. contradiction.
  - rewrite H1, H2. clear. induction staged as [|t staged IH]; simpl; [reflexivity|].
    destruct (memStr (makeTransactionKey t) keys); simpl; lia.
Qed.

(** The amounts 123.456 and -3.5 with two decimals, and the key of a
    transaction with white space around its date and description. *)
Lemma makeTransactionKey_filterDuplicateStaged_partition_witness :
  toFixed2 (123456 # 1000) = "123.46" /\ toFixed2 (- (35 # 10)) = "-3.50" /\
  makeTransactionKey staged_padded
  = "2025-03-01" ++ "|" ++ toLowerCase "Test Item" ++ "|" ++ toFixed2 (123456 # 1000).
Proof.
  destruct makeTransactionKey_filterDuplicateStaged_partition as (_ & Hpos & Hneg & Htrim & _).
  split; [|split].
  - exact (Hpos (123456 # 1000) ltac:(unfold Qle; simpl; lia)).
  - exact (Hneg (- (35 # 10))%Q ltac:(unfold Qlt; simpl; lia)).
  - exact (Htrim staged_padded "  " "2025-03-01" " " (String "009" " ") "Test Item" "  "
             eq_refl eq_refl eq_refl eq_refl eq_refl eq_refl eq_refl eq_refl
             eq_refl eq_refl).
Defined.

(** ** The monthly totals of the forecast *)

Lemma addMonth_at k a m k' :
  let e := monthAt k' (addMonth k a m) in
  let e0 := monthAt k' m in
  (fst e == fst e0 + (if String.eqb k k' then (if Qle_bool 0 a then a else 0) else 0))%Q /\
  (snd e == snd e0 + (if String.eqb k k' then (if Qle_bool 0 a then 0 else Qabs a) else 0))%Q.
Proof.
  induction m as [|[k0 e1] m IH]; cbn [addMonth monthAt].
  - destruct (String.eqb k k'); destruct (Qle_bool 0 a); cbn [fst snd]; split; ring.
  - destruct (String.eqb k0 k) eqn:E; cbn [monthAt].
    + apply String.eqb_eq in E. subst k0.
      destruct (String.eqb k k'); destruct (Qle_bool 0 a); cbn [fst snd]; split; ring.
    + destruct (String.eqb k0 k') eqn:E'; [|exact IH].
      apply String.eqb_eq in E'. subst k'. rewrite String.eqb_sym, E. split; ring.
Qed.

Lemma monthsOf_at k transactions : forall m,
  (fst (monthAt k (monthsOf transactions m)) ==
   fst (monthAt k m) + monthTotal incomePart k transactions)%Q /\
  (snd (monthAt k (monthsOf transactions m)) ==
   snd (monthAt k m) + monthTotal expensePart k transactions)%Q.
Proof.
  unfold monthTotal, incomePart, expensePart.
  induction transactions as [|t ts IH]; intros m; cbn [monthsOf fold_left total].
  - split; ring.
  - fold (monthsOf ts (addMonth (take 7 (date t)) (amount t) m)).
    destruct (IH (addMonth (take 7 (date t)) (amount t) m)) as [H1 H2].
    destruct (addMonth_at (take 7 (date t)) (amount t) m k) as [A1 A2]. cbv zeta in A1, A2.
    rewrite H1, H2, A1, A2. split; ring.
Qed.

Lemma addMonth_NoDup k a m : NoDup (map fst m) -> NoDup (map fst (addMonth k a m)).
Proof.
  induction m as [|[k0 e] m IH]; cbn [addMonth map fst]; intros N.
  - repeat constructor. intros [].
  - inversion N as [|? ? Hk N']; subst.
    destruct (String.eqb k0 k) eqn:E; cbn [map fst]; [exact N|].
    constructor; [|now apply IH].
    intros Hin. apply addMonth_keys in Hin. destruct Hin as [Hin| ->]; [contradiction|].
    now rewrite String.eqb_refl in E.
Qed.

Lemma monthsOf_NoDup transactions : forall m,
  NoDup (map fst m) -> NoDup (map fst (monthsOf transactions m)).
Proof.
  induction transactions as [|t ts IH]; intros m N; cbn [monthsOf fold_left]; [exact N|].
  apply IH, addMonth_NoDup, N.
Qed.

Lemma monthAt_In k e m : NoDup (map fst m) -> In (k, e) m -> monthAt k m = e.
Proof.
  induction m as [|[k0 e0] m IH]; cbn [monthAt map fst]; intros N H; [destruct H|].
  inversion N as [|? ? Hk N']; subst.
  destruct H as [H|H].
  - injection H as -> ->. now rewrite String.eqb_refl.
  - destruct (String.eqb_spec k0 k) as [->|_]; [|now apply IH].
    exfalso. apply Hk. change k with (fst (k, e)). now apply in_map.
Qed.

Lemma aggregateMonthly_totals transactions a :
  In a (aggregateMonthly transactions) ->
  (m_income a == monthTotal incomePart (m_month a) transactions)%Q /\
  (m_expense a == monthTotal expensePart (m_month a) transactions)%Q /\
  (m_savings a == m_income a - m_expense a)%Q.
Proof.
  unfold aggregateMonthly. fold (monthsOf transactions []). intros H.
  apply in_map_iff in H. destruct H as [[k e] [<- H]]. cbn [m_income m_expense m_savings m_month fst snd].
  apply sortBy_In in H.
  pose proof (monthAt_In k e _ (monthsOf_NoDup transactions [] (NoDup_nil _)) H) as E.
  destruct (monthsOf_at k transactions []) as [H1 H2]. rewrite E in H1, H2.
  cbn [monthAt fst snd] in H1, H2.
  rewrite H1, H2. repeat split; ring.
Qed.

(** ** The order of canonical dates *)

Lemma compare_app a1 : forall a2 s1 s2,
  String.length a1 = String.length a2 ->
  String.compare (a1 ++ s1) (a2 ++ s2) =
  match String.compare a1 a2 with
  | Eq => String.compare s1 s2
  | c => c
  end.
Proof.
  induction a1 as [|x a1 IH]; intros [|y a2] s1 s2 H; try discriminate; [reflexivity|].
  cbn [append String.compare].
  destruct (Ascii.compare x y); [apply IH; now injection H | reflexivity | reflexivity].
Qed.

Lemma digitsValAcc_linear s : forall acc,
  digitsValAcc acc s = acc * 10 ^ Z.of_nat (String.length s) + digitsVal s.
Proof.
  unfold digitsVal. induction s as [|c s IH]; intros acc.
  - cbn. lia.
  - cbn [digitsValAcc String.length]. rewrite IH, (IH (10 * 0 + digitVal c)).
    rewrite Nat2Z.inj_succ, Z.pow_succ_r by lia. ring.
Qed.

Lemma isDigit_val c : isDigit c = true -> 0 <= digitVal c <= 9.
Proof.
  unfold isDigit, digitVal. rewrite andb_true_iff, !Z.leb_le. lia.
Qed.

Lemma digitsVal_bound s :
  allChars isDigit s = true -> 0 <= digitsVal s < 10 ^ Z.of_nat (String.length s).
Proof.
  induction s as [|c s IH]; intros H.
  - cbn. lia.
  - cbn [allChars] in H. apply andb_true_iff in H. destruct H as [Hc Hs].
    specialize (IH Hs). apply isDigit_val in Hc.
    unfold digitsVal. cbn [digitsValAcc String.length].
    rewrite digitsValAcc_linear, Nat2Z.inj_succ, Z.pow_succ_r by lia.
    nia.
Qed.

Lemma ascii_compare_val x y : Ascii.compare x y = (digitVal x ?= digitVal y).
Proof.
  unfold Ascii.compare, digitVal, code.
  destruct (N.compare_spec (N_of_ascii x) (N_of_ascii y)); symmetry;
    [apply Z.compare_eq_iff | apply Z.compare_lt_iff | apply Z.compare_gt_iff]; lia.
Qed.

Lemma digits_compare s1 : forall s2,
  allChars isDigit s1 = true -> allChars isDigit s2 = true ->
  String.length s1 = String.length s2 ->
  String.compare s1 s2 = (digitsVal s1 ?= digitsVal s2).
Proof.
  induction s1 as [|x s1 IH]; intros [|y s2] H1 H2 L; try discriminate; [reflexivity|].
  cbn [allChars] in H1, H2. apply andb_true_iff in H1, H2.
  destruct H1 as [Hx H1], H2 as [Hy H2]. injection L as L.
  pose proof (digitsVal_bound s1 H1) as B1. pose proof (digitsVal_bound s2 H2) as B2.
  rewrite L in B1.
  cbn [String.compare]. rewrite ascii_compare_val, (IH s2 H1 H2 L).
  unfold digitsVal at 3 4. cbn [digitsValAcc]. rewrite !digitsValAcc_linear, L.
  set (P := 10 ^ Z.of_nat (String.length s2)) in *.
  destruct (Z.compare_spec (digitVal x) (digitVal y)) as [E|E|E].
  - replace (10 * 0 + digitVal x) with (10 * 0 + digitVal y) by lia.
    symmetry. destruct (Z.compare_spec (digitsVal s1) (digitsVal s2)) as [F|F|F].
    + apply Z.compare_eq_iff. lia.
    + apply Z.compare_lt_iff. lia.
    + apply Z.compare_gt_iff. lia.
  - symmetry. apply Z.compare_lt_iff. nia.
  - symmetry. apply Z.compare_gt_iff. nia.
Qed.

Lemma digitsVal_of_parse s n :
  s <> "" -> allChars isDigit s = true -> parseInt s = Some n -> digitsVal s = n.
Proof.
  intros Hne Hd Hp. rewrite (parseInt_digits s Hne Hd) in Hp. now injection Hp.
Qed.

Lemma twoDigits_facts n :
  1 <= n <= 31 ->
  allChars isDigit (twoDigits n) = true /\ String.length (twoDigits n) = 2%nat /\
  digitsVal (twoDigits n) = n.
Proof.
  intros H. rewrite twoDigits_digits by lia.
  assert (D : forall k, 0 <= k <= 9 -> isDigit (digitChar k) = true /\ digitVal (digitChar k) = k).
  { intros k Hk.
    assert (Hc : k = 0 \/ k = 1 \/ k = 2 \/ k = 3 \/ k = 4 \/ k = 5 \/ k = 6 \/ k = 7
                 \/ k = 8 \/ k = 9) by lia.
    repeat (destruct Hc as [Hc|Hc]); subst k; split; reflexivity. }
  destruct (D (n / 10)) as [A1 A2]; [split; [apply Z.div_pos; lia | apply Z.div_le_upper_bound; lia]|].
  destruct (D (n mod 10)) as [B1 B2]; [pose proof (Z.mod_pos_bound n 10); lia|].
  split; [|split].
  - cbn [allChars]. now rewrite A1, B1.
  - reflexivity.
  - unfold digitsVal. cbn [digitsValAcc]. rewrite A2, B2.
    pose proof (Z.div_mod n 10). lia.
Qed.

Lemma fourDigits_facts y :
  1000 <= y <= 9999 ->
  allChars isDigit (fourDigits y) = true /\ String.length (fourDigits y) = 4%nat /\
  digitsVal (fourDigits y) = y.
Proof.
  intros H. rewrite (fourDigits_year y H).
  destruct (digitGroup_spec _ _ _ _ (year_numerals y H)) as (A & B & C).
  split; [exact A|]. split; [lia|].
  apply digitsVal_of_parse; auto. intros E. rewrite E in B. simpl in B. lia.
Qed.

Lemma canonical_compare y1 m1 d1 y2 m2 d2 :
  1000 <= y1 <= 9999 -> 1 <= m1 <= 31 -> 1 <= d1 <= 31 ->
  1000 <= y2 <= 9999 -> 1 <= m2 <= 31 -> 1 <= d2 <= 31 ->
  String.compare (canonical y1 m1 d1) (canonical y2 m2 d2)
  = compareFields (y1, m1, d1) (y2, m2, d2).
Proof.
  intros Hy1 Hm1 Hd1 Hy2 Hm2 Hd2.
  destruct (fourDigits_facts y1 Hy1) as (A1 & A2 & A3).
  destruct (fourDigits_facts y2 Hy2) as (B1 & B2 & B3).
  destruct (twoDigits_facts m1 Hm1) as (C1 & C2 & C3).
  destruct (twoDigits_facts m2 Hm2) as (D1 & D2 & D3).
  destruct (twoDigits_facts d1 Hd1) as (E1 & E2 & E3).
  destruct (twoDigits_facts d2 Hd2) as (F1 & F2 & F3).
  unfold canonical, compareFields.
  rewrite compare_app by congruence.
  rewrite (digits_compare _ _ A1 B1) by congruence. rewrite A3, B3.
  destruct (y1 ?= y2); try reflexivity.
  change ("-" ++ twoDigits m1 ++ "-" ++ twoDigits d1)
    with (String "-" (twoDigits m1 ++ String "-" (twoDigits d1))).
  change ("-" ++ twoDigits m2 ++ "-" ++ twoDigits d2)
    with (String "-" (twoDigits m2 ++ String "-" (twoDigits d2))).
  cbn [String.compare]. change (Ascii.compare "-" "-") with Eq. cbv iota.
  rewrite compare_app by congruence.
  rewrite (digits_compare _ _ C1 D1) by congruence. rewrite C3, D3.
  destruct (m1 ?= m2); try reflexivity.
  cbn [String.compare]. change (Ascii.compare "-" "-") with Eq. cbv iota.
  rewrite (digits_compare _ _ E1 F1) by congruence. now rewrite E3, F3.
Qed.

Lemma MakeDay_in_year y m d :
  0 <= m <= 11 -> 1 <= d <= daysInMonth y (m + 1) ->
  DayFromYear y <= MakeDay y m d < DayFromYear (y + 1).
Proof.
  intros Hm Hd. unfold MakeDay.
  rewrite (Z.div_small m 12), (Z.mod_small m 12), Z.add_0_r by lia.
  rewrite DayFromYear_succ, DaysInYear_leapDay.
  unfold daysInMonth in Hd. replace (m + 1 - 1) with m in Hd by lia.
  destruct (leapDay_cases y) as [L|L]; rewrite L in *;
    month_cases m; cbn in Hd |- *; lia.
Qed.

Lemma monthStart_mono l a b :
  (l = 0 \/ l = 1) -> 0 <= a <= b -> b <= 12 -> monthStart l a <= monthStart l b.
Proof.
  intros Hl Ha Hb.
  assert (Step : forall k, 0 <= k <= 11 -> monthStart l k <= monthStart l (k + 1)).
  { intros k Hk. destruct Hl as [-> | ->]; month_cases k; cbn; lia. }
  assert (G : forall n : nat, a + Z.of_nat n <= 12 -> monthStart l a <= monthStart l (a + Z.of_nat n)).
  { induction n as [|n IH]; intros Hn.
    - rewrite Z.add_0_r. lia.
    - rewrite Nat2Z.inj_succ in *. replace (a + Z.succ (Z.of_nat n)) with (a + Z.of_nat n + 1) by lia.
      specialize (Step (a + Z.of_nat n) ltac:(lia)). specialize (IH ltac:(lia)). lia. }
  specialize (G (Z.to_nat (b - a))). replace (a + Z.of_nat (Z.to_nat (b - a))) with b in G by lia.
  apply G. lia.
Qed.

Lemma dayNumber_lt_year y1 m1 d1 y2 m2 d2 :
  validDay y1 m1 d1 -> validDay y2 m2 d2 -> y1 < y2 ->
  dayNumber (y1, m1, d1) < dayNumber (y2, m2, d2).
Proof.
  intros [M1 D1] [M2 D2] H. unfold dayNumber.
  pose proof (MakeDay_in_year y1 (m1 - 1) d1 ltac:(lia)
                ltac:(now replace (m1 - 1 + 1) with m1 by lia)).
  pose proof (MakeDay_in_year y2 (m2 - 1) d2 ltac:(lia)
                ltac:(now replace (m2 - 1 + 1) with m2 by lia)).
  pose proof (DayFromYear_mono (y1 + 1) y2 ltac:(lia)). lia.
Qed.

Lemma dayNumber_lt_month y m1 d1 m2 d2 :
  validDay y m1 d1 -> validDay y m2 d2 -> m1 < m2 ->
  dayNumber (y, m1, d1) < dayNumber (y, m2, d2).
Proof.
  intros [M1 D1] [M2 D2] H. unfold dayNumber, MakeDay.
  rewrite !(Z.div_small _ 12), !(Z.mod_small _ 12), !Z.add_0_r by lia.
  unfold daysInMonth in D1, D2.
  pose proof (monthStart_mono (leapDay y) m1 (m2 - 1) (leapDay_cases y) ltac:(lia) ltac:(lia)).
  lia.
Qed.

Lemma compareFields_dayNumber y1 m1 d1 y2 m2 d2 :
  validDay y1 m1 d1 -> validDay y2 m2 d2 ->
  compareFields (y1, m1, d1) (y2, m2, d2) = (dayNumber (y1, m1, d1) ?= dayNumber (y2, m2, d2)).
Proof.
  intros V1 V2. unfold compareFields. symmetry.
  destruct (Z.compare_spec y1 y2) as [Ey|Ly|Gy].
  - subst y2. destruct (Z.compare_spec m1 m2) as [Em|Lm|Gm].
    + subst m2. unfold dayNumber, MakeDay.
      destruct (Z.compare_spec d1 d2);
        [apply Z.compare_eq_iff | apply Z.compare_lt_iff | apply Z.compare_gt_iff]; lia.
    + apply Z.compare_lt_iff. now apply dayNumber_lt_month.
    + apply Z.compare_gt_iff. now apply dayNumber_lt_month.
  - apply Z.compare_lt_iff. now apply dayNumber_lt_year.
  - apply Z.compare_gt_iff. now apply dayNumber_lt_year.
Qed.

Lemma validDay_bounds y m d : validDay y m d -> 1 <= m <= 31 /\ 1 <= d <= 31.
Proof.
  intros [Hm Hd]. split; [lia|]. unfold daysInMonth in Hd.
  destruct (leapDay_cases y) as [L|L]; rewrite L in Hd;
    assert (Hc : m = 1 \/ m = 2 \/ m = 3 \/ m = 4 \/ m = 5 \/ m = 6 \/ m = 7 \/ m = 8
                 \/ m = 9 \/ m = 10 \/ m = 11 \/ m = 12) by lia;
    repeat (destruct Hc as [Hc|Hc]); subst m; cbn in Hd; lia.
Qed.

Lemma civilDay_order a b na nb :
  civilDay a na -> civilDay b nb -> (String.leb a b = true <-> na <= nb).
Proof.
  intros (y1 & m1 & d1 & Hy1 & V1 & -> & ->) (y2 & m2 & d2 & Hy2 & V2 & -> & ->).
  destruct (validDay_bounds _ _ _ V1) as [Bm1 Bd1].
  destruct (validDay_bounds _ _ _ V2) as [Bm2 Bd2].
  unfold String.leb.
  rewrite canonical_compare, compareFields_dayNumber by assumption.
  destruct (Z.compare_spec (dayNumber (y1, m1, d1)) (dayNumber (y2, m2, d2)));
    split; intros; try lia; try reflexivity; discriminate.
Qed.

Lemma utcHost_readsIsoDates : readsIsoDates Examples.utcHost.
Proof.
  intros s n (y & m & d & Hy & V & -> & ->).
  unfold Examples.utcHost, date_parse, Examples.isoDay, canonical.
  rewrite (tryPattern1_iso y m d Hy V (twoDigits m) (twoDigits d))
    by (right; reflexivity).
  reflexivity.
Qed.

(** ** The theorems on the example data *)

(** The claim on a statement with one withdrawal of 5000. *)
Lemma processXlsData_amount_and_type_witness :
  processXlsData Examples.utcHost keywords true statement = Returned [withdrawal] /\
  (~ amount withdrawal == 0)%Q /\ type withdrawal = Debit.
Proof.
  assert (E : processXlsData Examples.utcHost keywords true statement = Returned [withdrawal])
    by (vm_compute; reflexivity).
  split; [exact E|].
  destruct (processXlsData_amount_and_type Examples.utcHost keywords true statement
              [withdrawal] withdrawal E (or_introl eq_refl)) as (H1 & _ & H3 & _).
  split; [exact H1 | reflexivity].
Defined.

Lemma civilDay_jan5 : civilDay "2025-01-05" 20093.
Proof.
  exists 2025, 1, 5. repeat split; try lia; vm_compute; congruence.
Qed.

Lemma civilDay_feb5 : civilDay "2025-02-05" 20124.
Proof.
  exists 2025, 2, 5. repeat split; try lia; vm_compute; congruence.
Qed.

(** The claim on the entry FOOD of the debit of 1000. *)
Lemma aggregateCategories_full_amount_per_label_witness :
  In foodTotal (Summarize.aggregateCategories [combined]) /\
  (Summarize.expense foodTotal ==
   total (fun t => occurrences "FOOD" (Summarize.labelsOf t) * expenseOf t) [combined])%Q.
Proof.
  assert (Hin : In foodTotal (Summarize.aggregateCategories [combined]))
    by (left; reflexivity).
  split; [exact Hin|].
  exact (proj1 (proj1 (proj2 (proj2 (aggregateCategories_full_amount_per_label [combined])))
                  foodTotal Hin)).
Defined.

(** ** formatDisplayDate *)

Lemma split_canonical y m d :
  1000 <= y <= 9999 -> 1 <= m <= 31 -> 1 <= d <= 31 ->
  split "-" (canonical y m d) = [fourDigits y; twoDigits m; twoDigits d].
Proof.
  intros Hy Hm Hd.
  destruct (fourDigits_facts y Hy) as (Y1 & _ & _).
  destruct (twoDigits_facts m Hm) as (M1 & _ & _).
  destruct (twoDigits_facts d Hd) as (D1 & _ & _).
  unfold canonical.
  change (fourDigits y ++ "-" ++ twoDigits m ++ "-" ++ twoDigits d)
    with (fourDigits y ++ String "-" (twoDigits m ++ String "-" (twoDigits d))).
  rewrite split_app by now apply digits_no_hyphen.
  rewrite split_app by now apply digits_no_hyphen.
  rewrite split_no_sep by now apply digits_no_hyphen.
  reflexivity.
Qed.

(** The date that [formatDate] writes for a day of the years 1000 to 9999
    is displayed as month, day and year, each as written, between slashes. *)
Theorem formatDisplayDate_formatDate (y m d : Z) :
  1000 <= y <= 9999 -> validDay y m d ->
  formatDisplayDate (formatDate (midnightOf y m d))
  = twoDigits m ++ "/" ++ twoDigits d ++ "/" ++ fourDigits y.
Proof.
  intros Hy Hv. rewrite (formatDate_day y m d Hy Hv).
  destruct (validDay_bounds _ _ _ Hv) as [Hm Hd].
  destruct (fourDigits_facts y Hy) as (_ & Y2 & _).
  destruct (twoDigits_facts m Hm) as (_ & M2 & _).
  destruct (twoDigits_facts d Hd) as (_ & D2 & _).
  unfold formatDisplayDate. rewrite split_canonical by assumption.
  rewrite Y2, M2, D2. reflexivity.
Qed.

Lemma formatDisplayDate_formatDate_witness :
  formatDisplayDate (formatDate (midnightOf 2025 11 8)) = "11/08/2025".
Proof.
  apply (formatDisplayDate_formatDate 2025 11 8).
  - lia.
  - split; [lia | vm_compute; split; discriminate].
Defined.

Lemma YearFromDay_ge y n : DayFromYear y <= n -> y <= YearFromDay n.
Proof.
  intros H. pose proof (YearFromDay_spec n) as [_ S].
  destruct (Z_lt_le_dec (YearFromDay n) y) as [C|C]; [|exact C].
  assert (M : DayFromYear (YearFromDay n + 1) <= DayFromYear y)
    by (apply DayFromYear_mono; lia).
  lia.
Qed.

Lemma monthStart_nonneg l m : 0 <= l -> 0 <= m <= 11 -> 0 <= monthStart l m.
Proof.
  intros Hl Hm.
  assert (Hc : m = 0 \/ m = 1 \/ m = 2 \/ m = 3 \/ m = 4 \/ m = 5 \/ m = 6 \/ m = 7
               \/ m = 8 \/ m = 9 \/ m = 10 \/ m = 11) by lia.
  repeat (destruct Hc as [Hc|Hc]); subst m; cbn [monthStart]; lia.
Qed.

Lemma MakeDay_ge y m d : 0 <= m <= 11 -> 1 <= d -> DayFromYear y <= MakeDay y m d.
Proof.
  intros Hm Hd. unfold MakeDay.
  rewrite (Z.div_small m 12), (Z.mod_small m 12), Z.add_0_r by lia.
  assert (0 <= monthStart (leapDay y) m).
  { apply monthStart_nonneg; [|exact Hm]. destruct (leapDay_cases y); lia. }
  lia.
Qed.

Lemma Date_UTC_Some y m d t :
  Date_UTC y m d = Some t ->
  t = MakeDay (if (0 <=? y) && (y <=? 99) then 1900 + y else y) m d * msPerDay /\
  Z.abs t <= 8640000000000000.
Proof.
  unfold Date_UTC, TimeClip.
  destruct (Z.leb_spec (Z.abs (MakeDay (if (0 <=? y) && (y <=? 99) then 1900 + y else y) m d
                                * msPerDay)) 8640000000000000); [|discriminate].
  intros [= <-]. split; [reflexivity | assumption].
Qed.

(** [Date.UTC] on the fields of a day: the same day, or for a day of the
    years 0 to 99 one from 1900 on. *)
Lemma Date_UTC_fields n t :
  Date_UTC (YearFromDay n) (MonthFromDay n) (DateFromDay n) = Some t -> utcMidnight t.
Proof.
  intros H. destruct (Date_UTC_Some _ _ _ _ H) as [E B].
  destruct (fields_valid n) as (Hm & Hd & Hn).
  destruct ((0 <=? YearFromDay n) && (YearFromDay n <=? 99)) eqn:C.
  - apply andb_true_iff in C. destruct C as [C1 C2].
    apply Z.leb_le in C1, C2.
    exists (MakeDay (1900 + YearFromDay n) (MonthFromDay n) (DateFromDay n)).
    split; [exact E|]. split; [exact B|].
    assert (G := MakeDay_ge (1900 + YearFromDay n) (MonthFromDay n) (DateFromDay n)
                            Hm (proj1 Hd)).
    apply YearFromDay_ge in G. lia.
  - exists n. split; [now rewrite <- Hn at 1|]. split; [exact B|].
    intros [C1 C2]. apply Z.leb_le in C1, C2. rewrite C1, C2 in C. discriminate.
Qed.

Lemma checked_midnight year month day t :
  checked year month day = Some (Some t) -> utcMidnight t.
Proof.
  unfold checked.
  destruct (Date_UTC year month day) as [t'|] eqn:E; cbn; [|discriminate].
  destruct (YearFromDay (Day t') =? year) eqn:Y; cbn; [|discriminate].
  destruct (MonthFromDay (Day t') =? month) eqn:M; cbn; [|discriminate].
  destruct (DateFromDay (Day t') =? day) eqn:D; cbn; [|discriminate].
  intros [= <-]. apply Z.eqb_eq in Y, M, D.
  destruct (Date_UTC_Some _ _ _ _ E) as [E' B].
  set (yr := if (0 <=? year) && (year <=? 99) then 1900 + year else year) in *.
  assert (Hday : Day t' = MakeDay yr month day) by (rewrite E'; apply Day_of_days).
  rewrite Hday in Y, M, D.
  destruct (fields_valid (MakeDay yr month day)) as (Hm & Hd & _).
  rewrite M in Hm. rewrite D in Hd.
  exists (MakeDay yr month day). split; [exact E'|]. split; [exact B|].
  rewrite Y. intros [C1 C2].
  assert (Hyr : yr = 1900 + year).
  { subst yr. apply Z.leb_le in C1, C2. now rewrite C1, C2. }
  assert (G := MakeDay_ge yr month day Hm (proj1 Hd)).
  apply YearFromDay_ge in G. lia.
Qed.

Lemma tryPattern1_midnight s t : tryPattern1 s = Some (Some t) -> utcMidnight t.
Proof.
  unfold tryPattern1.
  destruct (matchWhole pattern1 s) as [[|p1 [|p2 [|p3 [|? ?]]]]|]; try discriminate.
  destruct (parseInt p1), (parseInt p2), (parseInt p3); try discriminate.
  apply checked_midnight.
Qed.

Lemma tryPattern2_midnight s t : tryPattern2 s = Some (Some t) -> utcMidnight t.
Proof.
  unfold tryPattern2.
  destruct (matchWhole pattern2 s) as [[|p1 [|p2 [|p3 [|? ?]]]]|]; try discriminate.
  destruct (parseInt p1), (parseInt p2), (parseInt p3); try discriminate.
  apply checked_midnight.
Qed.

Lemma tryPattern3_midnight s t : tryPattern3 s = Some (Some t) -> utcMidnight t.
Proof.
  unfold tryPattern3.
  destruct (matchWhole pattern3 s) as [[|p1 [|p2 [|p3 [|? ?]]]]|]; try discriminate.
  destruct (parseInt p1), (lookup (toLowerCase p2) monthMap), (parseInt p3); try discriminate.
  apply checked_midnight.
Qed.

Lemma fallback_midnight h s t : fallback h s = Some (Some t) -> utcMidnight t.
Proof.
  unfold fallback, getTime, getFullYear, getMonth, getDate.
  destruct (date_parse h s) as [t0|]; [|discriminate]. cbn.
  intros [= H]. now apply Date_UTC_fields in H.
Qed.

Lemma parseDate_utcMidnight h v t : parseDate h v = Some (Some t) -> utcMidnight t.
Proof.
  destruct v as [|s|n|[t0|]]; cbn [parseDate]; try discriminate.
  - unfold parseDateStr. destruct (String.eqb (trim (toStr h (VStr s))) ""); [discriminate|].
    destruct (tryPattern1 _) as [r|] eqn:P1; cbn [orElse];
      [intros [= ->]; now apply tryPattern1_midnight in P1|].
    destruct (tryPattern2 _) as [r|] eqn:P2; cbn [orElse];
      [intros [= ->]; now apply tryPattern2_midnight in P2|].
    destruct (tryPattern3 _) as [r|] eqn:P3; cbn [orElse];
      [intros [= ->]; now apply tryPattern3_midnight in P3|].
    apply fallback_midnight.
  - unfold parseDateStr. destruct (String.eqb (trim (toStr h (VNum n))) ""); [discriminate|].
    destruct (tryPattern1 _) as [r|] eqn:P1; cbn [orElse];
      [intros [= ->]; now apply tryPattern1_midnight in P1|].
    destruct (tryPattern2 _) as [r|] eqn:P2; cbn [orElse];
      [intros [= ->]; now apply tryPattern2_midnight in P2|].
    destruct (tryPattern3 _) as [r|] eqn:P3; cbn [orElse];
      [intros [= ->]; now apply tryPattern3_midnight in P3|].
    apply fallback_midnight.
  - unfold getFullYear, getMonth, getDate. cbn.
    intros [= H]. now apply Date_UTC_fields in H.
Qed.

(** On a host without offset, [parseDate] reads a midnight as itself. *)
Lemma parseDate_of_midnight h t :
  (forall u, local_tza h u = 0) -> utcMidnight t ->
  parseDate h (VDate (Some t)) = Some (Some t).
Proof.
  intros Hh (n & -> & B & Hy). cbn [parseDate].
  unfold getFullYear, getMonth, getDate, LocalTime. cbn.
  rewrite Hh, Z.add_0_r, Day_of_days.
  destruct (fields_valid n) as (_ & _ & Hn).
  unfold Date_UTC.
  replace ((0 <=? YearFromDay n) && (YearFromDay n <=? 99)) with false.
  - rewrite Hn. unfold TimeClip.
    destruct (Z.leb_spec (Z.abs (n * msPerDay)) 8640000000000000); [reflexivity | lia].
  - symmetry. apply andb_false_iff.
    destruct (Z.leb_spec 0 (YearFromDay n)); [|now left].
    destruct (Z.leb_spec (YearFromDay n) 99); [lia | now right].
Qed.

(** Every valid date that [parseDate] returns, for any input and host, is
    midnight UTC of a day: it has no time of day.  Its year is never one of
    0 to 99.  It is in the range of time values, and [formatDate] of it is
    the text of the fields of that day.  On a host whose local time is UTC,
    [parseDate] gives the date back when it is handed in as a [Date]: the
    parser is idempotent there. *)
Theorem parseDate_returns_utc_midnight (h : Host) (v : JsVal) (t : Z) :
  parseDate h v = Some (Some t) ->
  t mod msPerDay = 0 /\
  Z.abs t <= 8640000000000000 /\
  ~ (0 <= YearFromDay (Day t) <= 99) /\
  MakeDay (YearFromDay (Day t)) (MonthFromDay (Day t)) (DateFromDay (Day t)) * msPerDay = t /\
  ((forall u, local_tza h u = 0) -> parseDate h (VDate (Some t)) = Some (Some t)).
Proof.
  intros H. pose proof (parseDate_utcMidnight h v t H) as U.
  assert (U' := U). destruct U' as (n & E & B & Hy).
  assert (Hd : Day t = n) by (rewrite E; apply Day_of_days).
  split; [rewrite E; apply Z.mod_mul; discriminate|].
  split; [exact B|]. rewrite Hd. split; [exact Hy|]. split.
  - destruct (fields_valid n) as (_ & _ & Hn). now rewrite Hn.
  - intros Hh. now apply parseDate_of_midnight.
Qed.

Lemma parseDate_returns_utc_midnight_witness :
  parseDate Examples.utcHost (VStr " 08/11/2025 ") = Some (Some 1762560000000) /\
  1762560000000 mod msPerDay = 0 /\
  parseDate Examples.utcHost (VDate (Some 1762560000000)) = Some (Some 1762560000000).
Proof.
  assert (E : parseDate Examples.utcHost (VStr " 08/11/2025 ") = Some (Some 1762560000000))
    by (vm_compute; reflexivity).
  destruct (parseDate_returns_utc_midnight Examples.utcHost _ _ E) as (H1 & _ & _ & _ & H5).
  split; [exact E|]. split; [exact H1|]. apply H5. intros u. reflexivity.
Defined.

(** [parseDate] of a valid [Date] is midnight UTC of the calendar day that
    the date has in local time, when that day is outside the years 0 to 99
    and in the range of time values; [formatDate] then writes the local
    year, month and day.  An invalid [Date] gives null. *)
Theorem parseDate_Date_local_day (h : Host) (t0 : Z) :
  let L := Day (LocalTime h t0) in
  ~ (0 <= YearFromDay L <= 99) ->
  Z.abs (L * msPerDay) <= 8640000000000000 ->
  parseDate h (VDate (Some t0)) = Some (Some (L * msPerDay)) /\
  parseDate h (VDate None) = None /\
  (1000 <= YearFromDay L <= 9999 ->
   option_map formatDate (parseDate h (VDate (Some t0)))
   = Some (canonical (YearFromDay L) (MonthFromDay L + 1) (DateFromDay L))).
Proof.
  intros L Hy B.
  assert (E : parseDate h (VDate (Some t0)) = Some (Some (L * msPerDay))).
  { cbn [parseDate]. unfold getFullYear, getMonth, getDate. cbn. fold L.
    destruct (fields_valid L) as (_ & _ & Hn).
    unfold Date_UTC.
    replace ((0 <=? YearFromDay L) && (YearFromDay L <=? 99)) with false.
    - rewrite Hn. unfold TimeClip.
      destruct (Z.leb_spec (Z.abs (L * msPerDay)) 8640000000000000); [reflexivity | lia].
    - symmetry. apply andb_false_iff.
      destruct (Z.leb_spec 0 (YearFromDay L)); [|now left].
      destruct (Z.leb_spec (YearFromDay L) 99); [lia | now right]. }
  split; [exact E|]. split; [reflexivity|].
  intros Hr. rewrite E. cbn [option_map]. f_equal.
  destruct (fields_valid L) as (Hm & Hd & Hn).
  rewrite <- Hn at 1. now apply formatDate_MakeDay.
Qed.

(** 7 November 2025, 20:00 UTC, is the 8th in that local time. *)
Lemma parseDate_Date_local_day_witness :
  option_map formatDate (parseDate istHost (VDate (Some 1762545600000))) = Some "2025-11-08".
Proof.
  refine (proj2 (proj2 (parseDate_Date_local_day istHost 1762545600000 _ _)) _).
  - vm_compute. intros [_ C]. apply C. reflexivity.
  - vm_compute. discriminate.
  - vm_compute. split; discriminate.
Defined.

(** ** getCategory and the case of letters *)

Lemma toUpperChar_toLowerChar c : toUpperChar (toLowerChar c) = toUpperChar c.
Proof. destruct c as [[] [] [] [] [] [] [] []]; reflexivity. Qed.

Lemma toUpperChar_idem c : toUpperChar (toUpperChar c) = toUpperChar c.
Proof. destruct c as [[] [] [] [] [] [] [] []]; reflexivity. Qed.

Lemma toLowerChar_toUpperChar c : toLowerChar (toUpperChar c) = toLowerChar c.
Proof. destruct c as [[] [] [] [] [] [] [] []]; reflexivity. Qed.

Lemma toLowerChar_idem c : toLowerChar (toLowerChar c) = toLowerChar c.
Proof. destruct c as [[] [] [] [] [] [] [] []]; reflexivity. Qed.

Lemma mapChars_mapChars f g s : mapChars f (mapChars g s) = mapChars (fun c => f (g c)) s.
Proof. induction s as [|c s IH]; simpl; [reflexivity | now rewrite IH]. Qed.

Lemma mapChars_ext f g s : (forall c, f c = g c) -> mapChars f s = mapChars g s.
Proof. intros H. induction s as [|c s IH]; simpl; [reflexivity | now rewrite H, IH]. Qed.

Lemma toUpperCase_toLowerCase s : toUpperCase (toLowerCase s) = toUpperCase s.
Proof.
  unfold toUpperCase, toLowerCase. rewrite mapChars_mapChars.
  apply mapChars_ext, toUpperChar_toLowerChar.
Qed.

Lemma toUpperCase_idem s : toUpperCase (toUpperCase s) = toUpperCase s.
Proof.
  unfold toUpperCase. rewrite mapChars_mapChars. apply mapChars_ext, toUpperChar_idem.
Qed.

Lemma toLowerCase_toUpperCase s : toLowerCase (toUpperCase s) = toLowerCase s.
Proof.
  unfold toUpperCase, toLowerCase. rewrite mapChars_mapChars.
  apply mapChars_ext, toLowerChar_toUpperChar.
Qed.

Lemma toLowerCase_idem s : toLowerCase (toLowerCase s) = toLowerCase s.
Proof.
  unfold toLowerCase. rewrite mapChars_mapChars. apply mapChars_ext, toLowerChar_idem.
Qed.

Lemma collect_map_keys (f : string -> string) desc table :
  (forall k, toUpperCase (f k) = toUpperCase k) ->
  forall found,
    collect desc (map (fun e => (f (fst e), snd e)) table) found = collect desc table found.
Proof.
  intros Hf. induction table as [|[k v] table IH]; intros found; [reflexivity|].
  cbn [map collect fold_left fst snd]. rewrite Hf. apply IH.
Qed.

(** For a description and keywords of ASCII characters, [getCategory] does
    not depend on the case of the letters, neither of the description nor of
    the keywords of the table. *)
Theorem getCategory_ignores_case (table : list (string * string)) (description : string) :
  isAscii description = true ->
  (forall e, In e table -> isAscii (fst e) = true) ->
  getCategory table (toLowerCase description) = getCategory table description /\
  getCategory table (toUpperCase description) = getCategory table description /\
  getCategory (map (fun e => (toLowerCase (fst e), snd e)) table) description
  = getCategory table description /\
  getCategory (map (fun e => (toUpperCase (fst e), snd e)) table) description
  = getCategory table description.
Proof.
  intros _ _.
  rewrite !getCategory_unfold, toUpperCase_toLowerCase, toUpperCase_idem.
  rewrite (collect_map_keys toLowerCase _ _ toUpperCase_toLowerCase).
  rewrite (collect_map_keys toUpperCase _ _ toUpperCase_idem).
  repeat split.
Qed.

(** A description in mixed case against keywords in lower case. *)
Lemma getCategory_ignores_case_witness :
  getCategory keywords (toUpperCase "Swiggy order 42") = getCategory keywords "Swiggy order 42" /\
  getCategory keywords "Swiggy order 42" = "FOOD".
Proof.
  split; [|reflexivity].
  apply (getCategory_ignores_case keywords "Swiggy order 42" eq_refl).
  intros e [<-|[<-|[<-|[]]]]; reflexivity.
Defined.

Lemma findHeaderRow_app h pre doc :
  (forall r, In r pre -> isHeaderRow h r = false) ->
  findHeaderRow h (pre ++ doc)%list
  = option_map (fun i => (List.length pre + i)%nat) (findHeaderRow h doc).
Proof.
  induction pre as [|r pre IH]; intros H.
  - simpl. now destruct (findHeaderRow h doc).
  - cbn [app findHeaderRow]. cbv zeta.
    fold (isHeaderRow h r). rewrite (H r (or_introl eq_refl)).
    rewrite IH by (intros r' Hr'; apply H; now right).
    now destruct (findHeaderRow h doc).
Qed.

Lemma nth_app_shift {A} (pre doc : list A) i d :
  nth (List.length pre + i) (pre ++ doc) d = nth i doc d.
Proof. induction pre; simpl; auto. Qed.

Lemma skipn_app_shift {A} (pre doc : list A) i :
  skipn (List.length pre + i) (pre ++ doc) = skipn i doc.
Proof. induction pre; simpl; auto. Qed.

(** The rows before the header row do not count: a document gives what it
    gives without the rows that precede it, as long as none of them names
    both the date and the narration. *)
Theorem processXlsData_skips_preamble (h : Host) (table : list (string * string))
    (pre doc : list (list JsVal)) :
  (forall r, In r pre -> isHeaderRow h r = false) ->
  doc <> [] ->
  processXlsData h table true (pre ++ doc) = processXlsData h table true doc.
Proof.
  intros Hpre Hdoc. unfold processXlsData. cbn [negb].
  destruct doc as [|r0 doc0]; [contradiction|].
  destruct (pre ++ r0 :: doc0)%list as [|x xs] eqn:E.
  - destruct pre; discriminate.
  - rewrite <- E. rewrite (findHeaderRow_app h pre (r0 :: doc0) Hpre).
    destruct (findHeaderRow h (r0 :: doc0)) as [i|]; [|reflexivity].
    cbn [option_map]. cbv zeta.
    rewrite nth_app_shift.
    replace (S (List.length pre + i)) with (List.length pre + S i)%nat by lia.
    rewrite skipn_app_shift. reflexivity.
Qed.

Lemma processXlsData_skips_preamble_witness :
  processXlsData Examples.utcHost keywords true
    ([VStr "HDFC BANK Ltd."] :: [] :: [VStr "Date"; VStr "Statement of accounts"]
       :: skipn 3 statement)
  = processXlsData Examples.utcHost keywords true (skipn 3 statement).
Proof.
  apply (processXlsData_skips_preamble Examples.utcHost keywords
           [[VStr "HDFC BANK Ltd."]; []; [VStr "Date"; VStr "Statement of accounts"]]
           (skipn 3 statement)).
  - intros r [<-|[<-|[<-|[]]]]; reflexivity.
  - discriminate.
Defined.

Lemma filterMap_app {A B} (f : A -> option B) l1 l2 :
  filterMap f (l1 ++ l2) = (filterMap f l1 ++ filterMap f l2)%list.
Proof.
  induction l1 as [|x l1 IH]; simpl; [reflexivity|].
  destruct (f x); simpl; now rewrite IH.
Qed.

(** Below the header row every row is read by itself: the transactions of
    two runs of rows under the same header are those of the first run
    followed by those of the second. *)
Theorem processXlsData_rows_append (h : Host) (table : list (string * string))
    (header : list JsVal) (rows1 rows2 : list (list JsVal)) (txs1 txs2 : list Transaction) :
  isHeaderRow h header = true ->
  processXlsData h table true (header :: rows1) = Returned txs1 ->
  processXlsData h table true (header :: rows2) = Returned txs2 ->
  processXlsData h table true (header :: rows1 ++ rows2)%list = Returned (txs1 ++ txs2)%list.
Proof.
  unfold processXlsData, isHeaderRow. cbn [negb findHeaderRow]. cbv zeta.
  intros ->. cbn [nth skipn].
  destruct (indexOf "date" _); [|discriminate].
  destruct (indexOf "narration" _); [|discriminate].
  destruct (indexOf "withdrawal amt." _); [|discriminate].
  destruct (indexOf "deposit amt." _); [|discriminate].
  intros [= <-] [= <-]. now rewrite filterMap_app.
Qed.

Lemma processXlsData_rows_append_witness :
  processXlsData Examples.utcHost keywords true
    (headerRow :: [[VStr "01/03/2025"; VStr "ATM WDL"; VStr "5000"; VStr ""]]
               ++ [[VStr "02/03/2025"; VStr " Salary "; VStr ""; VStr "Rs 1,00,000"]])%list
  = Returned ([withdrawal] ++ [salary])%list.
Proof.
  apply (processXlsData_rows_append Examples.utcHost keywords headerRow).
  - reflexivity.
  - vm_compute. reflexivity.
  - vm_compute. reflexivity.
Defined.

(** ** Trimming twice *)

Lemma trimEnd_idem s : trimEnd (trimEnd s) = trimEnd s.
Proof.
  induction s as [|c s IH]; [reflexivity|].
  cbn [trimEnd]. destruct (trimEnd s) as [|c' r] eqn:E.
  - destruct (isSpace c) eqn:Sc; [reflexivity|]. cbn [trimEnd]. now rewrite Sc.
  - cbn [trimEnd]. cbn [trimEnd] in IH. rewrite IH. reflexivity.
Qed.

Lemma trimEnd_head c s :
  isSpace c = false -> exists r, trimEnd (String c s) = String c r.
Proof.
  intros Sc. cbn [trimEnd]. destruct (trimEnd s); [rewrite Sc|]; eauto.
Qed.

Lemma trimStart_head s :
  trimStart s = "" \/ exists c r, trimStart s = String c r /\ isSpace c = false.
Proof.
  induction s as [|c s IH]; [now left|].
  cbn [trimStart]. destruct (isSpace c) eqn:Sc; [exact IH|]. right. eauto.
Qed.

Lemma trim_idem s : trim (trim s) = trim s.
Proof.
  unfold trim. destruct (trimStart_head s) as [E|(c & r & E & Sc)]; rewrite E.
  - reflexivity.
  - destruct (trimEnd_head c r Sc) as [r' E']. rewrite E'.
    cbn [trimStart]. rewrite Sc, <- E'. apply trimEnd_idem.
Qed.

(** ** processXlsData: the transactions *)

Lemma processRow_shape h table di ni wi dpi row t :
  processRow h table di ni wi dpi row = Some t ->
  id t = None /\ user_id t = None /\ recurring t = None /\
  description t = trim (toStr h (cell row ni)) /\ description t <> "" /\
  category t = getCategory table (toStr h (cell row ni)) /\
  exists d, parseDate h (cell row di) = Some d /\ date t = formatDate d.
Proof.
  unfold processRow.
  destruct (_ || startsWith _ _); [discriminate|].
  destruct (negb (truthy (cell row di)) || negb (truthy (cell row ni))) eqn:E1;
    [discriminate|]. cbn [orb].
  destruct (String.eqb_spec (trim (toStr h (cell row ni))) "") as [E2|E2]; [discriminate|].
  destruct (parseDate h (cell row di)) as [parsedDate|]; [|discriminate].
  cbv zeta.
  destruct (Qgtb (amountOf h (cell row dpi)) 0).
  - intros [= <-]. cbn. repeat split; try assumption. eauto.
  - destruct (Qgtb (amountOf h (cell row wi)) 0); [|discriminate].
    intros [= <-]. cbn. repeat split; try assumption. eauto.
Qed.

(** Every transaction of the statement parser is new (no id, no user, no
    recurring mark); its description is the trimmed text of the narration
    cell, which is not empty and has no space at either end; its category
    is what [getCategory] finds in the text of the narration cell; its date
    is what [formatDate] writes for the date that [parseDate] reads in the
    date cell, the canonical text of a day when that date is of the years
    1000 to 9999.  There are fewer transactions than rows. *)
Theorem processXlsData_transactions (h : Host) (table : list (string * string))
    (loaded : bool) (aoa : list (list JsVal)) (txs : list Transaction) :
  processXlsData h table loaded aoa = Returned txs ->
  (forall t, In t txs ->
     id t = None /\ user_id t = None /\ recurring t = None /\
     description t <> "" /\ trim (description t) = description t /\
     (exists narration, description t = trim narration /\
                        category t = getCategory table narration) /\
     (exists input d, parseDate h input = Some d /\ date t = formatDate d /\
        forall tv, d = Some tv -> 1000 <= YearFromDay (Day tv) <= 9999 ->
                   civilDay (date t) (Day tv))) /\
  (txs = [] \/ (List.length txs < List.length aoa)%nat).
Proof.
  unfold processXlsData. destruct loaded; cbn [negb]; [|discriminate].
  destruct aoa as [|r0 aoa0]; [intros [= <-]; split; [intros t []|now left]|].
  destruct (findHeaderRow h (r0 :: aoa0)) as [i|] eqn:F; [|discriminate].
  cbv zeta.
  destruct (indexOf "date" _) as [di|]; [|discriminate].
  destruct (indexOf "narration" _) as [ni|]; [|discriminate].
  destruct (indexOf "withdrawal amt." _) as [wi|]; [|discriminate].
  destruct (indexOf "deposit amt." _) as [dpi|]; [|discriminate].
  intros [= <-]. split.
  - intros t Ht. apply filterMap_In in Ht. destruct Ht as (row & _ & Hrow).
    destruct (processRow_shape _ _ _ _ _ _ _ _ Hrow)
      as (H1 & H2 & H3 & H4 & H5 & H6 & d & H7 & H8).
    repeat split; try assumption.
    + rewrite H4. apply trim_idem.
    + eauto.
    + exists (cell row di), d. repeat split; try assumption.
      intros tv -> Hy. destruct (parseDate_utcMidnight _ _ _ H7) as (n & E & _ & _).
      assert (Hd : Day tv = n) by (rewrite E; apply Day_of_days).
      rewrite H8, Hd in *. destruct (fields_valid n) as (Hm & Hdd & Hn).
      exists (YearFromDay n), (MonthFromDay n + 1), (DateFromDay n).
      split; [exact Hy|]. split; [split; [lia | exact Hdd]|]. split.
      * rewrite E. rewrite <- Hn at 1. now apply formatDate_MakeDay.
      * unfold dayNumber. replace (MonthFromDay n + 1 - 1) with (MonthFromDay n) by lia.
        now rewrite Hn.
  - right.
    assert (L : forall (f : list JsVal -> option Transaction) l,
               (List.length (filterMap f l) <= List.length l)%nat).
    { intros f l. induction l as [|x l IH]; simpl; [lia|]. destruct (f x); simpl; lia. }
    specialize (L (processRow h table di ni wi dpi) (skipn (S i) (r0 :: aoa0))).
    assert (Hi : (i < List.length (r0 :: aoa0))%nat).
    { clear -F. revert i F. generalize (r0 :: aoa0) as l.
      induction l as [|r l IH]; intros i; simpl; [discriminate|].
      destruct (_ && _); [intros [= <-]; lia|].
      destruct (findHeaderRow h l) as [j|]; [|discriminate].
      intros [= <-]. specialize (IH j eq_refl). lia. }
    rewrite length_skipn in L. cbn [skipn] in L. lia.
Qed.

Lemma processXlsData_transactions_witness :
  processXlsData Examples.utcHost keywords true statement = Returned [withdrawal] /\
  description withdrawal <> "" /\ trim (description withdrawal) = description withdrawal.
Proof.
  assert (E : processXlsData Examples.utcHost keywords true statement = Returned [withdrawal])
    by (vm_compute; reflexivity).
  destruct (proj1 (processXlsData_transactions _ _ _ _ _ E) withdrawal (or_introl eq_refl))
    as (_ & _ & _ & H4 & H5 & _).
  split; [exact E|]. split; assumption.
Defined.

(** ** Sums over the transactions *)

Lemma total_ext f g l :
  (forall t, In t l -> f t == g t)%Q -> (total f l == total g l)%Q.
Proof.
  induction l as [|t l IH]; intros H; simpl; [reflexivity|].
  rewrite (H t (or_introl eq_refl)), IH; [reflexivity|].
  intros u Hu. apply H. now right.
Qed.

Lemma total_nonneg f l : (forall t, In t l -> 0 <= f t)%Q -> (0 <= total f l)%Q.
Proof.
  induction l as [|t l IH]; intros H; simpl; [apply Qle_refl|].
  assert (0 <= f t)%Q by (apply H; now left).
  assert (0 <= total f l)%Q by (apply IH; intros u Hu; apply H; now right).
  lra.
Qed.

Lemma total_filter f p l :
  (total f (filter p l) == total (fun t => if p t then f t else 0) l)%Q.
Proof.
  induction l as [|t l IH]; simpl; [reflexivity|].
  destruct (p t); simpl; rewrite IH; ring.
Qed.

Lemma fold_amounts l :
  (fold_left (fun sum t => sum + amount t) l 0 == total amount l)%Q.
Proof.
  induction l as [|t l IH]; simpl; [reflexivity|].
  rewrite (fold_plus_shift amount l (0 + amount t)), IH. ring.
Qed.

Lemma expenseOf_nonneg t : (0 <= expenseOf t)%Q.
Proof. unfold expenseOf. destruct (type t); [apply Qle_refl | apply Qabs_nonneg]. Qed.

(** ** summarize *)

Lemma summarize_fold l : forall acc,
  let r := fold_left (fun acc t =>
                        match type t with
                        | Credit => (fst acc + amount t, snd acc)%Q
                        | Debit => (fst acc, snd acc + Qabs (amount t))%Q
                        end) l acc in
  (fst r == fst acc + total incomeOf l)%Q /\ (snd r == snd acc + total expenseOf l)%Q.
Proof.
  induction l as [|t l IH]; intros acc; cbn [fold_left total].
  - split; ring.
  - destruct (IH (match type t with
                  | Credit => (fst acc + amount t, snd acc)%Q
                  | Debit => (fst acc, snd acc + Qabs (amount t))%Q
                  end)) as [H1 H2].
    cbv zeta. rewrite H1, H2. unfold incomeOf, expenseOf.
    destruct (type t); cbn [fst snd]; split; ring.
Qed.

Lemma summarize_totals l :
  (totalIncome (summarize l) == total incomeOf l)%Q /\
  (totalExpenses (summarize l) == total expenseOf l)%Q /\
  (netSavings (summarize l) == total incomeOf l - total expenseOf l)%Q.
Proof.
  destruct (summarize_fold l (0, 0)%Q) as [H1 H2]. cbv zeta in H1, H2. cbn [fst snd] in H1, H2.
  unfold summarize. cbn [totalIncome totalExpenses netSavings].
  rewrite H1, H2. repeat split; ring.
Qed.

(** ** analyzeTransactions *)

Lemma credits_total l : (total amount (filter isCredit l) == total incomeOf l)%Q.
Proof.
  rewrite total_filter. apply total_ext. intros t _.
  unfold isCredit, incomeOf. destruct (type t); reflexivity.
Qed.

Lemma debits_total_abs l : (Qabs (total amount (filter isDebit l)) <= total expenseOf l)%Q.
Proof.
  induction l as [|t l IH]; cbn [filter total].
  - apply Qle_refl.
  - unfold isDebit at 1, expenseOf at 1. destruct (type t); cbn [total].
    + lra.
    + eapply Qle_trans; [apply Qabs_triangle|]. lra.
Qed.

Lemma debits_total_nonpos l :
  (forall t, In t l -> type t = Debit -> amount t <= 0)%Q ->
  (total amount (filter isDebit l) == - total expenseOf l)%Q.
Proof.
  induction l as [|t l IH]; intros H; cbn [filter total]; [ring|].
  assert (IH' := IH (fun u Hu => H u (or_intror Hu))).
  pose proof (H t (or_introl eq_refl)) as Ht.
  unfold isDebit at 1, expenseOf at 1. destruct (type t); cbn [total].
  - rewrite IH'. ring.
  - rewrite IH', (Qabs_neg (amount t)) by auto. ring.
Qed.

(** The summary of [analyzeTransactions] against that of [summarize]: the
    income is the same; the expenses, the absolute value of a sum where
    [summarize] has a sum of absolute values, are never more, and are the
    same when no debit has a positive amount; then the savings agree too.
    The transactions are handed back as they came. *)
Theorem analyzeTransactions_vs_summarize (transactions : list Transaction) :
  let a := summary (analyzeTransactions transactions) in
  let s := summarize transactions in
  (totalIncome a == totalIncome s)%Q /\
  (0 <= totalExpenses a <= totalExpenses s)%Q /\
  netSavings a = (totalIncome a - totalExpenses a)%Q /\
  ((forall t, In t transactions -> type t = Debit -> amount t <= 0)%Q ->
   (totalExpenses a == totalExpenses s)%Q /\ (netSavings a == netSavings s)%Q) /\
  ar_transactions (analyzeTransactions transactions) = transactions.
Proof.
  intros a s. subst a s.
  destruct (summarize_totals transactions) as (S1 & S2 & S3).
  unfold analyzeTransactions.
  cbn [summary totalIncome totalExpenses netSavings ar_transactions].
  assert (I : (fold_left (fun sum t => sum + amount t) (filter isCredit transactions) 0
               == total incomeOf transactions)%Q)
    by (rewrite fold_amounts; apply credits_total).
  assert (D : (fold_left (fun sum t => sum + amount t) (filter isDebit transactions) 0
               == total amount (filter isDebit transactions))%Q)
    by apply fold_amounts.
  split; [now rewrite I, S1|].
  split; [split; [apply Qabs_nonneg | rewrite D, S2; apply debits_total_abs]|].
  split; [reflexivity|]. split; [|reflexivity].
  intros H.
  assert (E : (Qabs (fold_left (fun sum t => sum + amount t)
                               (filter isDebit transactions) 0)
               == total expenseOf transactions)%Q).
  { rewrite D, (debits_total_nonpos _ H), Qabs_opp.
    apply Qabs_pos, total_nonneg. intros t _. apply expenseOf_nonneg. }
  split; [now rewrite E, S2|]. rewrite E, I, S3. reflexivity.
Qed.

Lemma analyzeTransactions_vs_summarize_witness :
  (totalExpenses (summary (analyzeTransactions [withdrawal; salary])) == 5000)%Q /\
  (totalExpenses (summary (analyzeTransactions refunded)) == 0)%Q /\
  (totalExpenses (summarize refunded) == 6000)%Q.
Proof.
  split; [|split; reflexivity].
  destruct (analyzeTransactions_vs_summarize [withdrawal; salary]) as (_ & _ & _ & H & _).
  cbv zeta in H.
  assert (N : (forall t, In t [withdrawal; salary] -> type t = Debit -> amount t <= 0)%Q)
    by (intros t [<-|[<-|[]]]; [intros _; discriminate | discriminate]).
  rewrite (proj1 (H N)). reflexivity.
Defined.

Lemma validDate_isDateText s : validDate s = isDateText s.
Proof.
  destruct s as [|a [|b [|c [|d [|e [|f [|g [|i [|j [|k [|x s]]]]]]]]]]];
    unfold validDate, matchWhole, datePattern, isDateText;
    cbn [matchItems rep digits_ lit cls min extra captured Nat.sub inClass snoc option_map];
    repeat (first [ reflexivity
                  | match goal with
                    | |- context [isDigit ?c] => destruct (isDigit c)
                    | |- context [Ascii.eqb ?x ?y] => destruct (Ascii.eqb x y)
                    end;
                    cbn [matchItems rep cls min extra captured inClass snoc option_map
                         andb] ]).
Qed.

Lemma addToMonth_key t e : ma_monthKey (addToMonth t e) = ma_monthKey e.
Proof. unfold addToMonth. destruct (type t); reflexivity. Qed.

Lemma addToMonth_income t e : (ma_income (addToMonth t e) == ma_income e + incomeOf t)%Q.
Proof. unfold addToMonth, incomeOf. destruct (type t); simpl; ring. Qed.

Lemma addToMonth_expense t e : (ma_expense (addToMonth t e) == ma_expense e + expenseOf t)%Q.
Proof. unfold addToMonth, expenseOf. destruct (type t); simpl; ring. Qed.

Lemma accumulateMonth_keys t k m k' :
  In k' (map ma_monthKey (accumulateMonth t k m)) <-> In k' (map ma_monthKey m) \/ k' = k.
Proof.
  induction m as [|e m IH]; cbn [accumulateMonth map].
  - rewrite addToMonth_key. simpl. intuition.
  - destruct (String.eqb (ma_monthKey e) k) eqn:E; cbn [map].
    + rewrite addToMonth_key. apply String.eqb_eq in E. subst k. simpl. intuition.
    + simpl. rewrite IH. intuition.
Qed.

Lemma accumulateMonth_NoDup t k m :
  NoDup (map ma_monthKey m) -> NoDup (map ma_monthKey (accumulateMonth t k m)).
Proof.
  induction m as [|e m IH]; cbn [accumulateMonth map]; intros N.
  - rewrite addToMonth_key. repeat constructor. intros [].
  - inversion N as [|? ? Hk N']; subst.
    destruct (String.eqb (ma_monthKey e) k) eqn:E; cbn [map].
    + rewrite addToMonth_key. now constructor.
    + constructor; [|now apply IH].
      intros Hin. apply accumulateMonth_keys in Hin. destruct Hin as [Hin|Hin]; [contradiction|].
      rewrite Hin, String.eqb_refl in E. discriminate.
Qed.

Lemma accumulateMonth_at t k m k' :
  (fst (entryAt k' (accumulateMonth t k m))
   == fst (entryAt k' m) + (if String.eqb k k' then incomeOf t else 0))%Q /\
  (snd (entryAt k' (accumulateMonth t k m))
   == snd (entryAt k' m) + (if String.eqb k k' then expenseOf t else 0))%Q.
Proof.
  induction m as [|e m IH]; cbn [accumulateMonth entryAt].
  - rewrite addToMonth_key. cbn [ma_monthKey].
    destruct (String.eqb k k'); cbn [fst snd];
      [rewrite addToMonth_income, addToMonth_expense; cbn; split; ring | split; ring].
  - destruct (String.eqb (ma_monthKey e) k) eqn:E; cbn [entryAt].
    + rewrite addToMonth_key. apply String.eqb_eq in E. subst k.
      destruct (String.eqb (ma_monthKey e) k'); cbn [fst snd];
        [split; [apply addToMonth_income | apply addToMonth_expense] | split; ring].
    + destruct (String.eqb (ma_monthKey e) k') eqn:E'; [|exact IH].
      apply String.eqb_eq in E'. subst k'. rewrite String.eqb_sym, E. split; ring.
Qed.

Lemma monthsFrom_keys k transactions : forall m,
  In k (map ma_monthKey (monthsFrom transactions m)) <->
  In k (map ma_monthKey m) \/
  exists t, In t transactions /\ validDate (date t) = true /\ take 7 (date t) = k.
Proof.
  induction transactions as [|t ts IH]; intros m; cbn [monthsFrom fold_left].
  - split; [auto | intros [H|[t [[] _]]]; exact H].
  - fold (monthsFrom ts (if validDate (date t) then accumulateMonth t (take 7 (date t)) m else m)).
    rewrite IH. destruct (validDate (date t)) eqn:V.
    + rewrite accumulateMonth_keys. split.
      * intros [[H|H]|[t' (H1 & H2 & H3)]].
        -- now left.
        -- right. exists t. repeat split; [now left | exact V | now symmetry].
        -- right. exists t'. repeat split; [now right | exact H2 | exact H3].
      * intros [H|[t' ([<-|H1] & H2 & H3)]].
        -- left. now left.
        -- left. right. now symmetry.
        -- right. exists t'. repeat split; assumption.
    + split.
      * intros [H|[t' (H1 & H2 & H3)]]; [now left|].
        right. exists t'. repeat split; [now right | exact H2 | exact H3].
      * intros [H|[t' ([<-|H1] & H2 & H3)]]; [now left | congruence |].
        right. exists t'. repeat split; assumption.
Qed.

Lemma monthsFrom_NoDup transactions : forall m,
  NoDup (map ma_monthKey m) -> NoDup (map ma_monthKey (monthsFrom transactions m)).
Proof.
  induction transactions as [|t ts IH]; intros m N; cbn [monthsFrom fold_left]; [exact N|].
  apply IH. destruct (validDate (date t)); [now apply accumulateMonth_NoDup | exact N].
Qed.

Lemma monthsFrom_at k transactions : forall m,
  (fst (entryAt k (monthsFrom transactions m))
   == fst (entryAt k m) + datedTotal incomeOf k transactions)%Q /\
  (snd (entryAt k (monthsFrom transactions m))
   == snd (entryAt k m) + datedTotal expenseOf k transactions)%Q.
Proof.
  unfold datedTotal.
  induction transactions as [|t ts IH]; intros m; cbn [monthsFrom fold_left total].
  - split; ring.
  - fold (monthsFrom ts (if validDate (date t) then accumulateMonth t (take 7 (date t)) m else m)).
    destruct (IH (if validDate (date t) then accumulateMonth t (take 7 (date t)) m else m))
      as [H1 H2].
    rewrite H1, H2. destruct (validDate (date t)); cbn [andb].
    + destruct (accumulateMonth_at t (take 7 (date t)) m k) as [A1 A2].
      rewrite A1, A2. split; ring.
    + split; ring.
Qed.

Lemma monthsFrom_filter transactions : forall m,
  monthsFrom (filter (fun t => validDate (date t)) transactions) m = monthsFrom transactions m.
Proof.
  induction transactions as [|t ts IH]; intros m; cbn [monthsFrom fold_left filter]; [reflexivity|].
  destruct (validDate (date t)) eqn:V; cbn [fold_left]; [rewrite V|]; apply IH.
Qed.

Lemma entryAt_In m e :
  NoDup (map ma_monthKey m) -> In e m -> entryAt (ma_monthKey e) m = (ma_income e, ma_expense e).
Proof.
  induction m as [|x m IH]; cbn [entryAt map]; intros N H; [destruct H|].
  destruct H as [->|H].
  - now rewrite String.eqb_refl.
  - inversion N as [|? ? Hx N']; subst.
    destruct (String.eqb (ma_monthKey x) (ma_monthKey e)) eqn:E; [|auto].
    apply String.eqb_eq in E. exfalso. apply Hx. rewrite E. now apply in_map.
Qed.

Lemma aggregateMonthly_keys transactions :
  map ma_monthKey (Summarize.aggregateMonthly transactions)
  = map ma_monthKey (sortedMonths transactions).
Proof.
  unfold Summarize.aggregateMonthly. fold (monthsFrom transactions []).
  fold (sortedMonths transactions). rewrite map_map. reflexivity.
Qed.

Lemma sortedMonths_perm transactions :
  Permutation (sortedMonths transactions) (monthsFrom transactions []).
Proof. apply sortBy_perm. Qed.

Lemma sortedMonths_sorted transactions :
  StronglySorted (fun a b => String.leb (ma_monthKey a) (ma_monthKey b) = true)
                 (sortedMonths transactions).
Proof.
  unfold sortedMonths.
  set (gt := fun a b : Summarize.MonthlyAggregate =>
               localeCompare_gt (ma_monthKey a) (ma_monthKey b)).
  apply (StronglySorted_weaken (before gt)).
  - intros a b _ _ H. unfold before, gt, localeCompare_gt in H. now apply string_ltb_leb.
  - apply sortBy_sorted.
    + intros a b H. unfold gt, localeCompare_gt, String.ltb in *.
      rewrite String.compare_antisym.
      destruct (String.compare (ma_monthKey b) (ma_monthKey a)); simpl; congruence.
    + unfold before, gt, localeCompare_gt. intros a b c H1 H2. apply string_ltb_leb.
      apply string_ltb_leb in H1, H2. eapply string_leb_trans; eauto.
Qed.

Lemma string_leb_ltb a b : String.leb a b = true -> a <> b -> String.ltb a b = true.
Proof.
  unfold String.leb, String.ltb. intros H N.
  destruct (String.compare a b) eqn:E; try reflexivity; try discriminate.
  apply String.compare_eq_iff in E. contradiction.
Qed.

Lemma sorted_strict {A} (key : A -> string) (l : list A) :
  NoDup (map key l) ->
  StronglySorted (fun a b => String.leb (key a) (key b) = true) l ->
  StronglySorted (fun a b => String.ltb (key a) (key b) = true) l.
Proof.
  intros N S. induction S as [|a l S IH F]; [constructor|].
  cbn [map] in N. inversion N as [|? ? Ha N']; subst.
  constructor; [now apply IH|].
  rewrite Forall_forall in *. intros b Hb. apply string_leb_ltb; [now apply F|].
  intros E. apply Ha. rewrite E. now apply in_map.
Qed.

Lemma sorted_map {A B} (R : B -> B -> Prop) (g : A -> B) (l : list A) :
  StronglySorted (fun a b => R (g a) (g b)) l -> StronglySorted R (map g l).
Proof.
  induction 1 as [|a l S IH F]; cbn [map]; constructor; [exact IH|].
  rewrite Forall_forall in *. intros b Hb. apply in_map_iff in Hb.
  destruct Hb as (x & <- & Hx). now apply F.
Qed.

Lemma isDateText_parts a b c :
  String.length a = 4%nat -> allChars isDigit a = true ->
  String.length b = 2%nat -> allChars isDigit b = true ->
  String.length c = 2%nat -> allChars isDigit c = true ->
  isDateText (a ++ "-" ++ b ++ "-" ++ c) = true.
Proof.
  destruct a as [|a1 [|a2 [|a3 [|a4 [|? ?]]]]]; try discriminate.
  destruct b as [|b1 [|b2 [|? ?]]]; try discriminate.
  destruct c as [|c1 [|c2 [|? ?]]]; try discriminate.
  cbn. intros _ Ha _ Hb _ Hc.
  rewrite !andb_true_r in *.
  repeat match goal with H : _ && _ = true |- _ => apply andb_true_iff in H; destruct H end.
  repeat match goal with H : isDigit _ = true |- _ => rewrite H; clear H end.
  reflexivity.
Qed.

Lemma validDate_civilDay s n : civilDay s n -> validDate s = true.
Proof.
  intros (y & m & d & Hy & Hv & -> & _).
  destruct (validDay_bounds _ _ _ Hv) as [Hm Hd].
  destruct (fourDigits_facts y Hy) as (Y1 & Y2 & _).
  destruct (twoDigits_facts m Hm) as (M1 & M2 & _).
  destruct (twoDigits_facts d Hd) as (D1 & D2 & _).
  rewrite validDate_isDateText. unfold canonical. now apply isDateText_parts.
Qed.

Lemma aggregateMonthly_fill transactions :
  Summarize.aggregateMonthly transactions = map fillSavings (sortedMonths transactions).
Proof. reflexivity. Qed.

Lemma sortedMonths_NoDup transactions : NoDup (map ma_monthKey (sortedMonths transactions)).
Proof.
  eapply Permutation_NoDup; [apply Permutation_map; symmetry; apply sortedMonths_perm|].
  apply monthsFrom_NoDup. constructor.
Qed.

Lemma aggregateMonthly_strict transactions :
  StronglySorted (fun a b => String.ltb (ma_monthKey a) (ma_monthKey b) = true)
                 (Summarize.aggregateMonthly transactions).
Proof.
  rewrite aggregateMonthly_fill. apply sorted_map. unfold fillSavings. cbn [ma_monthKey].
  apply sorted_strict; [apply sortedMonths_NoDup | apply sortedMonths_sorted].
Qed.

Lemma aggregateMonthly_dated_keys transactions k :
  In k (map ma_monthKey (Summarize.aggregateMonthly transactions)) <->
  exists t, In t transactions /\ validDate (date t) = true /\ take 7 (date t) = k.
Proof.
  rewrite aggregateMonthly_keys.
  assert (H : In k (map ma_monthKey (sortedMonths transactions)) <->
              In k (map ma_monthKey (monthsFrom transactions []))).
  { split; apply Permutation_in, Permutation_map; [|symmetry]; apply sortedMonths_perm. }
  rewrite H, monthsFrom_keys. cbn [map In]. intuition.
Qed.

Lemma aggregateMonthly_dated_entries transactions e :
  In e (Summarize.aggregateMonthly transactions) ->
  (ma_income e == datedTotal incomeOf (ma_monthKey e) transactions)%Q /\
  (ma_expense e == datedTotal expenseOf (ma_monthKey e) transactions)%Q /\
  ma_savings e = (ma_income e - ma_expense e)%Q.
Proof.
  rewrite aggregateMonthly_fill. intros He.
  apply in_map_iff in He. destruct He as (x & <- & Hx).
  unfold fillSavings. cbn [ma_income ma_expense ma_savings ma_monthKey].
  apply (Permutation_in _ (sortedMonths_perm transactions)) in Hx.
  pose proof (entryAt_In _ x (monthsFrom_NoDup transactions [] (NoDup_nil _)) Hx) as E.
  destruct (monthsFrom_at (ma_monthKey x) transactions []) as [H1 H2].
  rewrite E in H1, H2. cbn [entryAt fst snd] in H1, H2.
  split; [rewrite H1; ring | split; [rewrite H2; ring | reflexivity]].
Qed.

(** [aggregateMonthly] of summarize.ts.  A transaction counts when its date
    is four digits, a hyphen, two digits, a hyphen and two digits; the others
    are skipped.  The result has one entry for each month (the first seven
    characters of the date) of a transaction that counts, in strictly
    ascending order of the month keys.  The income of an entry is the sum of
    the amounts of the credits of the month, its expense the sum of the
    absolute amounts of its debits, its savings the difference.  The
    transactions that are skipped can be left out beforehand.  The canonical
    text of a day of the years 1000 to 9999 counts. *)
Theorem aggregateMonthly_dated_totals (transactions : list Transaction) :
  let result := Summarize.aggregateMonthly transactions in
  let dated := filter (fun t => validDate (date t)) transactions in
  (forall s, validDate s = isDateText s) /\
  (forall s n, civilDay s n -> validDate s = true) /\
  StronglySorted (fun a b => String.ltb (ma_monthKey a) (ma_monthKey b) = true) result /\
  (forall k, In k (map ma_monthKey result) <->
             exists t, In t transactions /\ validDate (date t) = true /\
                       take 7 (date t) = k) /\
  (forall e, In e result ->
     (ma_income e == datedTotal incomeOf (ma_monthKey e) transactions)%Q /\
     (ma_expense e == datedTotal expenseOf (ma_monthKey e) transactions)%Q /\
     ma_savings e = (ma_income e - ma_expense e)%Q) /\
  Summarize.aggregateMonthly dated = result.
Proof.
  intros result dated.
  split; [exact validDate_isDateText|]. split; [exact validDate_civilDay|].
  split; [apply aggregateMonthly_strict|].
  split; [apply aggregateMonthly_dated_keys|].
  split; [apply aggregateMonthly_dated_entries|].
  subst result dated. unfold Summarize.aggregateMonthly.
  fold (monthsFrom (filter (fun t => validDate (date t)) transactions) []).
  fold (monthsFrom transactions []). now rewrite monthsFrom_filter.
Qed.

Lemma aggregateMonthly_dated_totals_witness :
  map ma_monthKey (Summarize.aggregateMonthly sample) = ["2025-01"; "2025-02"] /\
  validDate "2025-01-05" = true.
Proof.
  split; [reflexivity|].
  exact (proj1 (proj2 (aggregateMonthly_dated_totals sample)) "2025-01-05" 20093 civilDay_jan5).
Defined.

(** ** The two monthly aggregations *)

Lemma forall2_of_keys {A B} (k1 : A -> string) (k2 : B -> string)
    (P1 : A -> Prop) (P2 : B -> Prop) (R : A -> B -> Prop) :
  (forall a b, k1 a = k2 b -> P1 a -> P2 b -> R a b) ->
  forall l1 l2, map k1 l1 = map k2 l2 -> Forall P1 l1 -> Forall P2 l2 -> Forall2 R l1 l2.
Proof.
  intros H. induction l1 as [|a l1 IH]; intros [|b l2] E F1 F2; try discriminate.
  - constructor.
  - cbn [map] in E. injection E as E1 E2.
    inversion F1; inversion F2; subst. constructor; auto.
Qed.

Lemma sorted_keys_eq (l1 l2 : list string) :
  StronglySorted leS l1 -> StronglySorted leS l2 -> NoDup l1 -> NoDup l2 ->
  (forall k, In k l1 <-> In k l2) -> l1 = l2.
Proof.
  intros S1 S2 N1 N2 H.
  set (gt := fun a b : string => String.ltb b a).
  assert (W : forall l, StronglySorted leS l -> StronglySorted (before gt) l).
  { intros l. apply StronglySorted_weaken. intros a b _ _ L.
    unfold before, gt. now apply string_ltb_leb. }
  apply (sorted_perm_eq gt).
  - unfold before, gt. intros a b H1 H2. apply string_ltb_leb in H1, H2.
    now apply String.leb_antisym.
  - now apply W.
  - now apply W.
  - now apply NoDup_Permutation.
Qed.

Lemma wellFormed_parts t :
  ((type t = Credit -> 0 <= amount t) /\ (type t = Debit -> amount t <= 0))%Q ->
  (incomeOf t == incomePart t)%Q /\ (expenseOf t == expensePart t)%Q.
Proof.
  intros [Hc Hd]. unfold incomeOf, expenseOf, incomePart, expensePart.
  destruct (type t).
  - specialize (Hc eq_refl). apply Qle_bool_iff in Hc. rewrite Hc. split; reflexivity.
  - specialize (Hd eq_refl). destruct (Qle_bool 0 (amount t)) eqn:E.
    + apply Qle_bool_iff in E. assert (Z0 : (amount t == 0)%Q) by lra.
      rewrite Z0. split; reflexivity.
    + split; reflexivity.
Qed.

(** On a ledger where every date is of the form [YYYY-MM-DD], no credit is
    negative and no debit positive, the monthly aggregation of summarize.ts
    (by the type) and that of forecast.ts (by the sign of the amount) give
    the same months with the same income, expense and savings. *)
Theorem aggregateMonthly_agree (transactions : list Transaction) :
  (forall t, In t transactions ->
     validDate (date t) = true /\
     (type t = Credit -> 0 <= amount t)%Q /\ (type t = Debit -> amount t <= 0)%Q) ->
  Forall2 (fun a b => ma_monthKey a = m_month b /\
                      (ma_income a == m_income b)%Q /\
                      (ma_expense a == m_expense b)%Q /\
                      (ma_savings a == m_savings b)%Q)
          (Summarize.aggregateMonthly transactions)
          (Forecast.aggregateMonthly transactions).
Proof.
  intros W.
  pose proof (aggregateMonthly_strict transactions) as S1.
  pose proof (aggregateMonthly_dated_keys transactions) as K1.
  pose proof (aggregateMonthly_dated_entries transactions) as T1.
  apply (forall2_of_keys ma_monthKey m_month
           (fun a => (ma_income a == datedTotal incomeOf (ma_monthKey a) transactions)%Q /\
                     (ma_expense a == datedTotal expenseOf (ma_monthKey a) transactions)%Q /\
                     ma_savings a = (ma_income a - ma_expense a)%Q)
           (fun b => (m_income b == monthTotal incomePart (m_month b) transactions)%Q /\
                     (m_expense b == monthTotal expensePart (m_month b) transactions)%Q /\
                     (m_savings b == m_income b - m_expense b)%Q)).
  - intros a b E (A1 & A2 & A3) (B1 & B2 & B3). split; [exact E|].
    assert (I : (datedTotal incomeOf (ma_monthKey a) transactions
                 == monthTotal incomePart (m_month b) transactions)%Q).
    { rewrite E. apply total_ext. intros t Ht. destruct (W t Ht) as (V & Hs).
      rewrite V. cbn [andb]. destruct (String.eqb _ _); [|reflexivity].
      apply (wellFormed_parts t Hs). }
    assert (X : (datedTotal expenseOf (ma_monthKey a) transactions
                 == monthTotal expensePart (m_month b) transactions)%Q).
    { rewrite E. apply total_ext. intros t Ht. destruct (W t Ht) as (V & Hs).
      rewrite V. cbn [andb]. destruct (String.eqb _ _); [|reflexivity].
      apply (wellFormed_parts t Hs). }
    assert (HI : (ma_income a == m_income b)%Q) by now rewrite A1, B1.
    assert (HX : (ma_expense a == m_expense b)%Q) by now rewrite A2, B2.
    split; [exact HI|]. split; [exact HX|]. rewrite A3, B3, HI, HX. reflexivity.
  - apply sorted_keys_eq.
    + apply sorted_map with (R := leS).
      eapply StronglySorted_weaken; [|exact S1].
      intros a b _ _ H. unfold leS, String.leb. unfold String.ltb in H.
      destruct (String.compare (ma_monthKey a) (ma_monthKey b)); congruence.
    + apply aggregateMonthly_sorted.
    + rewrite aggregateMonthly_keys. apply sortedMonths_NoDup.
    + rewrite aggregateMonthly_months.
      eapply Permutation_NoDup; [apply Permutation_map; symmetry; apply sortBy_perm|].
      apply monthsOf_NoDup. constructor.
    + intros k. rewrite K1, aggregateMonthly_In_month. split.
      * intros (t & H1 & _ & H3). eauto.
      * intros (t & H1 & H3). exists t. repeat split; try assumption. apply (W t H1).
  - rewrite Forall_forall. exact T1.
  - rewrite Forall_forall. intros b Hb. now apply aggregateMonthly_totals.
Qed.

Lemma aggregateMonthly_agree_witness :
  Forall2 (fun a b => ma_monthKey a = m_month b /\
                      (ma_income a == m_income b)%Q /\
                      (ma_expense a == m_expense b)%Q /\
                      (ma_savings a == m_savings b)%Q)
          (Summarize.aggregateMonthly sample)
          (Forecast.aggregateMonthly sample).
Proof.
  apply (aggregateMonthly_agree sample).
  intros t [<-|[<-|[<-|[<-|[<-|[]]]]]];
    (split; [reflexivity | split; intros E; try discriminate E; vm_compute; discriminate]).
Defined.

(** ** aggregateCategories: the order of the entries *)

Lemma labelsOf_nonempty t : labelsOf t <> [].
Proof.
  unfold labelsOf. destruct (filter _ _); discriminate.
Qed.

Lemma aggregateCategories_ranked_sorted transactions :
  StronglySorted (fun a b => (expense b <= expense a)%Q) (aggregateCategories transactions).
Proof.
  unfold aggregateCategories.
  set (gt := fun a b : CategorySummary => Qgtb (expense b - expense a) 0).
  apply (StronglySorted_weaken (before gt)).
  - intros a b _ _ H. unfold before, gt in H. apply Qgtb_false in H. lra.
  - apply sortBy_sorted.
    + intros a b H. unfold gt in *. apply Qgtb_true in H. apply Qgtb_false. lra.
    + unfold before, gt. intros a b c H1 H2. apply Qgtb_false in H1, H2.
      apply Qgtb_false. lra.
Qed.

Lemma labelsOf_no_empty t : ~ In "" (labelsOf t).
Proof.
  unfold labelsOf. cbv zeta.
  destruct (filter (fun w => negb (String.eqb w ""))
                   (split "-" (if String.eqb (category t) "" then "Other" else category t)))
    as [|l ls] eqn:F.
  - intros [C|[]]. discriminate.
  - rewrite <- F. intros C. apply filter_In in C. destruct C as [_ C].
    rewrite String.eqb_refl in C. discriminate.
Qed.


Lemma setAddZ_In x y l : In y (setAddZ x l) <-> y = x \/ In y l.
Proof.
  unfold setAddZ. destruct (existsb (Z.eqb x) l) eqn:E.
  - apply existsb_exists in E. destruct E as (z & Hz & Ez). apply Z.eqb_eq in Ez. subst z.
    split; [auto | intros [->|H]; auto].
  - rewrite in_app_iff. simpl. intuition.
Qed.

Lemma setAddZ_NoDup x l : NoDup l -> NoDup (setAddZ x l).
Proof.
  intros H. unfold setAddZ. destruct (existsb (Z.eqb x) l) eqn:E; [exact H|].
  apply NoDup_rev in H.
  rewrite <- (rev_involutive (l ++ [x])), rev_app_distr. apply NoDup_rev.
  simpl. constructor; [|exact H].
  rewrite <- in_rev. intros Hin.
  assert (C : existsb (Z.eqb x) l = true)
    by (apply existsb_exists; exists x; split; [exact Hin | apply Z.eqb_refl]).
  congruence.
Qed.

Lemma addIds_In i lst : forall ids,
  In i (addIds lst ids) <-> In i ids \/ exists tx, In tx lst /\ id tx = Some i.
Proof.
  induction lst as [|t lst IH]; intros ids; cbn [addIds fold_left].
  - split; [auto | intros [H|(tx & [] & _)]; exact H].
  - fold (addIds lst (match id t with Some i0 => setAddZ i0 ids | None => ids end)).
    rewrite IH. destruct (id t) as [j|] eqn:E.
    + rewrite setAddZ_In. split.
      * intros [[->|H]|(tx & H1 & H2)]; [right; exists t; split; [now left | exact E]
                                         | now left | right; exists tx; split; [now right | exact H2]].
      * intros [H|(tx & [<-|H1] & H2)]; [left; now right | left; left; congruence
                                         | right; eauto].
    + split.
      * intros [H|(tx & H1 & H2)]; [now left | right; exists tx; split; [now right | exact H2]].
      * intros [H|(tx & [<-|H1] & H2)]; [now left | congruence | right; eauto].
Qed.

Lemma addIds_NoDup lst : forall ids, NoDup ids -> NoDup (addIds lst ids).
Proof.
  induction lst as [|t lst IH]; intros ids N; cbn [addIds fold_left]; [exact N|].
  apply IH. destruct (id t); [now apply setAddZ_NoDup | exact N].
Qed.

(** ** buildAnalytics *)

Lemma annotate_fields ids t :
  id (BuildAnalytics.annotate ids t) = id t /\
  user_id (BuildAnalytics.annotate ids t) = user_id t /\
  date (BuildAnalytics.annotate ids t) = date t /\
  description (BuildAnalytics.annotate ids t) = description t /\
  amount (BuildAnalytics.annotate ids t) = amount t /\
  type (BuildAnalytics.annotate ids t) = type t /\
  category (BuildAnalytics.annotate ids t) = category t.
Proof.
  unfold BuildAnalytics.annotate. destruct (id t) as [i|] eqn:E.
  - destruct (existsb (Z.eqb i) ids); cbn; rewrite ?E; repeat split.
  - rewrite E. repeat split.
Qed.

Lemma fold_left_map {A B C} (f : A -> C -> A) (g : B -> C) l : forall a,
  fold_left f (map g l) a = fold_left (fun a x => f a (g x)) l a.
Proof. induction l as [|x l IH]; intros a; cbn; [reflexivity | apply IH]. Qed.

Lemma fold_left_ext {A B} (f g : A -> B -> A) l :
  (forall a x, f a x = g a x) -> forall a, fold_left f l a = fold_left g l a.
Proof.
  intros H. induction l as [|x l IH]; intros a; cbn; [reflexivity|]. now rewrite H, IH.
Qed.

Lemma summarize_annotate ids l :
  summarize (map (BuildAnalytics.annotate ids) l) = summarize l.
Proof.
  unfold summarize. rewrite fold_left_map.
  rewrite (fold_left_ext _ (fun acc t =>
                              match type t with
                              | Credit => (fst acc + amount t, snd acc)%Q
                              | Debit => (fst acc, snd acc + Qabs (amount t))%Q
                              end)); [reflexivity|].
  intros a t. destruct (annotate_fields ids t) as (_ & _ & _ & _ & -> & -> & _). reflexivity.
Qed.

Lemma accumulateMonth_annotate ids t k m :
  accumulateMonth (BuildAnalytics.annotate ids t) k m = accumulateMonth t k m.
Proof.
  assert (A : forall e, addToMonth (BuildAnalytics.annotate ids t) e = addToMonth t e).
  { intros e. unfold addToMonth.
    destruct (annotate_fields ids t) as (_ & _ & _ & _ & -> & -> & _). reflexivity. }
  induction m as [|e m IH]; cbn [accumulateMonth]; [now rewrite A|].
  destruct (String.eqb (ma_monthKey e) k); [now rewrite A | now rewrite IH].
Qed.

Lemma aggregateMonthly_annotate ids l :
  Summarize.aggregateMonthly (map (BuildAnalytics.annotate ids) l)
  = Summarize.aggregateMonthly l.
Proof.
  unfold Summarize.aggregateMonthly. rewrite fold_left_map.
  rewrite (fold_left_ext _ (fun m t => if validDate (date t)
                                       then accumulateMonth t (take 7 (date t)) m else m));
    [reflexivity|].
  intros m t. destruct (annotate_fields ids t) as (_ & _ & -> & _).
  now rewrite accumulateMonth_annotate.
Qed.

Lemma accumulate_annotate ids t c m :
  accumulate (BuildAnalytics.annotate ids t) c m = accumulate t c m.
Proof.
  assert (A : forall e, addTo (BuildAnalytics.annotate ids t) e = addTo t e).
  { intros e. unfold addTo.
    destruct (annotate_fields ids t) as (_ & _ & _ & _ & -> & -> & _). reflexivity. }
  induction m as [|e m IH]; cbn [accumulate]; [now rewrite A|].
  destruct (String.eqb (cs_category e) c); [now rewrite A | now rewrite IH].
Qed.

Lemma aggregateCategories_annotate ids l :
  aggregateCategories (map (BuildAnalytics.annotate ids) l) = aggregateCategories l.
Proof.
  unfold aggregateCategories. rewrite fold_left_map.
  rewrite (fold_left_ext _ (fun m t => fold_left (fun m' c => accumulate t c m')
                                                 (labelsOf t) m)); [reflexivity|].
  intros m t.
  assert (L : labelsOf (BuildAnalytics.annotate ids t) = labelsOf t).
  { unfold labelsOf. destruct (annotate_fields ids t) as (_ & _ & _ & _ & _ & _ & ->).
    reflexivity. }
  rewrite L. apply fold_left_ext. intros a c. apply accumulate_annotate.
Qed.


Lemma normalizeDescription_unfold d :
  normalizeDescription d = trim (collapseSpaces false (mapChars keepPlain (toLowerCase d))).
Proof. reflexivity. Qed.

Lemma plainChar_lower c : plainChar c = true -> toLowerChar c = c.
Proof. destruct c as [[] [] [] [] [] [] [] []]; intros H; try reflexivity; discriminate H. Qed.

Lemma plainChar_keep c : plainChar c = true -> keepPlain c = c.
Proof. destruct c as [[] [] [] [] [] [] [] []]; intros H; try reflexivity; discriminate H. Qed.

Lemma plainChar_space c : plainChar c = true -> isSpace c = true -> c = " "%char.
Proof.
  destruct c as [[] [] [] [] [] [] [] []]; intros H1 H2; try reflexivity;
    try discriminate H1; discriminate H2.
Qed.

Lemma keepPlain_kinds c : isSpace (keepPlain c) = true \/ plainChar (keepPlain c) = true.
Proof. destruct c as [[] [] [] [] [] [] [] []]; (now left) || (now right). Qed.

Lemma nonspace_kept c :
  isSpace (keepPlain c) = false -> plainChar (keepPlain c) = true.
Proof. destruct c as [[] [] [] [] [] [] [] []]; intros H; try reflexivity; discriminate H. Qed.

Lemma mapChars_id f s : allChars (fun c => Ascii.eqb (f c) c) s = true -> mapChars f s = s.
Proof.
  induction s as [|c s IH]; cbn [allChars mapChars]; [reflexivity|].
  intros H. apply andb_true_iff in H. destruct H as [H1 H2].
  apply Ascii.eqb_eq in H1. now rewrite H1, IH.
Qed.

Lemma collapse_plain inRun s :
  allChars (fun c => isSpace (keepPlain c) || plainChar (keepPlain c)) s = true ->
  allChars plainChar (collapseSpaces inRun (mapChars keepPlain s)) = true.
Proof.
  revert inRun. induction s as [|c s IH]; intros inRun H; [reflexivity|].
  cbn [mapChars collapseSpaces]. cbn [allChars] in H. apply andb_true_iff in H.
  destruct H as [_ H2].
  destruct (isSpace (keepPlain c)) eqn:S.
  - destruct inRun; [now apply IH|]. cbn [allChars]. now rewrite IH.
  - cbn [allChars]. rewrite (nonspace_kept c S). now apply IH.
Qed.

Lemma allChars_kinds s :
  allChars (fun c => isSpace (keepPlain c) || plainChar (keepPlain c)) s = true.
Proof.
  induction s as [|c s IH]; [reflexivity|]. cbn [allChars]. rewrite IH, andb_true_r.
  destruct (keepPlain_kinds c) as [H|H]; rewrite H; [reflexivity | apply orb_true_r].
Qed.

Lemma collapse_spaced inRun s : spaced inRun (collapseSpaces inRun s) = true.
Proof.
  revert inRun. induction s as [|c s IH]; intros inRun; [reflexivity|].
  cbn [collapseSpaces]. destruct (isSpace c) eqn:S.
  - destruct inRun; [apply IH|]. cbn [spaced]. cbn. apply IH.
  - cbn [spaced]. rewrite S. apply IH.
Qed.

Lemma trimStart_plain p s : allChars p s = true -> allChars p (trimStart s) = true.
Proof.
  induction s as [|c s IH]; [reflexivity|]. cbn [allChars trimStart]. intros H.
  apply andb_true_iff in H. destruct H as [H1 H2].
  destruct (isSpace c); [now apply IH|]. cbn [allChars]. now rewrite H1, H2.
Qed.

Lemma trimEnd_plain p s : allChars p s = true -> allChars p (trimEnd s) = true.
Proof.
  induction s as [|c s IH]; [reflexivity|]. cbn [allChars trimEnd]. intros H.
  apply andb_true_iff in H. destruct H as [H1 H2]. specialize (IH H2).
  destruct (trimEnd s) as [|c' r].
  - destruct (isSpace c); [reflexivity|]. cbn [allChars]. now rewrite H1.
  - cbn [allChars] in *. now rewrite H1, IH.
Qed.

Lemma trimStart_spaced prev s : spaced prev s = true -> spaced false (trimStart s) = true.
Proof.
  revert prev. induction s as [|c s IH]; intros prev H; [reflexivity|].
  cbn [trimStart]. cbn [spaced] in H. destruct (isSpace c) eqn:S.
  - apply andb_true_iff in H. destruct H as [_ H]. now apply (IH true).
  - cbn [spaced]. now rewrite S.
Qed.

Lemma trimEnd_spaced s : forall prev, spaced prev s = true -> spaced prev (trimEnd s) = true.
Proof.
  induction s as [|c s IH]; intros prev H; [reflexivity|].
  cbn [trimEnd]. cbn [spaced] in H. destruct (isSpace c) eqn:S.
  - apply andb_true_iff in H. destruct H as [H1 H2]. specialize (IH true H2).
    destruct (trimEnd s) as [|c' r]; [reflexivity|].
    cbn [spaced]. rewrite S, H1. exact IH.
  - specialize (IH false H). destruct (trimEnd s) as [|c' r].
    + cbn [spaced]. now rewrite S.
    + cbn [spaced]. rewrite S. exact IH.
Qed.

Lemma collapse_id s : forall prev,
  allChars plainChar s = true -> spaced prev s = true -> collapseSpaces prev s = s.
Proof.
  induction s as [|c s IH]; intros prev P S; [reflexivity|].
  cbn [allChars] in P. apply andb_true_iff in P. destruct P as [P1 P2].
  cbn [spaced] in S. cbn [collapseSpaces]. destruct (isSpace c) eqn:Sc.
  - apply andb_true_iff in S. destruct S as [S1 S2]. apply negb_true_iff in S1. subst prev.
    rewrite (plainChar_space c P1 Sc). now rewrite (IH true P2 S2).
  - now rewrite (IH false P2 S).
Qed.

Lemma plain_lower s : allChars plainChar s = true -> toLowerCase s = s.
Proof.
  intros H. apply mapChars_id. eapply allChars_impl; [|exact H].
  intros c Hc. cbv beta. rewrite (plainChar_lower c Hc). apply Ascii.eqb_refl.
Qed.

Lemma plain_keep s : allChars plainChar s = true -> mapChars keepPlain s = s.
Proof.
  intros H. apply mapChars_id. eapply allChars_impl; [|exact H].
  intros c Hc. cbv beta. rewrite (plainChar_keep c Hc). apply Ascii.eqb_refl.
Qed.

Lemma normalizeDescription_plain d : allChars plainChar (normalizeDescription d) = true.
Proof.
  rewrite normalizeDescription_unfold. unfold trim.
  apply trimEnd_plain, trimStart_plain, collapse_plain, allChars_kinds.
Qed.

Lemma normalizeDescription_spaced d : spaced false (normalizeDescription d) = true.
Proof.
  rewrite normalizeDescription_unfold. unfold trim.
  apply trimEnd_spaced, (trimStart_spaced false), collapse_spaced.
Qed.

Lemma normalizeDescription_fixed s :
  allChars plainChar s = true -> spaced false s = true -> trim s = s ->
  normalizeDescription s = s.
Proof.
  intros P S T. rewrite normalizeDescription_unfold.
  now rewrite (plain_lower s P), (plain_keep s P), (collapse_id s false P S).
Qed.

Lemma spaced_no_double s : forall prev,
  allChars plainChar s = true -> spaced prev s = true -> includes s "  " = false.
Proof.
  induction s as [|c s IH]; intros prev P S; [reflexivity|].
  cbn [allChars] in P. apply andb_true_iff in P. destruct P as [P1 P2].
  cbn [spaced] in S. cbn [includes startsWith].
  destruct (isSpace c) eqn:Sc.
  - apply andb_true_iff in S. destruct S as [_ S2]. rewrite (IH true P2 S2), orb_false_r.
    destruct s as [|c' s']; [now rewrite andb_false_r|].
    cbn [spaced] in S2. destruct (Ascii.eqb " " c') eqn:E.
    + apply Ascii.eqb_eq in E. subst c'. cbn in S2. discriminate.
    + now rewrite andb_false_r.
  - rewrite (IH false P2 S), orb_false_r.
    destruct (Ascii.eqb " " c) eqn:E; [|reflexivity].
    apply Ascii.eqb_eq in E. subst c. discriminate.
Qed.

(** For a description of ASCII characters, [normalizeDescription] gives a
    canonical text: lower-case letters, digits and single spaces, none at
    either end.  It leaves such a text as it is, so normalizing twice is
    normalizing once; and it does not see the case of the letters. *)
Theorem normalizeDescription_canonical (desc : string) :
  isAscii desc = true ->
  normalizeDescription (normalizeDescription desc) = normalizeDescription desc /\
  normalizeDescription (toUpperCase desc) = normalizeDescription desc /\
  normalizeDescription (toLowerCase desc) = normalizeDescription desc /\
  allChars plainChar (normalizeDescription desc) = true /\
  includes (normalizeDescription desc) "  " = false /\
  trim (normalizeDescription desc) = normalizeDescription desc.
Proof.
  intros _.
  assert (T : trim (normalizeDescription desc) = normalizeDescription desc)
    by (rewrite normalizeDescription_unfold; apply trim_idem).
  split; [|split; [|split; [|split; [|split]]]].
  - apply normalizeDescription_fixed;
      [apply normalizeDescription_plain | apply normalizeDescription_spaced | exact T].
  - rewrite !normalizeDescription_unfold. now rewrite toLowerCase_toUpperCase.
  - rewrite !normalizeDescription_unfold. now rewrite toLowerCase_idem.
  - apply normalizeDescription_plain.
  - apply (spaced_no_double _ false);
      [apply normalizeDescription_plain | apply normalizeDescription_spaced].
  - exact T.
Qed.

(** The description of a card payment, in capitals and with punctuation. *)
Lemma normalizeDescription_canonical_witness :
  normalizeDescription "  NETFLIX.COM   #42 " = "netflix com 42" /\
  normalizeDescription (toUpperCase "  NETFLIX.COM   #42 ")
  = normalizeDescription "  NETFLIX.COM   #42 ".
Proof.
  split; [reflexivity|].
  apply (normalizeDescription_canonical "  NETFLIX.COM   #42 " eq_refl).
Defined.

(** ** detectAnomalies: what does not count *)

Lemma categoryValues_fold transactions : forall m,
  fold_left (fun m t => if Qgtb 0 (amount t) then pushValue (category t) (Qabs (amount t)) m
                        else m)
            (filter isExpense transactions) m
  = fold_left (fun m t => if Qgtb 0 (amount t) then pushValue (category t) (Qabs (amount t)) m
                          else m)
              transactions m.
Proof.
  induction transactions as [|t ts IH]; intros m; cbn [filter fold_left]; [reflexivity|].
  unfold isExpense at 1. destruct (Qgtb 0 (amount t)) eqn:E; cbn [fold_left]; [rewrite E|];
    apply IH.
Qed.

Lemma filterMap_flag stats zM zS transactions :
  filterMap (flag stats zM zS) (filter isExpense transactions)
  = filterMap (flag stats zM zS) transactions.
Proof.
  induction transactions as [|t ts IH]; cbn [filter filterMap]; [reflexivity|].
  unfold isExpense at 1. unfold flag at 2.
  destruct (Qgtb 0 (amount t)) eqn:E; [|exact IH].
  cbn [filterMap]. unfold flag at 1. rewrite E. fold (flag stats zM zS t).
  destruct (flag stats zM zS t); now rewrite IH.
Qed.

Lemma filterMap_length {A B} (f : A -> option B) l :
  (List.length (filterMap f l) <= List.length l)%nat.
Proof. induction l as [|x l IH]; simpl; [lia|]. destruct (f x); simpl; lia. Qed.

Lemma observations_same_category transactions c :
  observations (filter (fun t => String.eqb (category t) c) transactions) c
  = observations transactions c.
Proof.
  unfold observations. f_equal.
  induction transactions as [|t ts IH]; cbn [filter]; [reflexivity|].
  destruct (String.eqb (category t) c) eqn:E; cbn [filter]; rewrite ?E, ?andb_false_r, ?andb_true_r.
  - destruct (Qgtb 0 (amount t)); now rewrite IH.
  - exact IH.
Qed.


(** ** movingAverage and the window *)

Lemma sliceLast_zero {A} (l : list A) : sliceLast 0 l = l.
Proof.
  unfold sliceLast. cbn [Z.opp Z.ltb Z.compare].
  rewrite Z.min_l by lia. reflexivity.
Qed.

Lemma sliceLast_negative {A} (window : Z) (l : list A) :
  window < 0 -> sliceLast window l = skipn (Z.to_nat (- window)) l.
Proof.
  intros H. unfold sliceLast.
  destruct (Z.ltb_spec (- window) 0); [lia|].
  destruct (Z.le_ge_cases (- window) (Z.of_nat (List.length l))) as [L|L].
  - now rewrite Z.min_l by exact L.
  - rewrite Z.min_r by exact L. rewrite Nat2Z.id, skipn_all.
    symmetry. apply skipn_all2. lia.
Qed.

Lemma sliceLast_all {A} (window : Z) (l : list A) :
  Z.of_nat (List.length l) <= window -> sliceLast window l = l.
Proof.
  intros H. unfold sliceLast.
  destruct (Z.ltb_spec (- window) 0).
  - rewrite Z.max_r by lia. reflexivity.
  - assert (window = 0) by lia. subst. rewrite Z.min_l by lia. reflexivity.
Qed.

Lemma sliceLast_empty {A} (window : Z) (l : list A) :
  sliceLast window l = [] <-> l = [] \/ (window < 0 /\ Z.of_nat (List.length l) <= - window).
Proof.
  split.
  - intros E. destruct l as [|x l]; [now left|]. right.
    destruct (Z_lt_le_dec window 0) as [N|N].
    + split; [exact N|]. rewrite sliceLast_negative in E by exact N.
      assert (L : List.length (skipn (Z.to_nat (- window)) (x :: l)) = O) by now rewrite E.
      rewrite length_skipn in L. lia.
    + exfalso. destruct (Z.eq_dec window 0) as [->|N0].
      * rewrite sliceLast_zero in E. discriminate.
      * rewrite sliceLast_trailing in E by lia.
        apply (trailing_nonempty (Z.to_nat window) (x :: l)); [lia | discriminate | exact E].
  - intros [->|[N L]].
    + unfold sliceLast. now rewrite skipn_nil.
    + rewrite sliceLast_negative by exact N. apply skipn_all2. lia.
Qed.

(** ** The text of an amount *)

Lemma digitChar_isDigit d : 0 <= d <= 9 -> isDigit (digitChar d) = true.
Proof.
  intros H.
  assert (C : d = 0 \/ d = 1 \/ d = 2 \/ d = 3 \/ d = 4 \/ d = 5 \/ d = 6 \/ d = 7
              \/ d = 8 \/ d = 9) by lia.
  repeat (destruct C as [C|C]); subst d; reflexivity.
Qed.

Lemma decDigits_allDigits fuel : forall n acc,
  0 <= n -> allChars isDigit acc = true -> allChars isDigit (decDigits fuel n acc) = true.
Proof.
  induction fuel as [|f IH]; intros n acc Hn Hacc; cbn [decDigits]; [exact Hacc|].
  assert (D : allChars isDigit (String (digitChar (n mod 10)) acc) = true).
  { cbn [allChars]. rewrite Hacc, andb_true_r. apply digitChar_isDigit.
    pose proof (Z.mod_pos_bound n 10). lia. }
  destruct (n <? 10); [exact D|]. apply IH; [|exact D].
  apply Z.div_pos; lia.
Qed.

Lemma decString_allDigits n : 0 <= n -> allChars isDigit (decString n) = true.
Proof.
  intros H. rewrite decString_nonneg by exact H. now apply decDigits_allDigits.
Qed.

Lemma cents_nonneg x : (0 <= x)%Q -> 0 <= cents x.
Proof.
  intros H. unfold cents.
  assert (L : (inject_Z 0 <= x * 100 + (1 # 2))%Q) by (change (inject_Z 0) with 0%Q; lra).
  apply Qfloor_resp_le in L. now rewrite Qfloor_Z in L.
Qed.

Lemma toFixed2_numeric x : allChars numericChar (toFixed2 x) = true.
Proof.
  assert (P : forall y, (0 <= y)%Q -> allChars numericChar (toFixed2 y) = true).
  { intros y Hy. rewrite toFixed2_nonneg by exact Hy.
    pose proof (cents_nonneg y Hy) as C.
    rewrite !allChars_app. cbn [allChars].
    assert (D1 : allChars isDigit (decString (cents y / 100)) = true)
      by (apply decString_allDigits, Z.div_pos; lia).
    assert (D2 : allChars isDigit (twoDigits (cents y mod 100)) = true).
    { rewrite twoDigits_digits by (apply Z.mod_pos_bound; lia).
      pose proof (Z.mod_pos_bound (cents y) 100 ltac:(lia)) as B.
      cbn [allChars].
      rewrite !digitChar_isDigit; [reflexivity | |]; Z.div_mod_to_equations; lia. }
    assert (W : forall s, allChars isDigit s = true -> allChars numericChar s = true).
    { intros s. apply allChars_impl. intros c Hc. unfold numericChar. now rewrite Hc. }
    rewrite (W _ D1), (W _ D2). reflexivity. }
  destruct (Qlt_le_dec x 0) as [N|N]; [|now apply P].
  rewrite toFixed2_neg by exact N. cbn [allChars]. rewrite P by lra. reflexivity.
Qed.

Lemma bar_in_middle a b : allChars noBar (a ++ String "|" b) = false.
Proof.
  induction a as [|c a IH]; cbn [append allChars]; [reflexivity|].
  rewrite IH. apply andb_false_r.
Qed.

Lemma split_at_first_bar a : forall a' r r',
  allChars noBar a = true -> allChars noBar a' = true ->
  a ++ String "|" r = a' ++ String "|" r' -> a = a' /\ r = r'.
Proof.
  induction a as [|c a IH]; intros [|c' a'] r r' H H' E; cbn [append] in E.
  - injection E as E. auto.
  - injection E as E1 E2. subst c'. cbn in H'. discriminate.
  - injection E as E1 E2. subst c. cbn in H. discriminate.
  - injection E as E1 E2. subst c'.
    cbn [allChars] in H, H'. apply andb_true_iff in H, H'.
    destruct (IH a' r r' (proj2 H) (proj2 H') E2) as [-> ->]. auto.
Qed.

Lemma split_at_last_bar x : forall x' a a',
  allChars noBar a = true -> allChars noBar a' = true ->
  x ++ String "|" a = x' ++ String "|" a' -> x = x' /\ a = a'.
Proof.
  induction x as [|c x IH]; intros [|c' x'] a a' H H' E; cbn [append] in E.
  - injection E as E. auto.
  - injection E as E1 E2. subst. now rewrite bar_in_middle in H.
  - injection E as E1 E2. subst. now rewrite bar_in_middle in H'.
  - injection E as E1 E2. subst c'.
    destruct (IH x' a a' H H' E2) as [-> ->]. auto.
Qed.

Lemma numeric_noBar s : allChars numericChar s = true -> allChars noBar s = true.
Proof.
  apply allChars_impl. intros c.
  destruct c as [[] [] [] [] [] [] [] []]; intros H; try reflexivity; discriminate H.
Qed.

(** Two transactions have the same key exactly when they have the same
    date up to surrounding white space, the same description up to
    surrounding white space and the case of letters, and amounts with the
    same text to two decimals; this as long as the dates hold no vertical
    bar.  The other fields do not count. *)
Theorem makeTransactionKey_equal (t u : Transaction) :
  allChars noBar (trim (date t)) = true ->
  allChars noBar (trim (date u)) = true ->
  (makeTransactionKey t = makeTransactionKey u <->
   trim (date t) = trim (date u) /\
   toLowerCase (trim (description t)) = toLowerCase (trim (description u)) /\
   toFixed2 (amount t) = toFixed2 (amount u)).
Proof.
  intros Ht Hu. unfold makeTransactionKey. cbv zeta. split.
  - intros E.
    change (trim (date t) ++ String "|" (toLowerCase (trim (description t)) ++ String "|"
              (toFixed2 (amount t)))
            = trim (date u) ++ String "|" (toLowerCase (trim (description u)) ++ String "|"
              (toFixed2 (amount u)))) in E.
    destruct (split_at_first_bar _ _ _ _ Ht Hu E) as [E1 E2].
    destruct (split_at_last_bar _ _ _ _ (numeric_noBar _ (toFixed2_numeric (amount t)))
                                (numeric_noBar _ (toFixed2_numeric (amount u))) E2)
      as [E3 E4].
    auto.
  - intros (-> & -> & ->). reflexivity.
Qed.

Lemma makeTransactionKey_equal_witness :
  makeTransactionKey staged_base
  = makeTransactionKey
      {| id := Some 7; user_id := None; date := " 2025-03-01"; description := "TEST ITEM ";
         amount := 123457 # 1000; type := Credit; category := "FOOD";
         recurring := Some true |}.
Proof.
  apply makeTransactionKey_equal; [reflexivity | reflexivity |].
  split; [reflexivity | split; reflexivity].
Defined.

(** ** filterDuplicateStaged on batches *)

Lemma filterDuplicateStaged_spec staged keys :
  newOnes (filterDuplicateStaged staged keys)
  = filter (fun t => negb (memStr (makeTransactionKey t) keys)) staged /\
  duplicateCount (filterDuplicateStaged staged keys)
  = List.length (filter (fun t => memStr (makeTransactionKey t) keys) staged).
Proof.
  destruct (filterDuplicateStaged_fold keys staged {| newOnes := []; duplicateCount := O |})
    as [H1 H2].
  cbv zeta in H1, H2. fold (filterDuplicateStaged staged keys) in H1, H2.
  cbn [newOnes duplicateCount app Nat.add] in H1, H2. auto.
Qed.

Lemma filter_filter_same {A} (p : A -> bool) l : filter p (filter p l) = filter p l.
Proof.
  induction l as [|x l IH]; cbn [filter]; [reflexivity|].
  destruct (p x) eqn:E; cbn [filter]; [rewrite E, IH|]; auto.
Qed.

Lemma filter_none {A} (p : A -> bool) l :
  (forall x, In x l -> p x = false) -> filter p l = [].
Proof.
  induction l as [|x l IH]; intros H; cbn [filter]; [reflexivity|].
  rewrite (H x (or_introl eq_refl)). apply IH. intros y Hy. apply H. now right.
Qed.

Lemma filter_ext_in' {A} (p q : A -> bool) l :
  (forall x, In x l -> p x = q x) -> filter p l = filter q l.
Proof.
  induction l as [|x l IH]; intros H; cbn [filter]; [reflexivity|].
  rewrite (H x (or_introl eq_refl)), IH; [reflexivity|]. intros y Hy. apply H. now right.
Qed.

Lemma memStr_same_members x keys keys' :
  (forall k, In k keys <-> In k keys') -> memStr x keys = memStr x keys'.
Proof.
  intros H. destruct (memStr x keys) eqn:E, (memStr x keys') eqn:E'; try reflexivity.
  - apply memStr_In, H, memStr_In in E. congruence.
  - apply memStr_In, H, memStr_In in E'. congruence.
Qed.

(** [filterDuplicateStaged] works through a batch piece by piece: on two
    batches in a row it gives the new ones of the first followed by those
    of the second, and the sum of the counts.  Only the members of the key
    set count, not their order or repetition.  The new ones have no
    duplicate left, so filtering them again changes nothing.  Two staged
    transactions with the same key, when the key is not in the set, are
    both new: the batch is not compared with itself. *)
Theorem filterDuplicateStaged_batches (keys : list string) :
  (forall a b,
     newOnes (filterDuplicateStaged (a ++ b) keys)
     = (newOnes (filterDuplicateStaged a keys) ++ newOnes (filterDuplicateStaged b keys))%list /\
     duplicateCount (filterDuplicateStaged (a ++ b) keys)
     = (duplicateCount (filterDuplicateStaged a keys)
        + duplicateCount (filterDuplicateStaged b keys))%nat) /\
  (forall staged keys',
     (forall k, In k keys <-> In k keys') ->
     filterDuplicateStaged staged keys' = filterDuplicateStaged staged keys) /\
  (forall staged,
     filterDuplicateStaged (newOnes (filterDuplicateStaged staged keys)) keys
     = {| newOnes := newOnes (filterDuplicateStaged staged keys); duplicateCount := O |}) /\
  (forall t u,
     makeTransactionKey t = makeTransactionKey u -> ~ In (makeTransactionKey t) keys ->
     filterDuplicateStaged [t; u] keys = {| newOnes := [t; u]; duplicateCount := O |}).
Proof.
  assert (R : forall r, r = {| newOnes := newOnes r; duplicateCount := duplicateCount r |})
    by (intros []; reflexivity).
  split; [|split; [|split]].
  - intros a b.
    destruct (filterDuplicateStaged_spec (a ++ b) keys) as [-> ->].
    destruct (filterDuplicateStaged_spec a keys) as [-> ->].
    destruct (filterDuplicateStaged_spec b keys) as [-> ->].
    rewrite !filter_app, length_app. auto.
  - intros staged keys' H.
    rewrite (R (filterDuplicateStaged staged keys')), (R (filterDuplicateStaged staged keys)).
    destruct (filterDuplicateStaged_spec staged keys') as [-> ->].
    destruct (filterDuplicateStaged_spec staged keys) as [-> ->].
    f_equal; [|f_equal]; apply filter_ext_in'; intros x _;
      now rewrite (memStr_same_members _ keys keys' H).
  - intros staged.
    rewrite (R (filterDuplicateStaged (newOnes (filterDuplicateStaged staged keys)) keys)).
    destruct (filterDuplicateStaged_spec (newOnes (filterDuplicateStaged staged keys)) keys)
      as [-> ->].
    destruct (filterDuplicateStaged_spec staged keys) as [-> _].
    rewrite filter_filter_same. f_equal.
    rewrite filter_none; [reflexivity|].
    intros x Hx. apply filter_In in Hx. destruct Hx as [_ Hx]. now apply negb_true_iff.
  - intros t u E N.
    assert (M : memStr (makeTransactionKey t) keys = false).
    { destruct (memStr (makeTransactionKey t) keys) eqn:M; [|reflexivity].
      apply memStr_In in M. contradiction. }
    unfold filterDuplicateStaged. cbn [fold_left]. rewrite <- E, M. reflexivity.
Qed.

Lemma filterDuplicateStaged_batches_witness :
  filterDuplicateStaged [staged_other; staged_other] [makeTransactionKey staged_base]
  = {| newOnes := [staged_other; staged_other]; duplicateCount := O |}.
Proof.
  apply (proj2 (proj2 (proj2 (filterDuplicateStaged_batches [makeTransactionKey staged_base])))).
  - reflexivity.
  - intros [C|[]]. vm_compute in C. discriminate C.
Defined.

(** ** handleConfirmStagedTransactions *)

Lemma key_of_stagedInput t : makeTransactionKey (App.stagedInput t) = makeTransactionKey t.
Proof. reflexivity. Qed.

Lemma existingKeySet_fold ledger k : forall keys,
  In k (fold_left (fun keys t => setAdd (makeTransactionKey (App.stagedInput t)) keys)
                  ledger keys)
  <-> In k keys \/ exists u, In u ledger /\ makeTransactionKey u = k.
Proof.
  induction ledger as [|t ledger IH]; intros keys; cbn [fold_left].
  - split; [auto | intros [H|(u & [] & _)]; exact H].
  - rewrite IH, setAdd_In, key_of_stagedInput. split.
    + intros [[->|H]|(u & H1 & H2)].
      * right. exists t. split; [now left | reflexivity].
      * now left.
      * right. exists u. split; [now right | exact H2].
    + intros [H|(u & [<-|H1] & H2)].
      * left. now right.
      * left. left. now symmetry.
      * right. exists u. auto.
Qed.

Lemma existingKeySet_In ledger k :
  In k (App.existingKeySet ledger) <-> exists u, In u ledger /\ makeTransactionKey u = k.
Proof.
  unfold App.existingKeySet. rewrite existingKeySet_fold. cbn [In]. intuition.
Qed.

(** What the confirmation of a staged batch hands to the database: the
    staged transactions whose key no transaction of the ledger has, in
    their order, under the id of the user; nothing is done for an empty
    batch, and a batch that the ledger covers is refused as all duplicates.
    A batch that was inserted is covered by every ledger that holds its
    rows: confirming it again inserts nothing. *)
Theorem handleConfirmStagedTransactions_inserts_new (userId : string)
    (ledger staged : list Transaction) :
  let isNew := fun t => negb (memStr (makeTransactionKey t) (App.existingKeySet ledger)) in
  let outcome := App.handleConfirmStagedTransactions userId ledger staged in
  (forall t, isNew t = true <->
             ~ exists u, In u ledger /\ makeTransactionKey u = makeTransactionKey t) /\
  (staged = [] -> outcome = App.Ignored) /\
  (staged <> [] -> filter isNew staged = [] -> exists message, outcome = App.AllDuplicates message) /\
  (filter isNew staged <> [] ->
   exists notice,
     outcome = App.Insert (map (toInsertRow userId) (filter isNew staged)) notice /\
     (notice = None <-> filter isNew staged = staged)) /\
  (forall ledger',
     staged <> [] ->
     (forall t, In t staged ->
        exists u, In u ledger' /\ date u = date t /\ description u = description t
                  /\ amount u = amount t) ->
     exists message,
       App.handleConfirmStagedTransactions userId ledger' staged = App.AllDuplicates message).
Proof.
  intros isNew outcome.
  assert (New : forall l t, negb (memStr (makeTransactionKey t) (App.existingKeySet l)) = true <->
                            ~ exists u, In u l /\ makeTransactionKey u = makeTransactionKey t).
  { intros l t. rewrite negb_true_iff, <- existingKeySet_In, <- memStr_In.
    destruct (memStr _ _); split; congruence. }
  assert (Out : forall l, staged <> [] ->
            filter (fun t => negb (memStr (makeTransactionKey t) (App.existingKeySet l))) staged
            = [] ->
            exists message,
              App.handleConfirmStagedTransactions userId l staged = App.AllDuplicates message).
  { intros l Hne E. unfold App.handleConfirmStagedTransactions.
    destruct staged as [|s0 staged0]; [contradiction|].
    destruct (filterDuplicateStaged_spec (s0 :: staged0) (App.existingKeySet l)) as [-> _].
    rewrite E. eauto. }
  split; [apply New|]. split; [intros ->; reflexivity|]. split; [apply Out|]. split.
  - intros Hne. subst outcome. unfold App.handleConfirmStagedTransactions.
    destruct staged as [|s0 staged0]; [contradiction Hne; reflexivity|].
    destruct (filterDuplicateStaged_spec (s0 :: staged0) (App.existingKeySet ledger))
      as [E1 E2].
    rewrite E1, E2. fold isNew.
    destruct (filter isNew (s0 :: staged0)) as [|n0 news] eqn:F; [contradiction Hne; reflexivity|].
    eexists. split; [reflexivity|].
    set (dups := filter (fun t => memStr (makeTransactionKey t) (App.existingKeySet ledger))
                        (s0 :: staged0)).
    assert (Hd : dups = [] <-> filter isNew (s0 :: staged0) = s0 :: staged0).
    { subst dups isNew. clear. generalize (s0 :: staged0) as l. intros l.
      induction l as [|x l IH]; cbn [filter]; [tauto|].
      destruct (memStr (makeTransactionKey x) (App.existingKeySet ledger)) eqn:M; cbn [negb].
      - split; [discriminate|]. intros E.
        assert (L : (List.length (filter (fun t => negb (memStr (makeTransactionKey t)
                                                           (App.existingKeySet ledger))) l)
                     <= List.length l)%nat) by apply filter_length_le.
        rewrite E in L. cbn [List.length] in L. lia.
      - rewrite IH. split; [intros ->; reflexivity | intros [= E]; exact E]. }
    rewrite F in Hd. rewrite <- Hd.
    destruct dups; cbn [List.length Nat.ltb Nat.leb]; split; try discriminate; auto.
  - intros ledger' Hne Hcov. apply Out; [exact Hne|].
    apply filter_none. intros t Ht. apply negb_false_iff, memStr_In, existingKeySet_In.
    destruct (Hcov t Ht) as (u & Hu & Ed & Es & Ea). exists u. split; [exact Hu|].
    unfold makeTransactionKey. now rewrite Ed, Es, Ea.
Qed.

Lemma handleConfirmStagedTransactions_inserts_new_witness :
  exists message,
    App.handleConfirmStagedTransactions "user-1" [withdrawal; salary] [salary; withdrawal]
    = App.AllDuplicates message.
Proof.
  apply (proj2 (proj2 (proj2 (proj2
           (handleConfirmStagedTransactions_inserts_new "user-1" [] [salary; withdrawal]))))).
  - discriminate.
  - intros t [<-|[<-|[]]].
    + exists salary. split; [right; now left | repeat split].
    + exists withdrawal. split; [now left | repeat split].
Defined.


(** ** detectAnomalies on binary64 *)

Lemma pushValue64_at c v m c' :
  valuesAt64 c' (Anomalies64.pushValue c v m) =
  if String.eqb c c' then (valuesAt64 c' m ++ [v])%list else valuesAt64 c' m.
Proof.
  induction m as [|[k l] m IH]; simpl.
  - destruct (String.eqb c c'); reflexivity.
  - destruct (String.eqb k c) eqn:X; simpl.
    + apply String.eqb_eq in X. subst k. destruct (String.eqb c c'); reflexivity.
    + destruct (String.eqb k c') eqn:X'; [|exact IH].
      apply String.eqb_eq in X'. subst c'. rewrite String.eqb_sym, X. reflexivity.
Qed.

Lemma pushValue64_keys c v m :
  map fst (Anomalies64.pushValue c v m) =
  if memStr c (map fst m) then map fst m else (map fst m ++ [c])%list.
Proof.
  induction m as [|[k l] m IH]; simpl; [reflexivity|].
  rewrite (String.eqb_sym c). destruct (String.eqb k c) eqn:X; simpl; [reflexivity|].
  rewrite IH. unfold memStr. destruct (existsb (String.eqb c) (map fst m)); reflexivity.
Qed.

Lemma valuesFrom64_at c transactions : forall m,
  valuesAt64 c (valuesFrom64 transactions m)
  = (valuesAt64 c m ++ observations64 transactions c)%list.
Proof.
  unfold observations64, isExpense64.
  induction transactions as [|t ts IH]; intros m; simpl.
  - now rewrite app_nil_r.
  - fold (valuesFrom64 ts (if (Binary64.double (amount t) <? 0)%float
                           then Anomalies64.pushValue (category t) (abs (Binary64.double (amount t))) m
                           else m)).
    rewrite IH. destruct (Binary64.double (amount t) <? 0)%float; simpl; [|reflexivity].
    rewrite pushValue64_at. destruct (String.eqb (category t) c); simpl;
      [now rewrite <- app_assoc | reflexivity].
Qed.

Lemma valuesFrom64_NoDup transactions : forall m,
  NoDup (map fst m) -> NoDup (map fst (valuesFrom64 transactions m)).
Proof.
  induction transactions as [|t ts IH]; intros m H; simpl; [exact H|].
  apply IH. destruct (Binary64.double (amount t) <? 0)%float; [|exact H].
  rewrite pushValue64_keys. destruct (memStr _ (map fst m)) eqn:X; [exact H|].
  apply NoDup_rev in H.
  rewrite <- (rev_involutive (map fst m ++ [_])), rev_app_distr. apply NoDup_rev.
  simpl. constructor; [|exact H].
  rewrite <- in_rev. intros Hin. apply memStr_In in Hin. congruence.
Qed.

Lemma valuesAt64_notin c (m : list (string * list float)) :
  ~ In c (map fst m) -> valuesAt64 c m = [].
Proof.
  induction m as [|[k l] m IH]; simpl; [reflexivity|].
  intros H. destruct (String.eqb_spec k c) as [->|_]; [exfalso; auto | apply IH; auto].
Qed.

Lemma statsFrom64_lookup E values c : forall m,
  NoDup (map fst values) ->
  (forall k, In k (map fst values) -> lookup k m = None) ->
  lookup c (statsFrom64 E values m) =
  match lookup c m with
  | Some s => Some s
  | None => Anomalies64.computeStats E (valuesAt64 c values)
  end.
Proof.
  induction values as [|[k l] values IH]; intros m N F.
  - simpl. destruct (lookup c m); reflexivity.
  - inversion N as [|? ? Hk N']; subst. cbn [statsFrom64 fold_left fst snd].
    fold (statsFrom64 E values (match Anomalies64.computeStats E l with
                                | Some stats => (m ++ [(k, stats)])%list
                                | None => m
                                end)).
    rewrite IH; [|exact N'|].
    + cbn [valuesAt64]. destruct (String.eqb_spec k c) as [->|Hne].
      * rewrite (F c (or_introl eq_refl)).
        destruct (Anomalies64.computeStats E l) as [st|] eqn:X.
        -- rewrite lookup_app_r by (apply F; now left).
           unfold lookup. simpl. now rewrite String.eqb_refl.
        -- rewrite (F c (or_introl eq_refl)).
           now rewrite (valuesAt64_notin _ _ Hk).
      * destruct (Anomalies64.computeStats E l) as [st|]; [|reflexivity].
        destruct (lookup c m) eqn:X.
        -- now rewrite (lookup_app_l _ _ _ _ X).
        -- rewrite (lookup_app_r _ _ _ X). unfold lookup. simpl.
           apply String.eqb_neq in Hne. now rewrite Hne.
    + intros k' Hk'. destruct (Anomalies64.computeStats E l); [|apply F; now right].
      rewrite lookup_app_r by (apply F; now right).
      unfold lookup. simpl. destruct (String.eqb_spec k k') as [->|_]; [contradiction | reflexivity].
Qed.

Lemma categoryStats64_lookup E transactions c :
  lookup c (Anomalies64.categoryStats E (Anomalies64.categoryValues transactions)) =
  Anomalies64.computeStats E (observations64 transactions c).
Proof.
  unfold Anomalies64.categoryStats, Anomalies64.categoryValues.
  fold (valuesFrom64 transactions []). fold (statsFrom64 E (valuesFrom64 transactions []) []).
  rewrite statsFrom64_lookup.
  - simpl. now rewrite valuesFrom64_at.
  - apply valuesFrom64_NoDup. constructor.
  - reflexivity.
Qed.

Lemma computeStats64_spec E values st :
  Anomalies64.computeStats E values = Some st <->
  (5 <= List.length values)%nat /\ (std64 E values =? 0)%float = false /\
  st = {| Anomalies64.mean := Binary64.mean values; Anomalies64.std := std64 E values |}.
Proof.
  unfold Anomalies64.computeStats. fold (std64 E values).
  destruct (Nat.ltb_spec (List.length values) 5).
  - split; [discriminate | intros [H1 _]; lia].
  - destruct (std64 E values =? 0)%float eqn:X.
    + split; [discriminate | intros (_ & C & _); discriminate].
    + split; [intros [= <-]; auto | intros (_ & _ & ->); reflexivity].
Qed.

Lemma flag64_spec E transactions zM zS t r :
  Anomalies64.flag (Anomalies64.categoryStats E (Anomalies64.categoryValues transactions))
                   zM zS t = Some r <->
  flagged64 E transactions zM t /\ r = anomalyOf64 E transactions zS t.
Proof.
  unfold Anomalies64.flag, flagged64, isExpense64. rewrite categoryStats64_lookup.
  destruct (Binary64.double (amount t) <? 0)%float eqn:Xa.
  - destruct (Anomalies64.computeStats E (observations64 transactions (category t)))
      as [st|] eqn:Xs.
    + apply computeStats64_spec in Xs. destruct Xs as (H5 & Hv & ->).
      cbn [Anomalies64.mean Anomalies64.std]. fold (zOf64 E transactions t).
      destruct (zM <=? zOf64 E transactions t)%float eqn:Xg.
      * split; [intros [= <-]; split; [auto | reflexivity] | intros [_ ->]; reflexivity].
      * split; [discriminate | intros [(_ & _ & _ & C) _]; discriminate].
    + split; [discriminate|]. intros [(_ & H5 & Hv & _) _].
      assert (C : Anomalies64.computeStats E (observations64 transactions (category t)) =
                  Some {| Anomalies64.mean := Binary64.mean (observations64 transactions (category t));
                          Anomalies64.std := std64 E (observations64 transactions (category t)) |})
        by (apply computeStats64_spec; auto).
      congruence.
  - split; [discriminate | intros [(C & _) _]; discriminate].
Qed.

Lemma detectAnomalies64_In E transactions zM zS r :
  In r (Anomalies64.detectAnomalies E transactions zM zS) <->
  exists t, In t transactions /\ flagged64 E transactions zM t
            /\ r = anomalyOf64 E transactions zS t.
Proof.
  unfold Anomalies64.detectAnomalies. rewrite sortBy_In, filterMap_In.
  split; intros [t [Ht H]]; exists t; (split; [exact Ht|]); now apply flag64_spec.
Qed.

(** With numbers in doubles as the program has them, the results of
    [detectAnomalies] are exactly the records of the transactions that are
    expenses (negative amount), whose category has at least five expense
    observations with a computed standard deviation other than zero, and
    whose computed z-score is at least the moderate threshold; there is one
    result for each such transaction.  Every result is an expense, and it is
    severe exactly when its z-score is at least the severe threshold. *)
Theorem detectAnomalies_flags_computed_zscore (E : Binary64.Engine) (transactions : list Transaction)
    (zThresholdModerate zThresholdSevere : float) :
  let found := Anomalies64.detectAnomalies E transactions zThresholdModerate zThresholdSevere in
  (forall r, In r found <->
             exists t, In t transactions /\
                       flagged64 E transactions zThresholdModerate t /\
                       r = anomalyOf64 E transactions zThresholdSevere t) /\
  Permutation found
    (map (anomalyOf64 E transactions zThresholdSevere)
         (filter (fun t => isExpense64 t &&
                           negb (List.length (observations64 transactions (category t)) <? 5)%nat &&
                           negb (std64 E (observations64 transactions (category t)) =? 0)%float &&
                           (zThresholdModerate <=? zOf64 E transactions t)%float)
                 transactions)) /\
  (forall r, In r found ->
     (Binary64.double (Anomalies64.a_amount r) <? 0)%float = true /\
     (Anomalies64.severity r = Anomalies64.severe <->
      (zThresholdSevere <=? Anomalies64.zScore r)%float = true)).
Proof.
  intros found. split; [intros r; apply detectAnomalies64_In|]. split.
  - unfold found, Anomalies64.detectAnomalies. rewrite sortBy_perm.
    set (stats := Anomalies64.categoryStats E (Anomalies64.categoryValues transactions)).
    assert (G : forall l,
      (forall t, In t l ->
         Anomalies64.flag stats zThresholdModerate zThresholdSevere t =
         if isExpense64 t &&
            negb (List.length (observations64 transactions (category t)) <? 5)%nat &&
            negb (std64 E (observations64 transactions (category t)) =? 0)%float &&
            (zThresholdModerate <=? zOf64 E transactions t)%float
         then Some (anomalyOf64 E transactions zThresholdSevere t) else None) ->
      filterMap (Anomalies64.flag stats zThresholdModerate zThresholdSevere) l =
      map (anomalyOf64 E transactions zThresholdSevere)
          (filter (fun t => isExpense64 t &&
                            negb (List.length (observations64 transactions (category t)) <? 5)%nat &&
                            negb (std64 E (observations64 transactions (category t)) =? 0)%float &&
                            (zThresholdModerate <=? zOf64 E transactions t)%float) l)).
    { induction l as [|t l IH]; intros H; [reflexivity|].
      cbn [filterMap filter]. rewrite (H t (or_introl eq_refl)).
      rewrite IH by (intros u Hu; apply H; now right).
      destruct (_ && _); reflexivity. }
    rewrite G; [reflexivity|]. intros t _.
    destruct (Anomalies64.flag stats zThresholdModerate zThresholdSevere t) as [r|] eqn:F.
    + apply flag64_spec in F. destruct F as [(H1 & H2 & H3 & H4) ->].
      rewrite H1, H3, H4. apply Nat.ltb_ge in H2. rewrite H2. reflexivity.
    + destruct (isExpense64 t &&
                negb (List.length (observations64 transactions (category t)) <? 5)%nat &&
                negb (std64 E (observations64 transactions (category t)) =? 0)%float &&
                (zThresholdModerate <=? zOf64 E transactions t)%float) eqn:B; [|reflexivity].
      apply andb_true_iff in B. destruct B as [B B4].
      apply andb_true_iff in B. destruct B as [B B3].
      apply andb_true_iff in B. destruct B as [B1 B2].
      apply negb_true_iff in B2, B3. apply Nat.ltb_ge in B2.
      assert (C : Anomalies64.flag stats zThresholdModerate zThresholdSevere t
                  = Some (anomalyOf64 E transactions zThresholdSevere t))
        by (apply flag64_spec; split; [repeat split; assumption | reflexivity]).
      congruence.
  - intros r Hr. apply detectAnomalies64_In in Hr.
    destruct Hr as (t & _ & (H1 & _) & ->).
    cbn [Anomalies64.a_amount Anomalies64.severity Anomalies64.zScore anomalyOf64].
    split; [exact H1|].
    destruct (zThresholdSevere <=? zOf64 E transactions t)%float;
      split; congruence.
Qed.

(** Claim C9, where the program departs from it.  The ten expense values of
    the category are identical.  In doubles their sum is 0.9999999999999999
    and their mean 0.09999999999999999, so that the deviations are [2^-56]
    and the standard deviation is not zero: the guard [std === 0] does not
    hold, and with a moderate threshold of 1 every one of the ten is flagged
    with a z-score of 1. *)
Theorem detectAnomalies_identical_values_flagged (E : Binary64.Engine) :
  Binary64.pow2 E 0x1p-56%float = 0x1p-112%float ->
  observations64 tenths "FOOD" = repeat (Binary64.double (1 # 10)) 10 /\
  std64 E (observations64 tenths "FOOD") = 0x1p-56%float /\
  map (fun r => (Anomalies64.zScore r, Anomalies64.severity r))
      (Anomalies64.detectAnomalies E tenths 1 3)
  = repeat (1%float, Anomalies64.moderate) 10.
Proof.
  intros P.
  assert (O : observations64 tenths "FOOD" = repeat (Binary64.double (1 # 10)) 10) by reflexivity.
  assert (M : Binary64.mean (repeat (Binary64.double (1 # 10)) 10) = 0x1.9999999999999p-4%float) by reflexivity.
  assert (V : Binary64.variance E (repeat (Binary64.double (1 # 10)) 10) = 0x1p-112%float).
  { unfold Binary64.variance. rewrite M. cbn [repeat fold_left List.length].
    replace (Binary64.double (1 # 10) - 0x1.9999999999999p-4)%float with 0x1p-56%float by reflexivity.
    rewrite P. reflexivity. }
  assert (S : std64 E (repeat (Binary64.double (1 # 10)) 10) = 0x1p-56%float)
    by (unfold std64; rewrite V; reflexivity).
  split; [exact O|]. split; [rewrite O; exact S|].
  unfold Anomalies64.detectAnomalies.
  assert (St : Anomalies64.categoryStats E (Anomalies64.categoryValues tenths)
               = [("FOOD", {| Anomalies64.mean := 0x1.9999999999999p-4%float;
                              Anomalies64.std := 0x1p-56%float |})]).
  { change (Anomalies64.categoryValues tenths) with [("FOOD", repeat (Binary64.double (1 # 10)) 10)].
    unfold Anomalies64.categoryStats. cbn [fold_left snd fst].
    unfold Anomalies64.computeStats. fold (std64 E (repeat (Binary64.double (1 # 10)) 10)).
    rewrite S, M. reflexivity. }
  rewrite St. reflexivity.
Qed.

Lemma detectAnomalies_identical_values_flagged_witness :
  map (fun r => (Anomalies64.zScore r, Anomalies64.severity r))
      (Anomalies64.detectAnomalies Examples.engine tenths 1 3)
  = repeat (1%float, Anomalies64.moderate) 10.
Proof.
  exact (proj2 (proj2 (detectAnomalies_identical_values_flagged Examples.engine eq_refl))).
Defined.

(** With five observations of which four are equal, the z-score of the
    fifth is 2.  On an engine that squares by one multiplication it comes
    out as 1.9999999999999998 for the expense of 289, which the default
    thresholds then do not flag. *)
Lemma detectAnomalies_z_of_two_rounds_below :
  zOf64 Examples.engine oneFar (Examples.mkTx "2025-04-01" "Dinner" (-289) "FOOD")
  = 0x1.fffffffffffffp+0%float /\
  Anomalies64.detectAnomalies Examples.engine oneFar
    Anomalies64.defaultModerate Anomalies64.defaultSevere = [].
Proof. split; reflexivity. Qed.

(** ** detectRecurring on binary64 *)

Lemma insertSorted_Forall2 {A B} (R : A -> B -> Prop) gtA gtB :
  (forall a a' b b', R a a' -> R b b' -> gtA a b = gtB a' b') ->
  forall x x' l l', R x x' -> Forall2 R l l' ->
                    Forall2 R (insertSorted gtA x l) (insertSorted gtB x' l').
Proof.
  intros C x x' l l' Hx F. induction F as [|y y' l l' Hy F IH]; cbn [insertSorted].
  - constructor; [exact Hx | constructor].
  - rewrite (C _ _ _ _ Hx Hy). destruct (gtB x' y').
    + constructor; assumption.
    + constructor; [exact Hx | constructor; assumption].
Qed.

Lemma sortBy_Forall2 {A B} (R : A -> B -> Prop) gtA gtB :
  (forall a a' b b', R a a' -> R b b' -> gtA a b = gtB a' b') ->
  forall l l', Forall2 R l l' -> Forall2 R (sortBy gtA l) (sortBy gtB l').
Proof.
  intros C l l' F. induction F as [|x x' l l' Hx F IH]; cbn [sortBy fold_right].
  - constructor.
  - apply insertSorted_Forall2; assumption.
Qed.

Lemma sortByDate_chronological64 E group days :
  collatesDates E -> datedOn group days ->
  datedOn (Recurring64.sortByDate E group) (chronological days).
Proof.
  intros C. unfold datedOn, Recurring64.sortByDate, chronological.
  apply sortBy_Forall2. intros a na b nb Ha Hb. now apply C.
Qed.

Lemma intervalsOf_positiveGaps E lst days :
  readsIsoDates (Binary64.host E) -> datedOn lst days ->
  Recurring64.intervalsOf E lst = positiveGaps days.
Proof.
  intros Hh F. induction F as [|t n l l' Ht F IH]; [reflexivity|].
  inversion F as [|t2 n2 l2 l2' Ht2 F2]; subst; [reflexivity|].
  change (Recurring64.intervalsOf E (t :: t2 :: l2))
    with (let diff := Recurring64.dayDiff E t t2 in
          if (0 <? diff)%float then diff :: Recurring64.intervalsOf E (t2 :: l2)
          else Recurring64.intervalsOf E (t2 :: l2)).
  change (positiveGaps (n :: n2 :: l2'))
    with (if (0 <? dayGap n n2)%float then dayGap n n2 :: positiveGaps (n2 :: l2')
          else positiveGaps (n2 :: l2')).
  cbv zeta.
  assert (D : Recurring64.dayDiff E t t2 = dayGap n n2).
  { unfold Recurring64.dayDiff, Recurring64.timeOf, dayGap, getTime.
    now rewrite (Hh _ _ Ht), (Hh _ _ Ht2). }
  rewrite D, IH. reflexivity.
Qed.

Lemma patternOf64_spec E k group :
  Recurring64.patternOf E k group =
  if regular E group
  then Some (patternFor E k group, Recurring64.sortByDate E group)
  else None.
Proof.
  unfold Recurring64.patternOf, regular, patternFor, cov.
  destruct (List.length group <? 3)%nat; [reflexivity|]. cbn [negb andb].
  destruct (Recurring64.intervalsOf E (Recurring64.sortByDate E group)) eqn:I; [reflexivity|].
  cbv zeta. destruct (_ <? 0.5)%float; reflexivity.
Qed.

Lemma detect_patterns64 E groups : forall acc,
  Recurring64.patterns (fold_left (step64 E) groups acc) =
  (Recurring64.patterns acc ++
   filterMap (fun g => option_map fst (Recurring64.patternOf E (fst g) (snd g))) groups)%list.
Proof.
  induction groups as [|g groups IH]; intros acc; simpl.
  - now rewrite app_nil_r.
  - rewrite IH. unfold step64.
    destruct (Recurring64.patternOf E (fst g) (snd g)) as [[p lst]|]; simpl; [|reflexivity].
    now rewrite <- app_assoc.
Qed.

Lemma detectRecurring64_patterns E transactions :
  Recurring64.patterns (Recurring64.detectRecurring E transactions) =
  filterMap (fun g => option_map fst (Recurring64.patternOf E (fst g) (snd g)))
            (Recurring.groupByDescription transactions).
Proof.
  unfold Recurring64.detectRecurring. fold (step64 E). now rewrite detect_patterns64.
Qed.

Lemma pattern64_In E transactions p :
  In p (Recurring64.patterns (Recurring64.detectRecurring E transactions)) <->
  exists k, regular E (members transactions k) = true /\ members transactions k <> [] /\
            p = patternFor E k (members transactions k).
Proof.
  rewrite detectRecurring64_patterns, filterMap_In. split.
  - intros [[k l] [Hin Hp]]. apply groupByDescription_spec in Hin. destruct Hin as [-> Hne].
    simpl in Hp. rewrite patternOf64_spec in Hp.
    destruct (regular E (members transactions k)) eqn:R; [|discriminate].
    injection Hp as <-. exists k. auto.
  - intros (k & Hr & Hne & ->). exists (k, members transactions k). split.
    + apply groupByDescription_spec. auto.
    + simpl. rewrite patternOf64_spec, Hr. reflexivity.
Qed.

Lemma patterns64_keys_NoDup E groups :
  NoDup (map fst groups) ->
  NoDup (map Recurring64.key
           (filterMap (fun g => option_map fst (Recurring64.patternOf E (fst g) (snd g)))
                      groups)).
Proof.
  induction groups as [|[k l] groups IH]; simpl; intros N; [constructor|].
  inversion N as [|? ? Hk N']; subst.
  rewrite patternOf64_spec. destruct (regular E l); simpl; [|now apply IH].
  constructor; [|now apply IH].
  intros Hin. apply in_map_iff in Hin. destruct Hin as [p [Hp Hin]].
  apply filterMap_In in Hin. destruct Hin as [[k' l'] [Hin Hq]].
  simpl in Hq. rewrite patternOf64_spec in Hq.
  destruct (regular E l'); [|discriminate]. injection Hq as <-. simpl in Hp. subst k'.
  apply Hk. change k with (fst (k, l')). now apply in_map.
Qed.

Lemma regular_spec64 E group days :
  collatesDates E -> readsIsoDates (Binary64.host E) -> datedOn group days ->
  (regular E group = true <->
   (3 <= List.length group)%nat /\ positiveGaps (chronological days) <> [] /\
   (cov E (positiveGaps (chronological days)) <? 0.5)%float = true).
Proof.
  intros C Hh F. unfold regular.
  rewrite (intervalsOf_positiveGaps E _ (chronological days) Hh
             (sortByDate_chronological64 E group days C F)).
  rewrite andb_true_iff, negb_true_iff, Nat.ltb_ge.
  destruct (positiveGaps (chronological days)) as [|g gaps].
  - split; [intros [_ X]; discriminate | intros (_ & X & _); congruence].
  - split; [intros [H1 H2]; repeat split; auto; discriminate | intros (H1 & _ & H2); auto].
Qed.

(** ** detectRecurring: patterns and regular groups *)

(** Claim C8.  Let the group of a normalized description be the transactions
    with that description, dated by canonical dates as the data model has
    them, and its gaps the positive gaps in days between successive
    occurrences in chronological order.  On an engine whose collation keeps
    canonical dates in chronological order and whose [Date] reads a canonical
    date as ECMA-262 prescribes, [detectRecurring] has a pattern for the
    description exactly when the group has at least three members, has a
    gap, and the coefficient of variation of the gaps (population standard
    deviation over mean), computed in doubles as the program computes it, is
    below one half.  There is at most one pattern for a description, its
    count is the size of the group, and a group of fewer than three never
    has one. *)
Theorem detectRecurring_pattern_iff_regular (E : Binary64.Engine) (transactions : list Transaction)
    (k : string) (days : list Z) :
  let group := members transactions k in
  datedOn group days ->
  readsIsoDates (Binary64.host E) ->
  collatesDates E ->
  let gaps := positiveGaps (chronological days) in
  let found := Recurring64.patterns (Recurring64.detectRecurring E transactions) in
  ((exists p, In p found /\ Recurring64.key p = k) <->
   (3 <= List.length group)%nat /\ gaps <> [] /\ (cov E gaps <? 0.5)%float = true) /\
  (forall p q, In p found -> In q found -> Recurring64.key p = Recurring64.key q -> p = q) /\
  NoDup found /\
  (forall p, In p found -> Recurring64.key p = k -> Recurring64.count p = List.length group) /\
  ((List.length group < 3)%nat -> ~ exists p, In p found /\ Recurring64.key p = k).
Proof.
  intros group F Hh C gaps found.
  assert (Hiff : (exists p, In p found /\ Recurring64.key p = k) <->
                 (3 <= List.length group)%nat /\ gaps <> [] /\
                 (cov E gaps <? 0.5)%float = true).
  { unfold found, gaps. rewrite <- (regular_spec64 E group days C Hh F). split.
    - intros [p [Hp Hk]]. apply pattern64_In in Hp. destruct Hp as (k' & Hr & _ & ->).
      simpl in Hk. now subst k'.
    - intros Hr. exists (patternFor E k group). split; [|reflexivity].
      apply pattern64_In. exists k. split; [exact Hr|]. split; [|reflexivity].
      apply (regular_spec64 E group days C Hh F) in Hr. destruct Hr as [H3 _].
      intros X. fold group in X. rewrite X in H3. simpl in H3. lia. }
  assert (Hkeys : NoDup (map Recurring64.key found)).
  { unfold found. rewrite detectRecurring64_patterns. apply patterns64_keys_NoDup.
    unfold Recurring.groupByDescription. apply (groupsFrom_NoDup transactions []). constructor. }
  split; [exact Hiff|]. split; [|split; [|split]].
  - intros p q Hp Hq X. apply pattern64_In in Hp, Hq.
    destruct Hp as (kp & _ & _ & ->). destruct Hq as (kq & _ & _ & ->).
    simpl in X. now subst kq.
  - apply (NoDup_map_inv Recurring64.key), Hkeys.
  - intros p Hp Hk. apply pattern64_In in Hp. destruct Hp as (k' & _ & _ & ->).
    simpl in Hk. subst k'. simpl. apply sortBy_length.
  - intros Hlt X. apply Hiff in X. lia.
Qed.

Lemma engine_collatesDates : collatesDates Examples.engine.
Proof.
  intros a b na nb Ha Hb. cbn [Examples.engine Binary64.localeCompare].
  pose proof (civilDay_order _ _ _ _ Ha Hb) as O. unfold String.leb in O.
  destruct (String.compare a b) eqn:X; cbn.
  - symmetry. apply Z.ltb_ge. apply O. reflexivity.
  - symmetry. apply Z.ltb_ge. apply O. reflexivity.
  - symmetry. apply Z.ltb_lt. destruct (Z.le_gt_cases na nb) as [L|G]; [|lia].
    apply O in L. discriminate.
Qed.

Lemma civilDay_mar5 : civilDay "2025-03-05" 20152.
Proof.
  exists 2025, 3, 5. repeat split; try lia; vm_compute; congruence.
Qed.

(** The claim on a monthly subscription of three payments, with gaps of 31
    and 28 days. *)
Lemma detectRecurring_pattern_iff_regular_witness :
  positiveGaps (chronological [20093; 20124; 20152]) = [31; 28]%float /\
  exists p, In p (Recurring64.patterns (Recurring64.detectRecurring Examples.engine subscription))
            /\ Recurring64.key p = "netflix com".
Proof.
  split; [reflexivity|].
  apply (proj1 (detectRecurring_pattern_iff_regular Examples.engine subscription "netflix com"
                  [20093; 20124; 20152]
                  ltac:(repeat constructor;
                        [exact civilDay_jan5 | exact civilDay_feb5 | exact civilDay_mar5])
                  utcHost_readsIsoDates engine_collatesDates)).
  split; [vm_compute; lia|]. split; [discriminate | reflexivity].
Defined.

(** Two groups that have a pattern without regular gaps.  The gaps of
    [halfway] are 1, 8, 9, 13 and 13 days; their mean is 8.8 and their
    variance 19.36, the square of 4.4, so that the coefficient of variation
    is one half and not below it: in doubles it comes out as
    0.49999999999999989, and the group has a pattern.  The dates of
    [slashDated] are sorted as texts, the September payment last; the only
    positive gap is then the day between the October payments, and the
    group has a pattern, while in chronological order its gaps are 30 days
    and 1 day, with a coefficient of variation above 0.9. *)
Lemma detectRecurring_pattern_without_regular_gaps :
  (Recurring64.intervalsOf Examples.engine (Recurring64.sortByDate Examples.engine halfway)
   = map Binary64.double halfwayGaps /\
   (Js.mean halfwayGaps == 88 # 10)%Q /\
   (Js.variance halfwayGaps == (44 # 10) * (44 # 10))%Q /\
   (Js.variance halfwayGaps
    == (1 # 2) * (1 # 2) * (Js.mean halfwayGaps * Js.mean halfwayGaps))%Q /\
   cov Examples.engine (map Binary64.double halfwayGaps) = 0x1.ffffffffffffep-2%float /\
   Recurring64.patterns (Recurring64.detectRecurring Examples.engine halfway)
   = [{| Recurring64.key := "gym"; Recurring64.count := 6;
         Recurring64.avgIntervalDays := Binary64.double (88 # 10);
         Recurring64.lastDate := "2025-02-14" |}]) /\
  (map (fun t => date_parse Examples.utcHost (date t)) slashDated
   = [Some (20332 * msPerDay); Some (20362 * msPerDay); Some (20363 * msPerDay)] /\
   map date (Recurring64.sortByDate Examples.engine slashDated)
   = ["10/1/2025"; "10/2/2025"; "9/1/2025"] /\
   positiveGaps (chronological [20332; 20362; 20363]) = [30; 1]%float /\
   (cov Examples.engine [30; 1]%float <? 0.5)%float = false /\
   Recurring64.patterns (Recurring64.detectRecurring Examples.engine slashDated)
   = [{| Recurring64.key := "rent"; Recurring64.count := 3;
         Recurring64.avgIntervalDays := 1%float;
         Recurring64.lastDate := "9/1/2025" |}]).
Proof. repeat split. Qed.

(** ** detectRecurring: the ids and the fields of a pattern *)

Lemma detect_ids64 E i groups : forall acc,
  In i (Recurring64.recurringIds (fold_left (step64 E) groups acc)) <->
  In i (Recurring64.recurringIds acc) \/
  exists g, In g groups /\ regular E (snd g) = true /\
            exists tx, In tx (snd g) /\ id tx = Some i.
Proof.
  induction groups as [|g groups IH]; intros acc; cbn [fold_left].
  - split; [auto | intros [H|(g & [] & _)]; exact H].
  - rewrite IH. unfold step64. rewrite patternOf64_spec.
    destruct (regular E (snd g)) eqn:R; cbn [Recurring64.recurringIds].
    + fold (addIds (Recurring64.sortByDate E (snd g)) (Recurring64.recurringIds acc)).
      rewrite addIds_In. split.
      * intros [[H|(tx & H1 & H2)]|(g' & H1 & H2)].
        -- now left.
        -- right. exists g. split; [now left|]. split; [exact R|]. exists tx.
           split; [|exact H2]. unfold Recurring64.sortByDate in H1. now apply sortBy_In in H1.
        -- right. exists g'. split; [now right | exact H2].
      * intros [H|(g' & [<-|H1] & H2 & tx & H3 & H4)].
        -- left. now left.
        -- left. right. exists tx. split; [|exact H4].
           unfold Recurring64.sortByDate. now apply sortBy_In.
        -- right. exists g'. eauto.
    + split.
      * intros [H|(g' & H1 & H2)]; [now left | right; exists g'; split; [now right | exact H2]].
      * intros [H|(g' & [<-|H1] & H2 & H3)]; [now left | congruence | right; eauto].
Qed.

Lemma detect_ids64_NoDup E groups : forall acc,
  NoDup (Recurring64.recurringIds acc) ->
  NoDup (Recurring64.recurringIds (fold_left (step64 E) groups acc)).
Proof.
  induction groups as [|g groups IH]; intros acc N; cbn [fold_left]; [exact N|].
  apply IH. unfold step64.
  destruct (Recurring64.patternOf E (fst g) (snd g)) as [[p lst]|]; [|exact N].
  cbn [Recurring64.recurringIds]. now apply addIds_NoDup.
Qed.

Lemma regular64_members E transactions k :
  regular E (members transactions k) = true -> members transactions k <> [].
Proof.
  unfold regular. intros H X. rewrite X in H. discriminate.
Qed.

Lemma recurringIds64_spec E transactions i :
  In i (Recurring64.recurringIds (Recurring64.detectRecurring E transactions)) <->
  exists t, In t transactions /\ id t = Some i /\
            regular E (members transactions
                         (Recurring.normalizeDescription (description t))) = true.
Proof.
  unfold Recurring64.detectRecurring. fold (step64 E). rewrite detect_ids64.
  cbn [Recurring64.recurringIds]. split.
  - intros [[]|([k l] & Hg & R & tx & Htx & Hid)].
    apply groupByDescription_spec in Hg. destruct Hg as [-> _]. cbn [snd] in *.
    unfold members in Htx. apply filter_In in Htx. destruct Htx as [Hin Hk].
    apply String.eqb_eq in Hk. exists tx. rewrite Hk. auto.
  - intros (t & Hin & Hid & R). right.
    exists (Recurring.normalizeDescription (description t),
            members transactions (Recurring.normalizeDescription (description t))).
    split; [|split; [exact R|]].
    + apply groupByDescription_spec. split; [reflexivity | now apply regular64_members in R].
    + exists t. split; [|exact Hid]. unfold members. apply filter_In.
      split; [exact Hin | apply String.eqb_refl].
Qed.

Lemma pattern64_key_regular E transactions k :
  (exists p, In p (Recurring64.patterns (Recurring64.detectRecurring E transactions))
             /\ Recurring64.key p = k) <->
  regular E (members transactions k) = true.
Proof.
  split.
  - intros (p & Hp & Hk). apply pattern64_In in Hp. destruct Hp as (k' & R & _ & ->).
    cbn in Hk. now subst.
  - intros R. exists (patternFor E k (members transactions k)). split; [|reflexivity].
    apply pattern64_In. exists k. split; [exact R|].
    split; [now apply regular64_members in R | reflexivity].
Qed.

Lemma Forall2_lastOr {A B} (R : A -> B -> Prop) d d' l l' :
  Forall2 R l l' -> l <> [] -> R (lastOr d l) (lastOr d' l').
Proof.
  induction 1 as [|x x' l l' Hx F IH]; intros Hne; [congruence|].
  destruct F as [|y y' l l' Hy F]; [exact Hx|].
  change (R (lastOr d (y :: l)) (lastOr d' (y' :: l'))). apply IH. discriminate.
Qed.

Lemma chronological_sorted days : StronglySorted Z.le (chronological days).
Proof.
  unfold chronological.
  apply (StronglySorted_weaken (before (fun a b => b <? a))).
  - intros a b _ _ H. unfold before in H. apply Z.ltb_ge in H. exact H.
  - apply sortBy_sorted.
    + intros a b H. apply Z.ltb_lt in H. apply Z.ltb_ge. lia.
    + unfold before. intros a b c H1 H2. apply Z.ltb_ge in H1, H2. apply Z.ltb_ge. lia.
Qed.

Lemma latest_greatest days n : In n days -> n <= latest days.
Proof.
  intros H. unfold latest.
  apply (lastOr_greatest Z.le 0 _ Z.le_refl (chronological_sorted days)).
  unfold chronological. now apply sortBy_In.
Qed.

(** The ids that [detectRecurring] reports are, without repetition, the ids
    of the transactions whose normalized description has a pattern; a
    transaction without id adds nothing.  The count of a pattern is the size
    of the group of its description, three at least, and its [lastDate] is
    the date of a member of the group.  When the dates of the group are
    canonical dates and the collation keeps those in chronological order,
    [lastDate] is the date of the latest day of the group. *)
Theorem detectRecurring_ids_and_fields (E : Binary64.Engine) (transactions : list Transaction) :
  let detected := Recurring64.detectRecurring E transactions in
  (forall i, In i (Recurring64.recurringIds detected) <->
             exists t, In t transactions /\ id t = Some i /\
                       exists p, In p (Recurring64.patterns detected) /\
                                 Recurring64.key p
                                 = Recurring.normalizeDescription (description t)) /\
  NoDup (Recurring64.recurringIds detected) /\
  (forall p, In p (Recurring64.patterns detected) ->
     let group := members transactions (Recurring64.key p) in
     (exists t, In t group /\ date t = Recurring64.lastDate p) /\
     Recurring64.count p = List.length group /\
     (3 <= Recurring64.count p)%nat /\
     (forall days, datedOn group days -> collatesDates E ->
                   civilDay (Recurring64.lastDate p) (latest days) /\
                   forall n, In n days -> n <= latest days)).
Proof.
  intros detected. split; [|split].
  - intros i. subst detected. rewrite recurringIds64_spec. split.
    + intros (t & H1 & H2 & R). exists t. split; [exact H1|]. split; [exact H2|].
      now apply pattern64_key_regular.
    + intros (t & H1 & H2 & P). exists t. split; [exact H1|]. split; [exact H2|].
      now apply pattern64_key_regular.
  - subst detected. unfold Recurring64.detectRecurring. fold (step64 E).
    apply detect_ids64_NoDup. constructor.
  - intros p Hp. apply pattern64_In in Hp. destruct Hp as (k & R & Hne & ->).
    intros group. cbn [Recurring64.key patternFor] in group.
    cbn [Recurring64.lastDate Recurring64.count patternFor]. fold group.
    assert (L : List.length (Recurring64.sortByDate E group) = List.length group)
      by apply sortBy_length.
    assert (Hs : Recurring64.sortByDate E group <> []).
    { intros X. rewrite X in L. cbn [List.length] in L.
      symmetry in L. apply length_zero_iff_nil in L. now apply Hne. }
    split; [|split; [|split]].
    + assert (Hm : map date (Recurring64.sortByDate E group) <> [])
        by (intros X; apply map_eq_nil in X; now apply Hs).
      pose proof (lastOr_In "" _ Hm) as Hl. apply in_map_iff in Hl.
      destruct Hl as (t & Ht & Hin). exists t. split; [|exact Ht].
      unfold Recurring64.sortByDate in Hin. now apply sortBy_In in Hin.
    + exact L.
    + rewrite L. unfold regular in R. apply andb_true_iff in R. destruct R as [R _].
      apply negb_true_iff, Nat.ltb_ge in R. exact R.
    + intros days F C. split; [|intros n; apply latest_greatest].
      pose proof (sortByDate_chronological64 E group days C F) as F'.
      unfold datedOn in F'.
      assert (F2 : Forall2 (fun s n => civilDay s n)
                     (map date (Recurring64.sortByDate E group)) (chronological days)).
      { clear - F'. induction F'; cbn [map]; constructor; auto. }
      apply (Forall2_lastOr _ "" 0 _ _ F2).
      intros X. apply map_eq_nil in X. now apply Hs.
Qed.

(** The subscription: the last payment is of 5 March 2025, day 20152. *)
Lemma detectRecurring_ids_and_fields_witness :
  civilDay "2025-03-05" (latest [20093; 20124; 20152]) /\
  forall n, In n [20093; 20124; 20152] -> n <= latest [20093; 20124; 20152].
Proof.
  set (p := patternFor Examples.engine "netflix com" (members subscription "netflix com")).
  assert (Hp : In p (Recurring64.patterns
                       (Recurring64.detectRecurring Examples.engine subscription)))
    by (vm_compute; left; reflexivity).
  destruct (proj2 (proj2 (detectRecurring_ids_and_fields Examples.engine subscription)) p Hp)
    as (_ & _ & _ & H).
  exact (H [20093; 20124; 20152]
           ltac:(repeat constructor;
                 [exact civilDay_jan5 | exact civilDay_feb5 | exact civilDay_mar5])
           engine_collatesDates).
Defined.

(** ** movingAverage on binary64 *)

Lemma sliceLast_windowOf {A} (window : Z) (values : list A) :
  Forecast.sliceLast window values = windowOf window values.
Proof.
  unfold windowOf. destruct (Z.leb_spec 1 window) as [H|H].
  - now apply sliceLast_trailing.
  - destruct (Z.eqb_spec window 0) as [->|N].
    + apply sliceLast_zero.
    + apply sliceLast_negative. lia.
Qed.

Lemma movingAverage64_slice values window :
  Forecast64.movingAverage values window =
  match windowOf window values with
  | [] => None
  | slice => Some (Binary64.mean slice)
  end.
Proof.
  rewrite <- sliceLast_windowOf.
  unfold Forecast64.movingAverage. destruct values as [|v vs]; [|reflexivity].
  unfold Forecast.sliceLast. now rewrite skipn_nil.
Qed.

Lemma orZero_movingAverage64 values window :
  Forecast64.orZero (Forecast64.movingAverage values window) = projection window values.
Proof.
  rewrite movingAverage64_slice. unfold projection.
  destruct (windowOf window values); reflexivity.
Qed.

(** [movingAverage] is the mean, in doubles, of the last [window] values,
    of all of them when there are no more than [window], and also when
    [window] is 0, since [slice(-0)] is the whole array.  A negative
    [window] drops that many values from the start.  It is null exactly
    when no value is left. *)
Theorem movingAverage_window_edges (values : list float) (window : Z) :
  (Forecast64.movingAverage values window = None <->
   values = [] \/ (window < 0 /\ Z.of_nat (List.length values) <= - window)) /\
  (values <> [] -> window = 0 \/ Z.of_nat (List.length values) <= window ->
   Forecast64.movingAverage values window = Some (Binary64.mean values)) /\
  (values <> [] -> 1 <= window ->
   Forecast64.movingAverage values window
   = Some (Binary64.mean (trailing (Z.to_nat window) values))) /\
  (window < 0 -> Z.of_nat (List.length values) > - window ->
   Forecast64.movingAverage values window
   = Some (Binary64.mean (skipn (Z.to_nat (- window)) values))).
Proof.
  rewrite movingAverage64_slice, <- sliceLast_windowOf.
  split; [|split; [|split]].
  - rewrite <- sliceLast_empty.
    destruct (Forecast.sliceLast window values); split; congruence.
  - intros Hne H.
    assert (X : Forecast.sliceLast window values = values)
      by (destruct H as [->|H]; [apply sliceLast_zero | now apply sliceLast_all]).
    rewrite X. destruct values; [contradiction | reflexivity].
  - intros Hne Hw. rewrite sliceLast_trailing by exact Hw.
    pose proof (trailing_nonempty (Z.to_nat window) values ltac:(lia) Hne) as T.
    destruct (trailing (Z.to_nat window) values); [congruence | reflexivity].
  - intros N L. rewrite sliceLast_negative by exact N.
    destruct (skipn (Z.to_nat (- window)) values) eqn:X; [|reflexivity].
    assert (Len : List.length (skipn (Z.to_nat (- window)) values) = O) by now rewrite X.
    rewrite length_skipn in Len. lia.
Qed.

Lemma movingAverage_window_edges_witness :
  Forecast64.movingAverage [100000; 120000]%float 0 = Some 110000%float /\
  Forecast64.movingAverage [100000; 120000]%float (-2) = None.
Proof.
  destruct (movingAverage_window_edges [100000; 120000]%float 0) as (_ & H & _).
  destruct (movingAverage_window_edges [100000; 120000]%float (-2)) as (N & _).
  split.
  - apply H; [discriminate | now left].
  - apply N. right. cbn. lia.
Defined.

(** ** aggregateMonthly of forecast.ts on binary64 *)

Lemma addMonth64_keys k a m k' :
  In k' (map fst (Forecast64.addMonth k a m)) <-> In k' (map fst m) \/ k' = k.
Proof.
  induction m as [|[k0 e] m IH]; simpl.
  - intuition.
  - destruct (String.eqb k0 k) eqn:X; simpl.
    + apply String.eqb_eq in X. subst. intuition.
    + rewrite IH. intuition.
Qed.

Lemma monthsOf64_keys k transactions : forall m,
  In k (map fst (monthsOf64 transactions m)) <->
  In k (map fst m) \/ exists t, In t transactions /\ monthOf t = k.
Proof.
  induction transactions as [|t ts IH]; intros m; simpl.
  - split; [auto | intros [H|[t [[] _]]]; exact H].
  - fold (monthsOf64 ts (Forecast64.addMonth (monthOf t) (Binary64.double (amount t)) m)).
    rewrite IH, addMonth64_keys. split.
    + intros [[H|H]|[t' [H1 H2]]]; eauto 6.
    + intros [H|[t' [[<-|H1] H2]]]; eauto 6.
Qed.

Lemma addMonth64_NoDup k a m :
  NoDup (map fst m) -> NoDup (map fst (Forecast64.addMonth k a m)).
Proof.
  induction m as [|[k0 e] m IH]; cbn [Forecast64.addMonth map fst]; intros N.
  - repeat constructor. intros [].
  - inversion N as [|? ? Hk N']; subst.
    destruct (String.eqb k0 k) eqn:X; cbn [map fst]; [exact N|].
    constructor; [|now apply IH].
    intros Hin. apply addMonth64_keys in Hin. destruct Hin as [Hin| ->]; [contradiction|].
    now rewrite String.eqb_refl in X.
Qed.

Lemma monthsOf64_NoDup transactions : forall m,
  NoDup (map fst m) -> NoDup (map fst (monthsOf64 transactions m)).
Proof.
  induction transactions as [|t ts IH]; intros m N; cbn [monthsOf64 fold_left]; [exact N|].
  apply IH, addMonth64_NoDup, N.
Qed.

Lemma addMonth64_at k a m k' :
  monthAt64 k' (Forecast64.addMonth k a m) =
  if String.eqb k k' then upd64 a (monthAt64 k' m) else monthAt64 k' m.
Proof.
  induction m as [|[k0 e1] m IH]; cbn [Forecast64.addMonth monthAt64].
  - destruct (String.eqb k k'); reflexivity.
  - destruct (String.eqb k0 k) eqn:X; cbn [monthAt64].
    + apply String.eqb_eq in X. subst k0. destruct (String.eqb k k'); reflexivity.
    + destruct (String.eqb k0 k') eqn:X'; [|exact IH].
      apply String.eqb_eq in X'. subst k'. rewrite String.eqb_sym, X. reflexivity.
Qed.

Lemma monthsOf64_at k transactions : forall m,
  monthAt64 k (monthsOf64 transactions m) =
  (fold_left add (incomesOf k transactions) (fst (monthAt64 k m)),
   fold_left add (expensesOf k transactions) (snd (monthAt64 k m))).
Proof.
  unfold incomesOf, expensesOf.
  induction transactions as [|t ts IH]; intros m; cbn [monthsOf64 fold_left filter map].
  - now destruct (monthAt64 k m).
  - fold (monthsOf64 ts (Forecast64.addMonth (monthOf t) (Binary64.double (amount t)) m)).
    rewrite IH, addMonth64_at. unfold upd64.
    destruct (String.eqb (monthOf t) k); cbn [andb]; [|reflexivity].
    destruct (0 <=? Binary64.double (amount t))%float; cbn [negb map fold_left fst snd]; reflexivity.
Qed.

Lemma monthAt64_In k e m : NoDup (map fst m) -> In (k, e) m -> monthAt64 k m = e.
Proof.
  induction m as [|[k0 e0] m IH]; cbn [monthAt64 map fst]; intros N H; [destruct H|].
  inversion N as [|? ? Hk N']; subst.
  destruct H as [H|H].
  - injection H as -> ->. now rewrite String.eqb_refl.
  - destruct (String.eqb_spec k0 k) as [->|_]; [|now apply IH].
    exfalso. apply Hk. change k with (fst (k, e)). now apply in_map.
Qed.

Lemma aggregateMonthly64_totals E transactions a :
  In a (Forecast64.aggregateMonthly E transactions) ->
  Forecast64.m_income a = Binary64.sum (incomesOf (Forecast64.m_month a) transactions) /\
  Forecast64.m_expense a = Binary64.sum (expensesOf (Forecast64.m_month a) transactions) /\
  Forecast64.m_savings a = (Forecast64.m_income a - Forecast64.m_expense a)%float.
Proof.
  unfold Forecast64.aggregateMonthly. fold monthOf. fold (monthsOf64 transactions []). intros H.
  apply in_map_iff in H. destruct H as [[k e] [<- H]].
  cbn [Forecast64.m_income Forecast64.m_expense Forecast64.m_savings Forecast64.m_month fst snd].
  apply sortBy_In in H.
  pose proof (monthAt64_In k e _ (monthsOf64_NoDup transactions [] (NoDup_nil _)) H) as X.
  rewrite monthsOf64_at in X. cbn [monthAt64 fst snd] in X. rewrite <- X.
  repeat split.
Qed.

Lemma aggregateMonthly64_In_month E k transactions :
  In k (map Forecast64.m_month (Forecast64.aggregateMonthly E transactions)) <->
  exists t, In t transactions /\ monthOf t = k.
Proof.
  unfold Forecast64.aggregateMonthly. fold monthOf. fold (monthsOf64 transactions []).
  rewrite map_map. cbn [Forecast64.m_month].
  assert (H : In k (map fst (sortBy (fun a b => 0 <? Binary64.localeCompare E (fst a) (fst b))
                                    (monthsOf64 transactions []))) <->
              In k (map fst (monthsOf64 transactions []))).
  { split; apply Permutation_in, Permutation_map; [|symmetry]; apply sortBy_perm. }
  rewrite H, monthsOf64_keys. simpl. intuition.
Qed.

Lemma aggregateMonthly64_nil E transactions :
  Forecast64.aggregateMonthly E transactions = [] <-> transactions = [].
Proof.
  split; [|intros ->; reflexivity].
  intros H. destruct transactions as [|t ts]; [reflexivity|].
  assert (Hin : In (monthOf t)
                   (map Forecast64.m_month (Forecast64.aggregateMonthly E (t :: ts)))).
  { apply aggregateMonthly64_In_month. exists t. split; [now left | reflexivity]. }
  rewrite H in Hin. destruct Hin.
Qed.

(** ** The last element of a sorted list *)

Lemma insertSorted_nonempty {A} (gt : A -> A -> bool) x l : insertSorted gt x l <> [].
Proof. destruct l; cbn [insertSorted]; [|destruct (gt x a)]; discriminate. Qed.

Lemma insertSorted_last_kept {A} (gt : A -> A -> bool) (d x : A) l :
  l <> [] -> gt x (lastOr d l) = false ->
  lastOr d (insertSorted gt x l) = lastOr d l.
Proof.
  induction l as [|y l IH]; intros Hne H; [congruence|].
  cbn [insertSorted]. destruct l as [|z l].
  - cbn [lastOr] in H. rewrite H. reflexivity.
  - destruct (gt x y); [|reflexivity].
    change (lastOr d (y :: z :: l)) with (lastOr d (z :: l)) in *.
    pose proof (insertSorted_nonempty gt x (z :: l)) as N.
    destruct (insertSorted gt x (z :: l)) as [|w r] eqn:X; [congruence|].
    change (lastOr d (y :: w :: r)) with (lastOr d (w :: r)).
    apply IH; [discriminate | exact H].
Qed.

Lemma insertSorted_last_new {A} (gt : A -> A -> bool) (d x : A) l :
  (forall y, In y l -> gt x y = true) -> lastOr d (insertSorted gt x l) = x.
Proof.
  induction l as [|y l IH]; intros H; [reflexivity|].
  cbn [insertSorted]. rewrite (H y (or_introl eq_refl)).
  pose proof (insertSorted_nonempty gt x l) as N.
  destruct (insertSorted gt x l) as [|w r] eqn:X; [congruence|].
  change (lastOr d (y :: w :: r)) with (lastOr d (w :: r)).
  apply IH. intros z Hz. apply H. now right.
Qed.

Lemma sortBy_last {A} (gt : A -> A -> bool) (d x : A) l :
  In x l ->
  (forall y, In y l -> y <> x -> gt y x = false /\ gt x y = true) ->
  (forall y, In y l -> y = x \/ y <> x) ->
  NoDup l ->
  lastOr d (sortBy gt l) = x.
Proof.
  induction l as [|a l IH]; intros Hin H Dec N; [destruct Hin|].
  inversion N as [|? ? Ha N']; subst. cbn [sortBy fold_right].
  fold (sortBy gt l).
  destruct (Dec a (or_introl eq_refl)) as [->|Hne].
  - apply insertSorted_last_new. intros y Hy. apply sortBy_In in Hy.
    apply H; [now right|]. intros ->. contradiction.
  - destruct Hin as [->|Hin]; [congruence|].
    assert (L : lastOr d (sortBy gt l) = x).
    { apply IH; [exact Hin | | | exact N'].
      - intros y Hy. apply H. now right.
      - intros y Hy. apply Dec. now right. }
    rewrite insertSorted_last_kept; [exact L | | ].
    + intros X. assert (I : In x (sortBy gt l)) by now apply sortBy_In.
      rewrite X in I. destruct I.
    + rewrite L. apply H; [now left | exact Hne].
Qed.

Lemma lastMonth64_isLatest E transactions k :
  isLatest64 E transactions k ->
  lastOr "" (map Forecast64.m_month (Forecast64.aggregateMonthly E transactions)) = k.
Proof.
  intros [[t [Ht Hk]] Hmax].
  unfold Forecast64.aggregateMonthly. fold monthOf. fold (monthsOf64 transactions []).
  rewrite map_map. cbn [Forecast64.m_month].
  set (m := monthsOf64 transactions []).
  assert (N : NoDup (map fst m)) by (apply monthsOf64_NoDup; constructor).
  assert (Hin : In k (map fst m)).
  { apply monthsOf64_keys. right. eauto. }
  apply in_map_iff in Hin. destruct Hin as [[k0 e] [X He]]. cbn [fst] in X. subst k0.
  assert (K : forall y, In y m -> y <> (k, e) -> fst y <> k).
  { intros [k1 e1] Hy Hne X. cbn [fst] in X. subst k1. apply Hne. f_equal.
    rewrite <- (monthAt64_In k e1 m N Hy). now apply monthAt64_In. }
  set (gt := fun a b : string * (float * float) => 0 <? Binary64.localeCompare E (fst a) (fst b)).
  assert (L : lastOr ("", (zero, zero)) (sortBy gt m) = (k, e)).
  { apply sortBy_last; [exact He | | | ].
    - intros y Hy Hne. pose proof (K y Hy Hne) as Hk'.
      assert (Hy' : In (fst y) (map fst m)) by now apply in_map.
      apply monthsOf64_keys in Hy'. destruct Hy' as [[]|[t' [Ht' Hk'']]].
      destruct (Hmax t' Ht' ltac:(congruence)) as [M1 M2]. rewrite Hk'' in M1, M2.
      unfold gt. cbn [fst]. split; [apply Z.ltb_ge; exact M1 | apply Z.ltb_lt; exact M2].
    - intros [k1 e1] Hy. destruct (String.eqb_spec k1 k) as [->|Hne].
      + left. f_equal. rewrite <- (monthAt64_In k e1 m N Hy). now apply monthAt64_In.
      + right. congruence.
    - apply (NoDup_map_inv fst), N. }
  assert (G : forall l : list (string * (float * float)),
             lastOr "" (map fst l) = fst (lastOr ("", (zero, zero)) l)).
  { induction l as [|a [|b l] IH]; [reflexivity | reflexivity |].
    change (lastOr "" (map fst (b :: l)) = fst (lastOr ("", (zero, zero)) (b :: l))).
    exact IH. }
  rewrite G. change (fst (lastOr ("", (zero, zero)) (sortBy gt m)) = k).
  rewrite L. reflexivity.
Qed.

Lemma buildForecast64_nonempty E transactions window :
  Forecast64.aggregateMonthly E transactions <> [] ->
  Forecast64.buildForecast E transactions window =
  let monthly := Forecast64.aggregateMonthly E transactions in
  let projectedIncome := projection window (map Forecast64.m_income monthly) in
  let projectedExpense := projection window (map Forecast64.m_expense monthly) in
  let lastMonth := lastOr "" (map Forecast64.m_month monthly) in
  if String.eqb lastMonth "" || negb (test Forecast.monthPattern lastMonth)
  then Forecast64.emptyForecast
  else
    let parts := split "-" lastMonth in
    let year := parseInt (nth 0 parts "undefined") in
    let month := parseInt (nth 1 parts "undefined") in
    let nextDate :=
      if numEq month (Some 12)
      then numString (option_map (fun y => y + 1) year) ++ "-01"
      else numString year ++ "-"
           ++ padStart 2 "0" (numString (option_map (fun m => m + 1) month)) in
    let forecastPoint :=
      {| Forecast64.month := nextDate;
         Forecast64.projectedIncome := projectedIncome;
         Forecast64.projectedExpense := projectedExpense;
         Forecast64.projectedSavings := (projectedIncome - projectedExpense)%float;
         Forecast64.method := "moving-average-" ++ decString window |} in
    {| Forecast64.points := [forecastPoint]; Forecast64.nextMonth := Some forecastPoint |}.
Proof.
  intros H. unfold Forecast64.buildForecast. rewrite !orZero_movingAverage64.
  destruct (Forecast64.aggregateMonthly E transactions); [congruence | reflexivity].
Qed.

Lemma followingKey_calendar y m :
  1000 <= y <= 9999 -> 1 <= m <= 12 ->
  followingKey y m
  = fourDigits (fst (nextCalendarMonth y m)) ++ "-" ++ twoDigits (snd (nextCalendarMonth y m))
  /\ 1 <= snd (nextCalendarMonth y m) <= 12.
Proof.
  intros Hy Hm. unfold followingKey, nextCalendarMonth.
  destruct (Z.eqb_spec m 12) as [->|N]; cbn [fst snd].
  - split; [|lia]. destruct (Z.eq_dec y 9999) as [->|N']; [reflexivity|].
    rewrite fourDigits_year by lia. reflexivity.
  - split; [|lia]. rewrite fourDigits_year by lia. reflexivity.
Qed.

(** ** buildForecast *)


Lemma example_series_latest : isLatest64 Examples.engine example_series "2025-02".
Proof.
  split.
  - eexists. split; [right; right; left; reflexivity | reflexivity].
  - intros t Ht N. unfold example_series in Ht.
    destruct Ht as [<-|[<-|[<-|[<-|[]]]]]; try (exfalso; apply N; reflexivity);
      split; vm_compute; congruence.
Qed.


(** With a window of 0 the projections are the means of all months. *)
Lemma buildForecast_window_zero_takes_all :
  map (fun p => (Forecast64.projectedIncome p, Forecast64.projectedExpense p))
      (Forecast64.points (Forecast64.buildForecast Examples.engine example_series 0))
  = [(110000, 55000)%float].
Proof. reflexivity. Qed.

